(** * Image-processing service: naming, staging and derivation pipeline

    A shallow embedding of [image-processing.service.ts],
    [image-processing.util.ts], [imageConfig.ts] and [image.type.ts].

    - Strings are [string]; file contents are byte lists.
    - The file system is an explicit store (files and directories), threaded
      through a small state-and-exception monad that mirrors the
      [async]/[await] + [try]/[catch] structure of the service.
    - Node's [path] module and the [sharp] codec are libraries the service
      calls.  [path] is modelled for the relative paths the service builds,
      on both of Node's platforms; [sharp] is an interface ([Sharp]) the
      pipeline is parameterised by.
    - Crop coordinates are JavaScript numbers.  [cropImage] is the method
      at integer coordinates, where its arithmetic is exact;
      [Js.cropImage] is the same method at arbitrary IEEE 754 doubles. *)

From Stdlib Require Import ZArith QArith Floats Bool List Ascii String Lia.
From stdpp Require Import base option gmap strings pretty.

Local Open Scope string_scope.
Local Open Scope Z_scope.

(** ** Strings *)

Module Str.

Fixpoint forallb (p : ascii -> bool) (s : string) : bool :=
  match s with
  | EmptyString => true
  | String c s' => p c && forallb p s'
  end.

Fixpoint existsb (p : ascii -> bool) (s : string) : bool :=
  match s with
  | EmptyString => false
  | String c s' => p c || existsb p s'
  end.

(** [s.slice(0, n)] *)
Fixpoint take (n : nat) (s : string) : string :=
  match n, s with
  | S n', String c s' => String c (take n' s')
  | _, _ => EmptyString
  end.

(** Index of the last character satisfying [p], counting from [i]. *)
Fixpoint last_index (p : ascii -> bool) (s : string) (i : nat) : option nat :=
  match s with
  | EmptyString => None
  | String c s' =>
      match last_index p s' (S i) with
      | Some j => Some j
      | None => if p c then Some i else None
      end
  end.

Definition is_backslash (c : ascii) : bool := Ascii.eqb c "\".

(** [s.slice(n)] *)
Fixpoint drop (n : nat) (s : string) : string :=
  match n, s with
  | S n', String _ s' => drop n' s'
  | _, _ => s
  end.

Definition tail (s : string) : string :=
  match s with
  | EmptyString => EmptyString
  | String _ t => t
  end.

(** [parts.join(sep)] *)
Fixpoint join (sep : string) (parts : list string) : string :=
  match parts with
  | [] => EmptyString
  | [p] => p
  | p :: rest => p +:+ sep +:+ join sep rest
  end.

End Str.

(** ** Node's [path] module *)

Inductive platform := Posix | Win32.

Module Path.
Section Platform.

Variable pf : platform.

Definition is_dot (c : ascii) : bool := Ascii.eqb c ".".

(** [path.sep] *)
Definition sep : string :=
  match pf with Posix => "/" | Win32 => "\" end.

(** POSIX separates on [/] only; win32 on [/] and on the backslash. *)
Definition is_sep (c : ascii) : bool :=
  match pf with
  | Posix => Ascii.eqb c "/"
  | Win32 => Ascii.eqb c "/" || Ascii.eqb c "\"
  end.

(** The components of a path between separators. *)
Fixpoint segments (s : string) : list string :=
  match s with
  | EmptyString => [EmptyString]
  | String c s' =>
      if is_sep c then EmptyString :: segments s'
      else match segments s' with
           | seg :: rest => String c seg :: rest
           | [] => [String c EmptyString]
           end
  end.

(** [normalizeString]: drop empty and [.] components, resolve [..]
    against the component before it.  [res] is the stack of kept
    components, innermost first. *)
Fixpoint normalize_segments (allowAboveRoot : bool)
    (segs res : list string) : list string :=
  match segs with
  | [] => rev res
  | seg :: rest =>
      if String.eqb seg "" || String.eqb seg "." then
        normalize_segments allowAboveRoot rest res
      else if String.eqb seg ".." then
        match res with
        | top :: res' =>
            if String.eqb top ".." then
              normalize_segments allowAboveRoot rest
                (if allowAboveRoot then seg :: res else res)
            else normalize_segments allowAboveRoot rest res'
        | [] =>
            normalize_segments allowAboveRoot rest
              (if allowAboveRoot then [seg] else [])
        end
      else normalize_segments allowAboveRoot rest (seg :: res)
  end.

Definition starts_with_sep (s : string) : bool :=
  match s with String c _ => is_sep c | EmptyString => false end.

Fixpoint ends_with_sep (s : string) : bool :=
  match s with
  | EmptyString => false
  | String c EmptyString => is_sep c
  | String _ s' => ends_with_sep s'
  end.

(** [path.normalize].  A path is rooted when it starts with a separator;
    win32 drive letters and UNC roots are outside this model (every path
    the service builds starts with [./images]). *)
Definition normalize (p : string) : string :=
  match p with
  | EmptyString => "."
  | _ =>
      let isAbsolute := starts_with_sep p in
      let trailingSeparator := ends_with_sep p in
      let body :=
        Str.join sep (normalize_segments (negb isAbsolute) (segments p) []) in
      match body with
      | EmptyString =>
          if isAbsolute then sep
          else if trailingSeparator then "." +:+ sep else "."
      | _ =>
          let body' := if trailingSeparator then body +:+ sep else body in
          if isAbsolute then sep +:+ body' else body'
      end
  end.

(** [path.join(a, b)]: empty arguments are skipped, the rest joined with
    the platform separator and normalised. *)
Definition join (a b : string) : string :=
  match a, b with
  | EmptyString, _ => normalize b
  | _, EmptyString => normalize a
  | _, _ => normalize (a +:+ sep +:+ b)
  end.

Definition has_non_sep (s : string) : bool :=
  Str.existsb (fun c => negb (is_sep c)) s.

(** The [end] index computed by [path.dirname]: the last separator at
    index >= 1 that has a non-separator somewhere after it. *)
Fixpoint dirname_end (s : string) (i : nat) : option nat :=
  match s with
  | EmptyString => None
  | String c s' =>
      match dirname_end s' (S i) with
      | Some e => Some e
      | None =>
          if is_sep c && (1 <=? i)%nat && has_non_sep s'
          then Some i else None
      end
  end.

(** [path.dirname] *)
Definition dirname (p : string) : string :=
  match p with
  | EmptyString => "."
  | _ =>
      let hasRoot := starts_with_sep p in
      match dirname_end p 0 with
      | None => if hasRoot then sep else "."
      | Some e =>
          if hasRoot && (e =? 1)%nat then sep +:+ sep else Str.take e p
      end
  end.

Definition is_drive_letter (c : ascii) : bool :=
  let n := N_of_ascii c in
  ((65 <=? n) && (n <=? 90) || (97 <=? n) && (n <=? 122))%N.

(** What follows a win32 drive root such as [C:]; all of [p] on POSIX.
    (UNC roots are not modelled.) *)
Definition after_root (p : string) : string :=
  match pf, p with
  | Win32, String c (String ":" rest) =>
      if is_drive_letter c then rest else p
  | _, _ => p
  end.

(** The last non-empty component of a list of components. *)
Fixpoint last_component (segs : list string) : string :=
  match segs with
  | [] => EmptyString
  | seg :: rest =>
      match last_component rest with
      | EmptyString => seg
      | b => b
      end
  end.

(** The last path component, trailing separators dropped
    ([ret.base] of [path.parse]). *)
Definition base_component (p : string) : string :=
  last_component (segments (after_root p)).

(** [ret.name] of [path.parse] for a given last component [b]: [b] up to
    its last dot, unless there is no dot, the only dot leads the
    component, or the component is [..]. *)
Definition name_of_base (b : string) : string :=
  match Str.last_index is_dot b 0 with
  | None => b
  | Some O => b
  | Some i => if String.eqb b ".." then b else Str.take i b
  end.

(** [path.parse(p).name] *)
Definition parse_name (p : string) : string :=
  name_of_base (base_component p).

(** [ret.ext] of [path.parse] for a given last component [b]: what
    [name_of_base] leaves out. *)
Definition ext_of_base (b : string) : string :=
  match Str.last_index is_dot b 0 with
  | None => EmptyString
  | Some O => EmptyString
  | Some i => if String.eqb b ".." then EmptyString else Str.drop i b
  end.

(** [path.extname(p)] *)
Definition extname (p : string) : string :=
  ext_of_base (base_component p).

(** What [path.extname] can return: nothing, or a dot followed by
    characters that are neither dots nor separators. *)
Definition is_extension (ext : string) : bool :=
  match ext with
  | EmptyString => true
  | String c e =>
      is_dot c && negb (Str.existsb is_dot e) && negb (Str.existsb is_sep e)
  end.

(** A plain file name: one component, not empty, not [.] or [..]. *)
Definition is_file_name (n : string) : bool :=
  negb (Str.existsb is_sep n)
  && negb (String.eqb n "") && negb (String.eqb n ".")
  && negb (String.eqb n "..").

End Platform.
End Path.

(** ** Exceptions

    [BadRequestException] and [InternalServerErrorException] are Nest's HTTP
    exceptions; [Error] stands for a plain JavaScript [Error] (the service's
    own ['File not found'] and whatever [fs] or [sharp] reject with).  All
    three are instances of [Error] and carry a [message]. *)

Inductive exn :=
| Error (msg : string)
| BadRequestException (msg : string)
| InternalServerErrorException (msg : string).

Definition message (e : exn) : string :=
  match e with
  | Error m | BadRequestException m | InternalServerErrorException m => m
  end.

(** The status Nest's exception layer answers with: an [HttpException]
    carries its own, anything else is an internal server error. *)
Definition http_status (e : exn) : Z :=
  match e with
  | BadRequestException _ => 400
  | InternalServerErrorException _ => 500
  | Error _ => 500
  end.

Definition is_client_error (e : exn) : bool :=
  (400 <=? http_status e) && (http_status e <? 500).

(** ** The file system *)

Abbreviation bytes := (list Byte.byte).

(** Files and directories, keyed by the path strings the service passes to
    [fs] and [sharp] (all of them results of [path.join] or
    [path.dirname]). *)
Record FS := mkFS {
  files : gmap string bytes;
  dirs : gset string
}.

Definition write_file (p : string) (b : bytes) (fs : FS) : FS :=
  mkFS (<[p := b]> (files fs)) (dirs fs).

Definition remove_file (p : string) (fs : FS) : FS :=
  mkFS (delete p (files fs)) (dirs fs).

Definition is_dir (p : string) (fs : FS) : bool := bool_decide (p ∈ dirs fs).

Definition is_file (p : string) (fs : FS) : bool :=
  match files fs !! p with Some _ => true | None => false end.

(** [F_OK]: something, file or directory, is there. *)
Definition exists_path (p : string) (fs : FS) : bool :=
  is_file p fs || is_dir p fs.

(** ** Computations: state and exceptions *)

Definition M (A : Type) : Type := FS -> (exn + A) * FS.

Definition ret {A} (a : A) : M A := fun fs => (inr a, fs).

Definition throw {A} (e : exn) : M A := fun fs => (inl e, fs).

Definition bind {A B} (m : M A) (k : A -> M B) : M B :=
  fun fs =>
    match m fs with
    | (inl e, fs') => (inl e, fs')
    | (inr a, fs') => k a fs'
    end.

(** [try { body } catch (error) { handler }] *)
Definition try_catch {A} (body : M A) (handler : exn -> M A) : M A :=
  fun fs =>
    match body fs with
    | (inl e, fs') => handler e fs'
    | (inr a, fs') => (inr a, fs')
    end.

Declare Scope js_scope.
Delimit Scope js_scope with js.
Notation "'let*' x ':=' m 'in' k" := (bind m (fun x => k))
  (at level 10, x name, m at level 200, k at level 200) : js_scope.
Notation "'await' m 'in' k" := (bind m (fun _ => k))
  (at level 10, m at level 200, k at level 200) : js_scope.
Local Open Scope js_scope.

(** *** [fs] primitives *)

Module Fs.

(** [fs.promises.access(p, F_OK)] *)
Definition access (p : string) : M unit :=
  fun fs =>
    if exists_path p fs then (inr tt, fs)
    else (inl (Error ("ENOENT: no such file or directory, access '"
                        +:+ p +:+ "'")), fs).

(** [fs.promises.readFile(p)] *)
Definition readFile (p : string) : M bytes :=
  fun fs =>
    match files fs !! p with
    | Some b => (inr b, fs)
    | None =>
        if is_dir p fs
        then (inl (Error "EISDIR: illegal operation on a directory, read"),
              fs)
        else (inl (Error ("ENOENT: no such file or directory, open '"
                            +:+ p +:+ "'")), fs)
    end.

(** [fs.unlink(p)] *)
Definition unlink (p : string) : M unit :=
  fun fs =>
    match files fs !! p with
    | Some _ => (inr tt, remove_file p fs)
    | None =>
        (inl (Error ("ENOENT: no such file or directory, unlink '"
                       +:+ p +:+ "'")), fs)
    end.

(** [fs.existsSync(p)] *)
Definition existsSync (p : string) : M bool :=
  fun fs => (inr (exists_path p fs), fs).

End Fs.

(** ** The codec ([sharp])

    The pixel work is delegated; the service only relies on what each call
    gives back.  A call either rejects with an error or yields its result. *)

Inductive FitOption := fill | inside.

Record Metadata := mkMetadata {
  md_width : option Z;     (* [metadata.width], possibly [undefined] *)
  md_height : option Z     (* [metadata.height], possibly [undefined] *)
}.

Record Sharp := mkSharp {
  (** [sharp(input).metadata()] *)
  metadata : bytes -> exn + Metadata;
  (** [sharp(input).webp()], encoded *)
  webp : bytes -> exn + bytes;
  (** [sharp(input).resize(width, height, { fit })], encoded in the format
      [toFile] infers from the output path *)
  resize : Z -> Z -> FitOption -> string -> bytes -> exn + bytes;
  (** [sharp(input).extract({ left, top, width, height }).toFormat(fmt)],
      encoded *)
  extract : Z -> Z -> Z -> Z -> string -> bytes -> exn + bytes
}.

Module SharpIO.

(** [sharp(path)]: the input file is read when the pipeline runs. *)
Definition input (p : string) : M bytes :=
  fun fs =>
    match files fs !! p with
    | Some b => (inr b, fs)
    | None => (inl (Error ("Input file is missing: " +:+ p)), fs)
    end.

(** Lift a codec call: a rejection is thrown. *)
Definition run {A} (r : exn + A) : M A :=
  match r with
  | inl e => throw e
  | inr a => ret a
  end.

(** [.toFile(p)]: the encoded bytes replace whatever file is at [p].
    The parent directory is taken to exist: the service writes next to
    the staged file or right after [ensureDirectoryExists]. *)
Definition toFile (p : string) (b : bytes) : M unit :=
  fun fs =>
    if is_dir p fs
    then (inl (Error ("EISDIR: illegal operation on a directory, open '"
                        +:+ p +:+ "'")), fs)
    else (inr tt, write_file p b fs).

End SharpIO.

(** ** [image.type.ts] and [imageConfig.ts] *)

Module ImageType.
Definition GAME : string := "game".
Definition PROMOTION : string := "promotion".
End ImageType.

Record ImageConfigType := mkImageConfigType {
  cfg_width : Z;
  cfg_height : Z;
  cfg_suffix : string
}.

(** A crop request with integer coordinates, the pixel counts the codec's
    [extract] asks for.  On integers below [2^52] in magnitude the
    comparisons and sums of [cropImage] are exact, and [Z] says what they
    compute ([cropImage_on_safe_integers]).  The interface itself types
    the four fields as [number]: requests holding other numbers
    (fractions, [NaN], magnitudes where a sum rounds) are [Js.CropOption]
    below. *)
Record CropOption := mkCropOption {
  crop_x : Z;
  crop_y : Z;
  crop_width : Z;
  crop_height : Z;
  crop_outputFormat : option string
}.

Definition UPLOAD_DIR : string := "./images/uploads".
Definition OUTPUT_DIR : string := "./images/processed".
Definition DEFAULT_FORMAT : string := "webp".

Definition ImageConfig : list (string * ImageConfigType) :=
  [ (ImageType.GAME, mkImageConfigType 184 256 "thumbnail");
    (ImageType.PROMOTION, mkImageConfigType 361 240 "resized") ].

(** [ImageConfig[imageType]], for the object's own keys.  (Names every
    object inherits, such as [toString], make the JavaScript lookup answer
    with something that is no descriptor; [processImage] never gets there,
    [isValidImageType] having let only own keys through.) *)
Fixpoint lookup_config (imageType : string)
    (cfg : list (string * ImageConfigType)) : option ImageConfigType :=
  match cfg with
  | [] => None
  | (k, v) :: rest =>
      if String.eqb k imageType then Some v else lookup_config imageType rest
  end.

(** ** [image-processing.util.ts] *)

Section Util.

Variable pf : platform.

(** The directories [mkdirSync(dirPath, { recursive: true })] walks
    through: [dirPath] and each of its ancestors, outermost first. *)
Definition mkdir_chain (dirPath : string) : list string :=
  let segs := Path.segments pf dirPath in
  filter (fun d => negb (String.eqb d ""))
    (map (fun n => Str.join (Path.sep pf) (firstn n segs))
         (seq 1 (length segs))).

(** [fs.mkdirSync(dirPath, { recursive: true })]: the empty path names
    nothing; a file where [dirPath] or one of its ancestors should go is
    in the way; otherwise every directory of the chain is there
    afterwards. *)
Definition mkdirSync_recursive (dirPath : string) : M unit :=
  fun fs =>
    if String.eqb dirPath ""
    then (inl (Error "ENOENT: no such file or directory, mkdir ''"), fs)
    else if is_file dirPath fs
    then (inl (Error ("EEXIST: file already exists, mkdir '"
                        +:+ dirPath +:+ "'")), fs)
    else if List.existsb (fun d => is_file d fs) (mkdir_chain dirPath)
    then (inl (Error ("ENOTDIR: not a directory, mkdir '"
                        +:+ dirPath +:+ "'")), fs)
    else (inr tt,
          mkFS (files fs) (dirs fs ∪ list_to_set (mkdir_chain dirPath))).

Definition ensureDirectoryExists (dirPath : string) : M unit :=
  let* present := Fs.existsSync dirPath in
  if negb present then mkdirSync_recursive dirPath else ret tt.

Definition ensureFileExists (filePath : string) : M unit :=
  try_catch (Fs.access filePath)
            (fun _ => throw (Error "File not found")).

Definition getOutputPath
    (outputDir fileBaseName suffix defaultFormat : string) : string :=
  Path.join pf outputDir
    (fileBaseName +:+ "-" +:+ suffix +:+ "." +:+ defaultFormat).

(** [Object.keys(ImageConfig).includes(imageType)] *)
Definition isValidImageType (imageType : string) : bool :=
  List.existsb (String.eqb imageType) (map fst ImageConfig).

End Util.

(** ** [image-processing.service.ts] *)

(** The collision-avoidance token pattern [/-[a-f0-9-]{36}$/]. *)
Module TokenPattern.

(** The class [[a-f0-9-]]. *)
Definition in_class (c : ascii) : bool :=
  let n := N_of_ascii c in
  ((97 <=? n) && (n <=? 102) || (48 <=? n) && (n <=? 57) || (n =? 45))%N.

(** [[a-f0-9-]{36}$]: exactly 36 class characters, then the end. *)
Definition token (t : string) : bool :=
  (String.length t =? 36)%nat && Str.forallb in_class t.

(** The pattern matches starting at the head of [s]. *)
Definition matches_here (s : string) : bool :=
  match s with
  | String c t => Ascii.eqb c "-" && token t
  | EmptyString => false
  end.

(** [s.replace(/-[a-f0-9-]{36}$/, '')]: the leftmost position where the
    pattern matches is cut out; the match runs to the end of [s]. *)
Fixpoint replace (s : string) : string :=
  if matches_here s then EmptyString
  else match s with
       | EmptyString => EmptyString
       | String c s' => String c (replace s')
       end.

End TokenPattern.

Record MulterFile := mkMulterFile {
  filename : string
}.

(** The name the controller's [diskStorage] gives a staged upload:
    [`${fileName}-${uuid}${fileExt}`]. *)
Definition staged_name (fileName uuid fileExt : string) : string :=
  fileName +:+ "-" +:+ uuid +:+ fileExt.

Record FilePaths := mkFilePaths {
  filePath : string;
  fileBaseName : string;
  originalOutputPath : string
}.

Record ProcessedImage := mkProcessedImage {
  original : string;
  variation : string
}.

Section ImageProcessingService.

Variable pf : platform.
Variable sharp : Sharp.
(** [configService.get('PORT')] *)
Variable PORT : option Z.

(** [this.server], set by the constructor. *)
Definition server : string :=
  "http://localhost:" +:+ pretty (default 3000 PORT).

Definition getFilePaths (file : MulterFile) : FilePaths :=
  let filePath := Path.join pf UPLOAD_DIR (filename file) in
  let baseName := Path.parse_name pf (filename file) in
  let fileBaseName := TokenPattern.replace baseName in
  let originalOutputPath :=
    Path.join pf UPLOAD_DIR (fileBaseName +:+ "." +:+ DEFAULT_FORMAT) in
  mkFilePaths filePath fileBaseName originalOutputPath.

Definition convertToWebP (filePath originalOutputPath : string) : M unit :=
  let* imageBuffer := Fs.readFile filePath in
  await try_catch (Fs.access originalOutputPath)
          (fun _ =>
             let* encoded := SharpIO.run (webp sharp imageBuffer) in
             SharpIO.toFile originalOutputPath encoded) in
  Fs.unlink filePath.

Definition generateVariations
    (fileBaseName filePath imageType : string) : M string :=
  match lookup_config imageType ImageConfig with
  | None =>
      throw (Error ("Cannot destructure property 'width' of "
                      +:+ "'imageConfig_1.ImageConfig[imageType]' "
                      +:+ "as it is undefined."))
  | Some cfg =>
      let outputPath :=
        getOutputPath pf OUTPUT_DIR fileBaseName (cfg_suffix cfg)
          DEFAULT_FORMAT in
      await ensureDirectoryExists pf (Path.dirname pf outputPath) in
      let fitOption :=
        if String.eqb imageType ImageType.PROMOTION then fill else inside in
      let* input := SharpIO.input filePath in
      let* resized :=
        SharpIO.run
          (resize sharp (cfg_width cfg) (cfg_height cfg) fitOption
             outputPath input) in
      await SharpIO.toFile outputPath resized in
      let variation := outputPath in
      ret variation
  end.

(** The body of [processImage]'s [try] block. *)
Definition processImage_try (paths : FilePaths) (imageType : string)
    : M ProcessedImage :=
  await (if negb (isValidImageType imageType)
         then throw (BadRequestException
                       ("Invalid image type: " +:+ imageType))
         else ret tt) in
  await convertToWebP (filePath paths) (originalOutputPath paths) in
  let* variation :=
    generateVariations (fileBaseName paths) (originalOutputPath paths)
      imageType in
  ret (mkProcessedImage
         (server +:+ "/" +:+ originalOutputPath paths)
         (server +:+ "/" +:+ variation)).

Definition processImage (file : MulterFile) (imageType : string)
    : M ProcessedImage :=
  let paths := getFilePaths file in
  await ensureFileExists (filePath paths) in
  try_catch (processImage_try paths imageType)
    (fun error =>
       throw (InternalServerErrorException
                ("Error processing image: " +:+ message error))).

(** [${imageWidth}] for a possibly undefined number. *)
Definition show_dimension (d : option Z) : string :=
  match d with
  | Some n => pretty n
  | None => "undefined"
  end.

(** [a > d] where [d] may be [undefined]: [undefined] converts to [NaN],
    and every comparison with [NaN] is false. *)
Definition exceeds (a : Z) (d : option Z) : bool :=
  match d with
  | Some n => n <? a
  | None => false
  end.

(** The part of [cropImage]'s [try] block after the two checks. *)
Definition cropImage_extract (paths : FilePaths) (x y width height : Z)
    (outputFormat : string) : M string :=
  await convertToWebP (filePath paths) (originalOutputPath paths) in
  let croppedFilePath :=
    getOutputPath pf OUTPUT_DIR (fileBaseName paths) "cropped"
      outputFormat in
  await ensureDirectoryExists pf (Path.dirname pf croppedFilePath) in
  let* input := SharpIO.input (originalOutputPath paths) in
  let* cropped :=
    SharpIO.run (extract sharp x y width height outputFormat input) in
  await SharpIO.toFile croppedFilePath cropped in
  ret croppedFilePath.

(** The body of [cropImage]'s [try] block. *)
Definition cropImage_try (paths : FilePaths) (x y width height : Z)
    (outputFormat : string) : M string :=
  let* staged := SharpIO.input (filePath paths) in
  let* metadata := SharpIO.run (metadata sharp staged) in
  let imageWidth := md_width metadata in
  let imageHeight := md_height metadata in
  if (x <? 0) || (y <? 0) || (width <=? 0) || (height <=? 0) then
    throw (BadRequestException
             "Invalid crop dimensions (negative values are not allowed).")
  else if exceeds (x + width) imageWidth
          || exceeds (y + height) imageHeight then
    throw (BadRequestException
             ("Crop area exceeds image dimensions. Image dimensions: "
                +:+ show_dimension imageWidth +:+ "x"
                +:+ show_dimension imageHeight +:+ "."))
  else cropImage_extract paths x y width height outputFormat.

Definition cropImage (file : MulterFile) (cropOptions : CropOption)
    : M string :=
  let paths := getFilePaths file in
  let x := crop_x cropOptions in
  let y := crop_y cropOptions in
  let width := crop_width cropOptions in
  let height := crop_height cropOptions in
  let outputFormat :=
    default DEFAULT_FORMAT (crop_outputFormat cropOptions) in
  await ensureFileExists (filePath paths) in
  try_catch (cropImage_try paths x y width height outputFormat)
    (fun error =>
       throw (InternalServerErrorException
                ("Error cropping image: " +:+ message error))).

End ImageProcessingService.

(** ** What the crop pipeline expects of the codec *)

(** The rectangle lies within the image encoded in [content], as the codec
    probes it. *)
Definition rectangle_within (sharp : Sharp) (x y width height : Z)
    (content : bytes) : Prop :=
  exists W H,
    metadata sharp content = inr (mkMetadata (Some W) (Some H))
    /\ x + width <= W /\ y + height <= H.

(** Re-encoding to WebP changes the container, not the probed width and
    height (the round trip the crop pipeline relies on). *)
Definition webp_preserves_dimensions (sharp : Sharp) : Prop :=
  forall content encoded,
    webp sharp content = inr encoded ->
    metadata sharp encoded = metadata sharp content.

(** ** The footprint of a request

    What a request that went through did to the store, given the codec
    operation [derive] it applied to the canonical file: files other than
    the three paths are as before; the staged file is gone; the canonical
    file is the one that was there or, if none was, the WebP re-encoding of
    the staged bytes; the output file is [derive] of the canonical file,
    whatever was there before; no directory was removed. *)
Definition touches_only (sharp : Sharp) (derive : bytes -> exn + bytes)
    (staged canonical output : string) (fs fs' : FS) : Prop :=
  (forall q, q <> staged -> q <> canonical -> q <> output ->
             files fs' !! q = files fs !! q)
  /\ files fs' !! staged = None
  /\ (exists uploaded kept derived,
        files fs !! staged = Some uploaded
        /\ files fs' !! canonical = Some kept
        /\ match files fs !! canonical with
           | Some previous => kept = previous
           | None => webp sharp uploaded = inr kept
           end
        /\ derive kept = inr derived
        /\ files fs' !! output = Some derived)
  /\ dirs fs ⊆ dirs fs'.

(** ** A small concrete codec

    Used to run the pipeline on explicit stores.  An encoded image is a
    five-byte header: a format tag, then width and height as two
    big-endian bytes each; a zero dimension reads as absent. *)

Module ToySharp.

Definition byte_of (n : Z) : Byte.byte :=
  match Byte.of_N (Z.to_N (n mod 256)) with
  | Some b => b
  | None => Byte.x00
  end.

Definition u16 (hi lo : Byte.byte) : Z :=
  256 * Z.of_N (Byte.to_N hi) + Z.of_N (Byte.to_N lo).

Definition dimension (hi lo : Byte.byte) : option Z :=
  if u16 hi lo =? 0 then None else Some (u16 hi lo).

Definition format_tag (fmt : string) : option Byte.byte :=
  if String.eqb fmt "webp" then Some Byte.x57
  else if String.eqb fmt "png" then Some Byte.x50
  else if String.eqb fmt "jpeg" then Some Byte.x4a
  else None.

Definition encode (tag : Byte.byte) (w h : Z) : bytes :=
  [tag; byte_of (w / 256); byte_of w; byte_of (h / 256); byte_of h].

Definition unsupported : exn :=
  Error "Input buffer contains unsupported image format".

Definition decode (b : bytes) : exn + (option Z * option Z) :=
  match b with
  | [_; wh; wl; hh; hl] => inr (dimension wh wl, dimension hh hl)
  | _ => inl unsupported
  end.

Definition toy_metadata (b : bytes) : exn + Metadata :=
  match decode b with
  | inr (w, h) => inr (mkMetadata w h)
  | inl e => inl e
  end.

Definition toy_webp (b : bytes) : exn + bytes :=
  match b with
  | [_; wh; wl; hh; hl] => inr [Byte.x57; wh; wl; hh; hl]
  | _ => inl unsupported
  end.

Definition toy_resize (width height : Z) (fit : FitOption) (out : string)
    (b : bytes) : exn + bytes :=
  match decode b with
  | inr (Some w, Some h) =>
      match fit with
      | fill => inr (encode Byte.x57 width height)
      | inside =>
          if width * h <=? height * w
          then inr (encode Byte.x57 width (Z.max 1 (h * width / w)))
          else inr (encode Byte.x57 (Z.max 1 (w * height / h)) height)
      end
  | inr _ => inl unsupported
  | inl e => inl e
  end.

Definition toy_extract (left top width height : Z) (fmt : string)
    (b : bytes) : exn + bytes :=
  match format_tag fmt with
  | None => inl (Error ("Unsupported output format " +:+ fmt))
  | Some tag =>
      match decode b with
      | inr (Some w, Some h) =>
          if (0 <=? left) && (0 <=? top) && (0 <? width) && (0 <? height)
             && (left + width <=? w) && (top + height <=? h)
          then inr (encode tag width height)
          else inl (Error "extract_area: bad extract area")
      | inr _ => inl unsupported
      | inl e => inl e
      end
  end.

Definition toy : Sharp :=
  mkSharp toy_metadata toy_webp toy_resize toy_extract.

(** An image file with the given format tag and dimensions. *)
Definition image (fmt : string) (w h : Z) : bytes :=
  encode (default Byte.x00 (format_tag fmt)) w h.

End ToySharp.

(** ** [image-processing.controller.ts] *)

Module Controller.
Section Controller.

Variable pf : platform.
Variable sharp : Sharp.
Variable PORT : option Z.

(** The [filename] callback of the interceptor's [diskStorage]; [uuid] is
    what [uuidv4()] returned. *)
Definition storage_filename (originalname uuid : string) : string :=
  let fileExt := Path.extname pf originalname in
  let fileName := Path.parse_name pf originalname in
  staged_name fileName uuid fileExt.

(** The [fileFilter] callback: the error it passes on, or acceptance. *)
Definition fileFilter (mimetype : string) : exn + bool :=
  if negb (String.prefix "image/" mimetype)
  then inl (BadRequestException "Only image files are allowed")
  else inr true.

(** [!imageType] for a body field that is a string or missing. *)
Definition is_falsy (field : option string) : bool :=
  match field with
  | None => true
  | Some s => String.eqb s ""
  end.

(** The [uploadImage] handler; [file] is [None] when no file was
    uploaded. *)
Definition uploadImage (file : option MulterFile)
    (imageType : option string) : M ProcessedImage :=
  match file, imageType with
  | Some f, Some t =>
      if is_falsy imageType
      then throw (BadRequestException "File and image type are required")
      else processImage pf sharp PORT f t
  | _, _ => throw (BadRequestException "File and image type are required")
  end.

End Controller.
End Controller.

(** ** [cropImage] on JavaScript numbers

    The crop handler passes [+x], [+y], [+width] and [+height] to the
    service: whatever number the request's JSON holds, [NaN] for text
    that is no number.  A [number] is an IEEE 754 double, and the two
    checks of [cropImage] compare and add doubles.  On integers below
    [2^52] in magnitude that arithmetic is exact and [cropImage] above
    describes it; here the method is written once more, with the
    comparisons and sums as JavaScript evaluates them on any number. *)

Module Js.

Abbreviation number := float.

(** An integer as a number (rounded to nearest beyond [2^53]). *)
Definition of_Z (z : Z) : number :=
  SF2Prim (binary_normalize prec emax z 0 false).

(** The double an integer below [2^53] in magnitude is: its sign, its
    digits shifted up to a mantissa of 53 bits, and the exponent that
    undoes the shift. *)
Definition mantissa (q : positive) : positive :=
  Z.to_pos (Z.pos q * 2 ^ (53 - Z.pos (Pos.size q))).

Definition spec_of_Z (z : Z) : spec_float :=
  match z with
  | Z0 => S754_zero false
  | Z.pos q => S754_finite false (mantissa q) (Z.pos (Pos.size q) - 53)
  | Z.neg q => S754_finite true (mantissa q) (Z.pos (Pos.size q) - 53)
  end.

(** A probed dimension in an arithmetic comparison: [undefined] converts
    to [NaN]. *)
Definition of_dimension (d : option Z) : number :=
  match d with
  | Some n => of_Z n
  | None => nan
  end.

(** The integer a number is, if it is one ([Number.isInteger]). *)
Definition to_Z (a : number) : option Z :=
  match Prim2SF a with
  | S754_zero _ => Some 0
  | S754_finite s m e =>
      let n := if s then Z.neg m else Z.pos m in
      if 0 <=? e then Some (n * 2 ^ e)
      else if Z.pos m mod 2 ^ (- e) =? 0 then Some (n / 2 ^ (- e))
      else None
  | S754_infinity _ | S754_nan => None
  end.

(** The real number a finite number stands for. *)
Definition to_Q (a : number) : option Q :=
  match Prim2SF a with
  | S754_zero _ => Some 0%Q
  | S754_finite s m e =>
      Some ((if s then -1 else 1) * inject_Z (Z.pos m) * 2 ^ e)%Q
  | S754_infinity _ | S754_nan => None
  end.

(** [a + b > d] in exact arithmetic, for finite [a] and [b]. *)
Definition sum_exceeds (a b : number) (d : Z) : Prop :=
  match to_Q a, to_Q b with
  | Some qa, Some qb => (inject_Z d < qa + qb)%Q
  | _, _ => False
  end.

Record CropOption := mkCropOption {
  crop_x : number;
  crop_y : number;
  crop_width : number;
  crop_height : number;
  crop_outputFormat : option string
}.

Section Service.

Variable pf : platform.
Variable sharp : Sharp.
(** [sharp(input).extract({ left, top, width, height }).toFormat(fmt)] on
    the numbers as they are passed; on non-negative integers it is
    [extract sharp]. *)
Variable extract_numbers :
  number -> number -> number -> number -> string -> bytes -> exn + bytes.

(** The part of [cropImage]'s [try] block after the two checks. *)
Definition cropImage_extract (paths : FilePaths) (x y width height : number)
    (outputFormat : string) : M string :=
  await convertToWebP sharp (filePath paths) (originalOutputPath paths) in
  let croppedFilePath :=
    getOutputPath pf OUTPUT_DIR (fileBaseName paths) "cropped"
      outputFormat in
  await ensureDirectoryExists pf (Path.dirname pf croppedFilePath) in
  let* input := SharpIO.input (originalOutputPath paths) in
  let* cropped :=
    SharpIO.run (extract_numbers x y width height outputFormat input) in
  await SharpIO.toFile croppedFilePath cropped in
  ret croppedFilePath.

(** The body of [cropImage]'s [try] block. *)
Definition cropImage_try (paths : FilePaths) (x y width height : number)
    (outputFormat : string) : M string :=
  let* staged := SharpIO.input (filePath paths) in
  let* metadata := SharpIO.run (metadata sharp staged) in
  let imageWidth := md_width metadata in
  let imageHeight := md_height metadata in
  if ((x <? 0) || (y <? 0) || (width <=? 0) || (height <=? 0))%float then
    throw (BadRequestException
             "Invalid crop dimensions (negative values are not allowed).")
  else if ((of_dimension imageWidth <? x + width)
           || (of_dimension imageHeight <? y + height))%float then
    throw (BadRequestException
             ("Crop area exceeds image dimensions. Image dimensions: "
                +:+ show_dimension imageWidth +:+ "x"
                +:+ show_dimension imageHeight +:+ "."))
  else cropImage_extract paths x y width height outputFormat.

Definition cropImage (file : MulterFile) (cropOptions : CropOption)
    : M string :=
  let paths := getFilePaths pf file in
  let x := crop_x cropOptions in
  let y := crop_y cropOptions in
  let width := crop_width cropOptions in
  let height := crop_height cropOptions in
  let outputFormat :=
    default DEFAULT_FORMAT (crop_outputFormat cropOptions) in
  await ensureFileExists (filePath paths) in
  try_catch (cropImage_try paths x y width height outputFormat)
    (fun error =>
       throw (InternalServerErrorException
                ("Error cropping image: " +:+ message error))).

End Service.

(** The small codec's [extract] on numbers: like [sharp], it refuses a
    parameter that is no integer, naming the first such (the codec's own
    message goes on to quote the value received). *)
Definition toy_extract (left top width height : number) (fmt : string)
    (b : bytes) : exn + bytes :=
  match to_Z left, to_Z top, to_Z width, to_Z height with
  | Some l, Some t, Some w, Some h => ToySharp.toy_extract l t w h fmt b
  | None, _, _, _ => inl (Error "Expected integer for left")
  | _, None, _, _ => inl (Error "Expected integer for top")
  | _, _, None, _ => inl (Error "Expected integer for width")
  | _, _, _, None => inl (Error "Expected integer for height")
  end.

End Js.

(** A request with integer coordinates, as the numbers it holds. *)
Definition as_numbers (cropOptions : CropOption) : Js.CropOption :=
  Js.mkCropOption
    (Js.of_Z (crop_x cropOptions)) (Js.of_Z (crop_y cropOptions))
    (Js.of_Z (crop_width cropOptions)) (Js.of_Z (crop_height cropOptions))
    (crop_outputFormat cropOptions).

(** ** Concrete requests and stores *)

Module Example.

Definition token : string := "3f2b8c1e-7a4d-4e9b-8c6f-0d1e2a3b4c5d".

(** The staged name multer gives an upload of [photo.jpg]. *)
Definition photo : MulterFile := mkMulterFile ("photo-" +:+ token +:+ ".jpg").

Definition staged_posix : string := "images/uploads/" +:+ filename photo.
Definition staged_win32 : string := "images\uploads\" +:+ filename photo.

Definition image_dirs : gset string :=
  {[ "images"; "images/uploads"; "images/processed" ]}.

(** A 500x400 JPEG staged on a POSIX host. *)
Definition fs_upload : FS :=
  mkFS {[ staged_posix := ToySharp.image "jpeg" 500 400 ]} image_dirs.

(** The same upload staged on a win32 host. *)
Definition fs_upload_win32 : FS :=
  mkFS {[ staged_win32 := ToySharp.image "jpeg" 500 400 ]}
       {[ "images"; "images\uploads"; "images\processed" ]}.

(** The same upload, staged while a 100x100 canonical [photo.webp] from an
    earlier upload of another [photo.*] is still in the upload directory. *)
Definition fs_stale : FS :=
  mkFS (<[ "images/uploads/photo.webp" := ToySharp.image "webp" 100 100 ]>
          {[ staged_posix := ToySharp.image "jpeg" 500 400 ]})
       image_dirs.

(** A staged file whose probe reports no dimensions. *)
Definition fs_no_dimensions : FS :=
  mkFS {[ staged_posix := ToySharp.image "jpeg" 0 0 ]} image_dirs.

(** Nothing staged. *)
Definition fs_empty : FS := mkFS ∅ image_dirs.

Definition crop_inside : CropOption := mkCropOption 10 20 200 150 None.
Definition crop_negative : CropOption := mkCropOption (-1) 20 200 150 None.
Definition crop_outside : CropOption := mkCropOption 400 20 200 150 None.
Definition crop_huge : CropOption := mkCropOption 0 0 100000 100000 None.

(** A staged file whose probe reports a height and no width. *)
Definition fs_no_width : FS :=
  mkFS {[ staged_posix := ToySharp.image "jpeg" 0 400 ]} image_dirs.

(** Wider than anything, and 100 rows taller than a 400-row image. *)
Definition crop_tall : CropOption := mkCropOption 0 0 100000 500 None.

(** The number [JSON.parse] reads [1e-20] as. *)
Definition tiny : Js.number := 0x1.79ca10c924223p-67%float.

(** [{ x: 1e-20, y: 0, width: 500, height: 400 }] *)
Definition crop_tiny_offset : Js.CropOption :=
  Js.mkCropOption tiny 0%float 500%float 400%float None.

(** [{ x: 'a', y: 20, width: 200, height: 150 }]: [+'a'] is [NaN]. *)
Definition crop_nan : Js.CropOption :=
  Js.mkCropOption nan 20%float 200%float 150%float None.

(** [{ x: 0.5, y: 0, width: 500, height: 100 }] *)
Definition crop_half_pixel : Js.CropOption :=
  Js.mkCropOption 0.5%float 0%float 500%float 100%float None.

End Example.

(** * Properties *)

(** ** Strings *)

#[local] Arguments String.append !_ _ / : simpl nomatch.

Lemma append_nil_r (s : string) : s +:+ "" = s.
Proof. induction s; simpl; congruence. Qed.

Lemma append_assoc (a b c : string) : (a +:+ b) +:+ c = a +:+ (b +:+ c).
Proof. induction a; simpl; congruence. Qed.

Lemma length_append (a b : string) :
  String.length (a +:+ b) = (String.length a + String.length b)%nat.
Proof. induction a; simpl; congruence. Qed.

Lemma forallb_append p (a b : string) :
  Str.forallb p (a +:+ b) = Str.forallb p a && Str.forallb p b.
Proof. induction a; simpl; [reflexivity|]. rewrite IHa. apply andb_assoc. Qed.

Lemma existsb_append p (a b : string) :
  Str.existsb p (a +:+ b) = Str.existsb p a || Str.existsb p b.
Proof. induction a; simpl; [reflexivity|]. rewrite IHa. apply orb_assoc. Qed.

Lemma take_append (a b : string) : Str.take (String.length a) (a +:+ b) = a.
Proof. induction a; simpl; [destruct b; reflexivity | congruence]. Qed.

Lemma forallb_take p n (s : string) :
  Str.forallb p s = true -> Str.forallb p (Str.take n s) = true.
Proof.
  revert n. induction s as [|c s IH]; intros [|n] H; simpl in *; try reflexivity.
  apply andb_true_iff in H as [Hc Hs]. rewrite Hc. simpl. auto.
Qed.

Lemma existsb_forallb_negb p (s : string) :
  Str.existsb p s = negb (Str.forallb (fun c => negb (p c)) s).
Proof.
  induction s as [|c s IH]; simpl; [reflexivity|].
  rewrite IH. destruct (p c); reflexivity.
Qed.

(** ** The token pattern *)

Section TokenPatternFacts.
Import TokenPattern.

Lemma token_length t : token t = true -> String.length t = 36%nat.
Proof.
  unfold token. intros H. apply andb_true_iff in H as [H _].
  now apply Nat.eqb_eq in H.
Qed.

(** The pattern has a fixed width and is anchored at the end: it cannot
    match at the head of a string longer than 37 characters. *)
Lemma matches_here_length s :
  matches_here s = true -> String.length s = 37%nat.
Proof.
  destruct s as [|c t]; simpl; [discriminate|].
  intros H. apply andb_true_iff in H as [_ H].
  apply token_length in H. now rewrite H.
Qed.

Lemma matches_here_token t : token t = true -> matches_here ("-" +:+ t) = true.
Proof. intros H. simpl. exact H. Qed.

Lemma replace_eq s :
  replace s =
  if matches_here s then EmptyString
  else match s with
       | EmptyString => EmptyString
       | String c s' => String c (replace s')
       end.
Proof. destruct s; reflexivity. Qed.

Lemma replace_suffix base t :
  token t = true -> replace (base +:+ "-" +:+ t) = base.
Proof.
  intros Ht. induction base as [|c base IH].
  - rewrite replace_eq. simpl. now rewrite Ht.
  - rewrite replace_eq.
    destruct (matches_here (String c base +:+ "-" +:+ t)) eqn:Hm.
    + apply matches_here_length in Hm.
      rewrite length_append in Hm. simpl in Hm.
      rewrite (token_length t Ht) in Hm. lia.
    + simpl. simpl in IH. now rewrite IH.
Qed.

(** What [replace] returns is always a prefix of its argument: either
    all of it, or all but a trailing [-<token>]. *)
Lemma replace_cases s :
  replace s = s \/ exists t, token t = true /\ s = replace s +:+ "-" +:+ t.
Proof.
  induction s as [|c s IH].
  - left. reflexivity.
  - rewrite replace_eq.
    destruct (matches_here (String c s)) eqn:Hm.
    + right. simpl in Hm. apply andb_true_iff in Hm as [Hc Ht].
      apply Ascii.eqb_eq in Hc. subst c. exists s. split; [exact Ht|reflexivity].
    + destruct IH as [IH | (t & Ht & IH)].
      * left. now rewrite IH.
      * right. exists t. split; [exact Ht|].
        simpl. simpl in IH. now rewrite <- IH.
Qed.

Lemma replace_unchanged s :
  (forall base t, s = base +:+ "-" +:+ t -> token t = false) ->
  replace s = s.
Proof.
  intros Hno. destruct (replace_cases s) as [H | (t & Ht & H)]; [exact H|].
  specialize (Hno _ _ H). congruence.
Qed.

Lemma forallb_replace p s :
  Str.forallb p s = true -> Str.forallb p (replace s) = true.
Proof.
  intros H. destruct (replace_cases s) as [E | (t & _ & E)].
  - now rewrite E.
  - rewrite E in H. rewrite forallb_append in H.
    now apply andb_true_iff in H as [H _].
Qed.

End TokenPatternFacts.

(** ** Paths *)

Section PathFacts.

Variable pf : platform.

Lemma segments_eq c s :
  Path.segments pf (String c s) =
  if Path.is_sep pf c then EmptyString :: Path.segments pf s
  else match Path.segments pf s with
       | seg :: rest => String c seg :: rest
       | [] => [String c EmptyString]
       end.
Proof. reflexivity. Qed.

Lemma segments_forallb p s :
  Str.forallb p s = true ->
  Forall (fun seg => Str.forallb p seg = true) (Path.segments pf s).
Proof.
  induction s as [|c s IH]; intros H.
  - repeat constructor.
  - simpl in H. apply andb_true_iff in H as [Hc Hs]. specialize (IH Hs).
    rewrite segments_eq. destruct (Path.is_sep pf c).
    + constructor; [reflexivity | exact IH].
    + destruct (Path.segments pf s) as [|seg rest].
      * repeat constructor. simpl. now rewrite Hc.
      * inversion IH; subst. constructor; [|assumption].
        simpl. now rewrite Hc.
Qed.

(** No component holds a separator. *)
Lemma segments_sep_free s :
  Forall (fun seg => Str.existsb (Path.is_sep pf) seg = false)
         (Path.segments pf s).
Proof.
  induction s as [|c s IH].
  - repeat constructor.
  - rewrite segments_eq. destruct (Path.is_sep pf c) eqn:Hc.
    + constructor; [reflexivity | exact IH].
    + destruct (Path.segments pf s) as [|seg rest].
      * repeat constructor. simpl. now rewrite Hc.
      * inversion IH; subst. constructor; [|assumption].
        simpl. now rewrite Hc.
Qed.

(** A string without separators is a single component. *)
Lemma segments_plain s :
  Str.existsb (Path.is_sep pf) s = false -> Path.segments pf s = [s].
Proof.
  induction s as [|c s IH]; intros H; [reflexivity|].
  simpl in H. apply orb_false_iff in H as [Hc Hs].
  rewrite segments_eq, Hc, (IH Hs). reflexivity.
Qed.

Lemma last_component_cases segs :
  Path.last_component segs = EmptyString \/ In (Path.last_component segs) segs.
Proof.
  induction segs as [|seg rest IH]; [now left|].
  simpl. destruct (Path.last_component rest) eqn:E.
  - destruct seg; [now left | right; now left].
  - right. right. destruct IH as [IH|IH]; [discriminate | exact IH].
Qed.

Lemma forallb_after_root p s :
  Str.forallb p s = true -> Str.forallb p (Path.after_root pf s) = true.
Proof.
  intros H. unfold Path.after_root. destruct pf; [exact H|].
  destruct s as [|c [|d rest]]; try exact H.
  destruct (Ascii.eqb_spec d ":") as [->|Hd].
  - destruct (Path.is_drive_letter c); [|exact H].
    simpl in H. apply andb_true_iff in H as [_ H].
    now apply andb_true_iff in H as [_ H].
  - destruct d as [[] [] [] [] [] [] [] []]; try exact H.
    now contradiction Hd.
Qed.

Lemma forallb_name_of_base p b :
  Str.forallb p b = true -> Str.forallb p (Path.name_of_base b) = true.
Proof.
  intros H. unfold Path.name_of_base.
  destruct (Str.last_index Path.is_dot b 0) as [[|i]|]; try exact H.
  destruct (String.eqb b ".."); [exact H|]. now apply forallb_take.
Qed.

(** [path.parse(p).name] only holds characters of [p]. *)
Lemma forallb_parse_name p s :
  Str.forallb p s = true -> Str.forallb p (Path.parse_name pf s) = true.
Proof.
  intros H. unfold Path.parse_name, Path.base_component.
  apply forallb_name_of_base.
  destruct (last_component_cases (Path.segments pf (Path.after_root pf s)))
    as [E|Hin]; [now rewrite E|].
  pose proof (segments_forallb p _ (forallb_after_root p s H)) as HF.
  rewrite Forall_forall in HF. now apply HF, list_elem_of_In.
Qed.

(** [path.parse(p).name] never holds a separator. *)
Lemma parse_name_sep_free s :
  Str.existsb (Path.is_sep pf) (Path.parse_name pf s) = false.
Proof.
  unfold Path.parse_name, Path.base_component.
  rewrite existsb_forallb_negb. apply negb_false_iff.
  apply forallb_name_of_base.
  destruct (last_component_cases (Path.segments pf (Path.after_root pf s)))
    as [E|Hin]; [now rewrite E|].
  pose proof (segments_sep_free (Path.after_root pf s)) as HF.
  rewrite Forall_forall in HF.
  specialize (HF _ (proj2 (list_elem_of_In _ _) Hin)).
  rewrite existsb_forallb_negb in HF. now apply negb_false_iff in HF.
Qed.

Lemma segments_nonempty s : Path.segments pf s <> [].
Proof.
  destruct s as [|c s]; [discriminate|]. rewrite segments_eq.
  destruct (Path.is_sep pf c); [discriminate|].
  destruct (Path.segments pf s); discriminate.
Qed.

Lemma segments_append_sep a c b :
  Path.is_sep pf c = true ->
  Path.segments pf (a +:+ String c b) = (Path.segments pf a ++ Path.segments pf b)%list.
Proof.
  intros Hc. induction a as [|d a IH].
  - simpl. now rewrite Hc.
  - simpl append. rewrite !segments_eq, IH.
    destruct (Path.is_sep pf d); [reflexivity|].
    destruct (Path.segments pf a) eqn:E; [now apply segments_nonempty in E|].
    reflexivity.
Qed.

Lemma ends_with_sep_append a b :
  b <> "" -> Path.ends_with_sep pf (a +:+ b) = Path.ends_with_sep pf b.
Proof.
  intros Hb. induction a as [|d a IH]; [reflexivity|].
  simpl append. simpl. rewrite IH.
  destruct (a +:+ b) eqn:E; [|reflexivity].
  destruct a; [simpl in E; congruence | discriminate].
Qed.

Lemma ends_with_sep_plain s :
  Str.existsb (Path.is_sep pf) s = false -> Path.ends_with_sep pf s = false.
Proof.
  induction s as [|c s IH]; intros H; [reflexivity|].
  simpl in H. apply orb_false_iff in H as [Hc Hs].
  simpl. destruct s; [exact Hc | now apply IH].
Qed.

Lemma is_file_name_inv n :
  Path.is_file_name pf n = true ->
  Str.existsb (Path.is_sep pf) n = false /\ n <> "" /\
  String.eqb n "" = false /\ String.eqb n "." = false /\ String.eqb n ".." = false.
Proof.
  unfold Path.is_file_name. intros H.
  repeat (apply andb_true_iff in H as [H ?]).
  repeat match goal with H : negb _ = true |- _ => apply negb_true_iff in H end.
  repeat split; try assumption. intros ->. discriminate.
Qed.

Lemma normalize_relative p body :
  Path.starts_with_sep pf p = false ->
  Path.ends_with_sep pf p = false ->
  Str.join (Path.sep pf)
    (Path.normalize_segments true (Path.segments pf p) []) = body ->
  p <> "" -> body <> "" ->
  Path.normalize pf p = body.
Proof.
  intros Hs He Hb Hp Hne. unfold Path.normalize.
  destruct p; [congruence|]. rewrite Hs, He. simpl negb. rewrite Hb.
  destruct body; [congruence | reflexivity].
Qed.

End PathFacts.

Lemma join_dir pf dir n :
  dir = UPLOAD_DIR \/ dir = OUTPUT_DIR ->
  Path.is_file_name pf n = true ->
  Path.join pf dir n = Path.normalize pf dir +:+ Path.sep pf +:+ n.
Proof.
  intros Hd H. apply is_file_name_inv in H as (Hsep & Hne & E0 & E1 & E2).
  assert (Path.join pf dir n = Path.normalize pf (dir +:+ Path.sep pf +:+ n)) as ->.
  { unfold Path.join. destruct Hd as [-> | ->]; destruct n; try congruence; reflexivity. }
  assert (exists c, Path.sep pf = String c "" /\ Path.is_sep pf c = true)
    as (c & Ec & Hc) by (destruct pf; eexists; split; reflexivity).
  assert (Esep : Path.sep pf +:+ n = String c n) by now rewrite Ec.
  rewrite Esep.
  apply normalize_relative.
  - destruct Hd as [-> | ->]; destruct pf; reflexivity.
  - rewrite ends_with_sep_append by discriminate.
    simpl. rewrite (ends_with_sep_plain pf n Hsep).
    destruct n; [congruence | reflexivity].
  - rewrite (segments_append_sep _ _ _ _ Hc), (segments_plain pf n Hsep).
    destruct Hd as [-> | ->]; destruct pf; simpl in Ec; injection Ec as <-;
      cbn - [String.eqb]; rewrite ?E0, ?E1, ?E2; cbn; reflexivity.
  - destruct Hd as [-> | ->]; discriminate.
  - destruct Hd as [-> | ->]; destruct pf; discriminate.
Qed.

Lemma last_index_none p s i :
  Str.existsb p s = false -> Str.last_index p s i = None.
Proof.
  revert i. induction s as [|c s IH]; intros i H; [reflexivity|].
  simpl in H. apply orb_false_iff in H as [Hc Hs].
  simpl. now rewrite (IH _ Hs), Hc.
Qed.

Lemma last_index_append p a c e i :
  p c = true -> Str.existsb p e = false ->
  Str.last_index p (a +:+ String c e) i = Some (i + String.length a)%nat.
Proof.
  intros Hc He. revert i. induction a as [|d a IH]; intros i.
  - simpl. rewrite (last_index_none p e _ He), Hc. f_equal. lia.
  - simpl. rewrite IH. f_equal. lia.
Qed.

Lemma in_class_not_dot c : TokenPattern.in_class c = true -> Path.is_dot c = false.
Proof. destruct c as [[] [] [] [] [] [] [] []]; vm_compute; congruence. Qed.

Lemma in_class_not_sep pf c :
  TokenPattern.in_class c = true -> Path.is_sep pf c = false.
Proof. destruct pf; destruct c as [[] [] [] [] [] [] [] []]; vm_compute; congruence. Qed.

Lemma existsb_false_of_forallb (p q : ascii -> bool) s :
  (forall c, p c = true -> q c = false) ->
  Str.forallb p s = true -> Str.existsb q s = false.
Proof.
  intros Hpq. induction s as [|c s IH]; intros H; [reflexivity|].
  simpl in H. apply andb_true_iff in H as [Hc Hs].
  simpl. now rewrite (Hpq _ Hc), (IH Hs).
Qed.

Lemma token_class t : TokenPattern.token t = true -> Str.forallb TokenPattern.in_class t = true.
Proof. unfold TokenPattern.token. intros H. now apply andb_true_iff in H as [_ H]. Qed.

Lemma base_component_plain pf s :
  Path.after_root pf s = s ->
  Str.existsb (Path.is_sep pf) s = false ->
  Path.base_component pf s = s.
Proof.
  intros Hr Hs. unfold Path.base_component. rewrite Hr, (segments_plain pf s Hs).
  destruct s; reflexivity.
Qed.

(** The stem of a staged name with a proper extension. *)
Lemma name_of_base_ext stem e :
  (3 <= String.length stem)%nat ->
  Str.existsb Path.is_dot e = false ->
  Path.name_of_base (stem +:+ "." +:+ e) = stem.
Proof.
  intros Hlen He. unfold Path.name_of_base.
  change ("." +:+ e) with (String "." e).
  rewrite (last_index_append Path.is_dot stem "." e 0 eq_refl He).
  simpl Nat.add.
  destruct (String.length stem) as [|k] eqn:Ek; [lia|].
  destruct (String.eqb_spec (stem +:+ String "." e) "..") as [E|_].
  - apply (f_equal String.length) in E. rewrite length_append in E.
    simpl in E. lia.
  - rewrite <- Ek. apply take_append.
Qed.

(** The stem of a staged name without extension. *)
Lemma name_of_base_no_ext b :
  Str.existsb Path.is_dot (match b with String _ t => t | EmptyString => b end) = false ->
  Path.name_of_base b = b.
Proof.
  intros H. unfold Path.name_of_base. destruct b as [|c t]; [reflexivity|].
  simpl. rewrite (last_index_none _ _ _ H). destruct (Path.is_dot c); reflexivity.
Qed.

(** ** The resolver *)

(** C3.  The resolver strips exactly one trailing [-<token>] from the stem
    of a staged name and nothing else.  For a name
    [<fileName>-<uuid><fileExt>] as the controller builds it ([fileName]
    without separator, [fileExt] as [path.extname] returns it, [fileName]
    without a dot after its first character when there is no extension, no
    drive root in front), the base name is [fileName]; whenever the stem
    [path.parse] finds is [<base>-<token>] with a token matching the
    pattern, the base name is [base]; and a stem without a trailing token
    is returned as it is. *)
Theorem getFilePaths_base_name pf :
  (forall fileName uuid fileExt,
      TokenPattern.token uuid = true ->
      Str.existsb (Path.is_sep pf) fileName = false ->
      Path.is_extension pf fileExt = true ->
      (fileExt = "" -> Str.existsb Path.is_dot (Str.tail fileName) = false) ->
      Path.after_root pf (staged_name fileName uuid fileExt)
      = staged_name fileName uuid fileExt ->
      fileBaseName (getFilePaths pf (mkMulterFile (staged_name fileName uuid fileExt)))
      = fileName)
  /\ (forall file base token,
        Path.parse_name pf (filename file) = base +:+ "-" +:+ token ->
        TokenPattern.token token = true ->
        fileBaseName (getFilePaths pf file) = base)
  /\ (forall file,
        (forall base token,
            Path.parse_name pf (filename file) = base +:+ "-" +:+ token ->
            TokenPattern.token token = false) ->
        fileBaseName (getFilePaths pf file) = Path.parse_name pf (filename file)).
Proof.
  split; [|split].
  - intros fileName uuid fileExt Ht Hsep Hext Hdots Hroot.
    unfold getFilePaths, fileBaseName, filename.
    assert (Hstem : Path.parse_name pf (staged_name fileName uuid fileExt)
                    = fileName +:+ "-" +:+ uuid).
    { pose proof (token_class _ Ht) as Hcl.
      pose proof (existsb_false_of_forallb _ _ _ in_class_not_dot Hcl) as Hud.
      pose proof (existsb_false_of_forallb _ _ _ (in_class_not_sep pf) Hcl) as Hus.
      unfold Path.parse_name. destruct fileExt as [|c e].
      - unfold staged_name in *. rewrite append_nil_r in *.
        rewrite base_component_plain; [|exact Hroot|].
        + apply name_of_base_no_ext. specialize (Hdots eq_refl).
          destruct fileName as [|d f]; simpl; [exact Hud|].
          simpl in Hdots. rewrite existsb_append, Hdots. simpl. exact Hud.
        + rewrite !existsb_append, Hsep, Hus. destruct pf; reflexivity.
      - simpl in Hext. apply andb_true_iff in Hext as [Hext He2].
        apply andb_true_iff in Hext as [Hc He1].
        apply negb_true_iff in He1, He2.
        apply Ascii.eqb_eq in Hc. subst c.
        rewrite base_component_plain; [|exact Hroot|].
        + unfold staged_name.
          replace (fileName +:+ "-" +:+ uuid +:+ String "." e)
            with ((fileName +:+ "-" +:+ uuid) +:+ "." +:+ e)
            by (now rewrite !append_assoc).
          apply name_of_base_ext; [|exact He1].
          rewrite length_append. simpl. rewrite (token_length _ Ht). lia.
        + unfold staged_name. rewrite !existsb_append, Hsep, Hus.
          simpl. rewrite He2. destruct pf; reflexivity. }
    rewrite Hstem. now apply replace_suffix.
  - intros file base token E Ht. unfold getFilePaths, fileBaseName.
    rewrite E. now apply replace_suffix.
  - intros file Hno. unfold getFilePaths, fileBaseName.
    now apply replace_unchanged.
Qed.

Lemma getFilePaths_base_name_witness :
  fileBaseName (getFilePaths Posix Example.photo) = "photo"
  /\ fileBaseName
       (getFilePaths Win32 (mkMulterFile ("C:.hidden-" +:+ Example.token)))
     = ".hidden"
  /\ fileBaseName (getFilePaths Posix (mkMulterFile "photo.jpg")) = "photo".
Proof.
  split; [|split].
  - apply (proj1 (getFilePaths_base_name Posix) "photo" Example.token ".jpg");
      reflexivity.
  - apply (proj1 (proj2 (getFilePaths_base_name Win32))
             (mkMulterFile ("C:.hidden-" +:+ Example.token))
             ".hidden" Example.token);
      reflexivity.
  - apply (proj2 (proj2 (getFilePaths_base_name Posix)) (mkMulterFile "photo.jpg")).
    intros base token E. destruct (TokenPattern.token token) eqn:Ht; [|reflexivity].
    apply token_length in Ht. apply (f_equal String.length) in E.
    rewrite length_append in E. simpl in E. lia.
Defined.

(** ** The pipeline, step by step *)

Lemma exists_path_false p fs :
  exists_path p fs = false -> files fs !! p = None /\ is_dir p fs = false.
Proof.
  unfold exists_path, is_file. intros H. apply orb_false_iff in H as [H1 H2].
  split; [|exact H2]. destruct (files fs !! p); [discriminate | reflexivity].
Qed.

Lemma exists_path_file p fs b : files fs !! p = Some b -> exists_path p fs = true.
Proof. unfold exists_path, is_file. now intros ->. Qed.

Lemma ensureFileExists_eq p fs :
  ensureFileExists p fs =
  if exists_path p fs then (inr tt, fs) else (inl (Error "File not found"), fs).
Proof.
  unfold ensureFileExists, try_catch, Fs.access.
  destruct (exists_path p fs); reflexivity.
Qed.

(** [ensureDirectoryExists] never touches a file, never removes a
    directory, and does nothing when the path is already there. *)
Lemma ensureDirectoryExists_spec pf d fs r fs' :
  ensureDirectoryExists pf d fs = (r, fs') ->
  files fs' = files fs /\ dirs fs ⊆ dirs fs'
  /\ (exists_path d fs = true -> r = inr tt /\ fs' = fs).
Proof.
  unfold ensureDirectoryExists, bind, Fs.existsSync, mkdirSync_recursive, ret.
  destruct (exists_path d fs); cbn [negb].
  - intros [= <- <-]. repeat split; set_solver.
  - destruct (String.eqb d ""); [|destruct (is_file d fs);
      [|destruct (List.existsb _ _)]]; intros [= <- <-]; cbn [files dirs];
      repeat split; try discriminate; set_solver.
Qed.

Section Convert.

Variable sharp : Sharp.

(** What [convertToWebP] does, case by case. *)
Lemma convertToWebP_eq filePath originalOutputPath fs :
  convertToWebP sharp filePath originalOutputPath fs =
  match files fs !! filePath with
  | None =>
      (@inl exn unit
         (if is_dir filePath fs
          then Error "EISDIR: illegal operation on a directory, read"
          else Error ("ENOENT: no such file or directory, open '"
                        +:+ filePath +:+ "'")), fs)
  | Some imageBuffer =>
      if exists_path originalOutputPath fs
      then (inr tt, remove_file filePath fs)
      else match webp sharp imageBuffer with
           | inl e => (inl e, fs)
           | inr encoded =>
               (inr tt,
                remove_file filePath
                  (write_file originalOutputPath encoded fs))
           end
  end.
Proof.
  unfold convertToWebP, bind, try_catch, Fs.readFile, Fs.access, Fs.unlink.
  destruct (files fs !! filePath) as [b|] eqn:Hb.
  - destruct (exists_path originalOutputPath fs) eqn:Hex.
    + now rewrite Hb.
    + apply exists_path_false in Hex as [Hnone Hdir].
      unfold SharpIO.run, SharpIO.toFile, throw, ret.
      destruct (webp sharp b) as [e|w]; [reflexivity|].
      rewrite Hdir. simpl.
      destruct (decide (originalOutputPath = filePath)) as [->|Hne];
        [congruence|].
      now rewrite lookup_insert_ne, Hb.
  - destruct (is_dir filePath fs); reflexivity.
Qed.

(** Conversion never touches a directory. *)
Lemma convertToWebP_dirs filePath originalOutputPath fs r fs' :
  convertToWebP sharp filePath originalOutputPath fs = (r, fs') ->
  dirs fs' = dirs fs.
Proof.
  rewrite convertToWebP_eq.
  destruct (files fs !! filePath) as [b|].
  - destruct (exists_path originalOutputPath fs).
    + now intros [= <- <-].
    + destruct (webp sharp b); now intros [= <- <-].
  - now intros [= <- <-].
Qed.

End Convert.

(** ** Conversion to the canonical format *)

(** C2.  [convertToWebP] is idempotent on the canonical artifact.  When
    something already exists at the canonical path nothing is written: the
    store is left as it was or only loses the staged file, so a canonical
    file other than the staged one keeps its content.  When nothing exists
    there, the staged bytes are re-encoded to WebP at that path (or the
    codec's rejection is thrown and the store is untouched).  In both
    branches a successful conversion has deleted the staged file.
    Directories are never touched. *)
Theorem convertToWebP_idempotent sharp filePath originalOutputPath fs r fs' :
  convertToWebP sharp filePath originalOutputPath fs = (r, fs') ->
  (exists_path originalOutputPath fs = true ->
     (fs' = fs \/ fs' = remove_file filePath fs)
     /\ (originalOutputPath <> filePath ->
         files fs' !! originalOutputPath = files fs !! originalOutputPath))
  /\ (exists_path originalOutputPath fs = false ->
      forall imageBuffer, files fs !! filePath = Some imageBuffer ->
        match webp sharp imageBuffer with
        | inr encoded =>
            r = inr tt /\ files fs' !! originalOutputPath = Some encoded
        | inl e => r = inl e /\ fs' = fs
        end)
  /\ (r = inr tt ->
      files fs' !! filePath = None /\ is_Some (files fs !! filePath))
  /\ dirs fs' = dirs fs.
Proof.
  rewrite convertToWebP_eq. intros H.
  destruct (files fs !! filePath) as [b|] eqn:Hb.
  - destruct (exists_path originalOutputPath fs) eqn:Hex.
    + injection H as <- <-.
      split; [intros _; split; [now right|] | split; [discriminate|split]].
      * intros Hne. simpl. now rewrite lookup_delete_ne.
      * intros _. split; [apply lookup_delete_eq | eauto].
      * reflexivity.
    + apply exists_path_false in Hex as [Hnone _].
      assert (originalOutputPath <> filePath) by congruence.
      split; [discriminate|].
      destruct (webp sharp b) as [e|w] eqn:Hw; injection H as <- <-.
      * split; [|split; [discriminate | reflexivity]].
        intros _ b' [= <-]. now rewrite Hw.
      * split; [|split; [|reflexivity]].
        -- intros _ b' [= <-]. rewrite Hw. split; [reflexivity|].
           simpl. rewrite lookup_delete_ne by congruence.
           apply lookup_insert_eq.
        -- intros _. split; [apply lookup_delete_eq | eauto].
  - injection H as <- <-.
    split; [intros _; split; [now left | reflexivity]|].
    split; [intros _ b' [=]|]. split; [discriminate | reflexivity].
Qed.

(** A second upload of [photo.jpg] while the canonical [photo.webp] of an
    earlier one is still there: the canonical file keeps its 100x100
    content and the staged file is gone. *)
Lemma convertToWebP_idempotent_witness :
  let staged := Example.staged_posix in
  let canonical := "images/uploads/photo.webp" in
  let run := convertToWebP ToySharp.toy staged canonical Example.fs_stale in
  files (snd run) !! canonical = Some (ToySharp.image "webp" 100 100)
  /\ files (snd run) !! staged = None.
Proof.
  intros staged canonical run.
  pose proof (convertToWebP_idempotent ToySharp.toy staged canonical
                Example.fs_stale (fst run) (snd run)
                (surjective_pairing run)) as (Hskip & _ & Hdel & _).
  split.
  - destruct (Hskip eq_refl) as [_ Hkeep].
    rewrite Hkeep; [reflexivity | discriminate].
  - apply Hdel. reflexivity.
Defined.

(** ** Where the three paths of a request lie *)

Lemma is_file_name_intro pf n :
  Str.existsb (Path.is_sep pf) n = false ->
  (3 <= String.length n)%nat ->
  Path.is_file_name pf n = true.
Proof.
  intros Hs Hl. unfold Path.is_file_name. rewrite Hs.
  destruct n as [|a [|b [|c n]]]; simpl in Hl; try lia.
  simpl. destruct (Ascii.eqb a "."); [|reflexivity].
  destruct (Ascii.eqb b "."); reflexivity.
Qed.

Lemma fileBaseName_sep_free pf file :
  Str.existsb (Path.is_sep pf) (fileBaseName (getFilePaths pf file)) = false.
Proof.
  unfold getFilePaths, fileBaseName.
  rewrite existsb_forallb_negb. apply negb_false_iff, forallb_replace.
  pose proof (parse_name_sep_free pf (filename file)) as H.
  rewrite existsb_forallb_negb in H. now apply negb_false_iff in H.
Qed.

(** Staged and canonical files lie in the upload directory, outputs in the
    output directory: they can never coincide. *)
Lemma upload_ne_output pf a b :
  Path.normalize pf UPLOAD_DIR +:+ Path.sep pf +:+ a
  <> Path.normalize pf OUTPUT_DIR +:+ Path.sep pf +:+ b.
Proof. destruct pf; discriminate. Qed.

Lemma originalOutputPath_eq pf file :
  originalOutputPath (getFilePaths pf file) =
  Path.normalize pf UPLOAD_DIR +:+ Path.sep pf
    +:+ fileBaseName (getFilePaths pf file) +:+ "." +:+ DEFAULT_FORMAT.
Proof.
  unfold getFilePaths at 1. unfold originalOutputPath.
  fold (fileBaseName (getFilePaths pf file)).
  apply join_dir; [now left|]. apply is_file_name_intro.
  - rewrite existsb_append, fileBaseName_sep_free. destruct pf; reflexivity.
  - rewrite length_append. simpl. lia.
Qed.

Lemma filePath_eq pf file :
  Path.is_file_name pf (filename file) = true ->
  filePath (getFilePaths pf file) =
  Path.normalize pf UPLOAD_DIR +:+ Path.sep pf +:+ filename file.
Proof. intros H. unfold getFilePaths, filePath. apply join_dir; [now left | exact H]. Qed.

Lemma getOutputPath_eq pf base suffix fmt :
  Str.existsb (Path.is_sep pf) base = false ->
  Str.existsb (Path.is_sep pf) suffix = false ->
  Str.existsb (Path.is_sep pf) fmt = false ->
  (1 <= String.length suffix)%nat ->
  getOutputPath pf OUTPUT_DIR base suffix fmt =
  Path.normalize pf OUTPUT_DIR +:+ Path.sep pf
    +:+ base +:+ "-" +:+ suffix +:+ "." +:+ fmt.
Proof.
  intros Hb Hs Hf Hl. unfold getOutputPath. apply join_dir; [now right|].
  apply is_file_name_intro.
  - rewrite !existsb_append, Hb, Hs, Hf. destruct pf; reflexivity.
  - rewrite !length_append. simpl. lia.
Qed.

Lemma lookup_config_cases imageType cfg :
  lookup_config imageType ImageConfig = Some cfg ->
  cfg = mkImageConfigType 184 256 "thumbnail"
  \/ cfg = mkImageConfigType 361 240 "resized".
Proof.
  unfold ImageConfig. cbn [lookup_config].
  destruct (String.eqb ImageType.GAME imageType);
    [intros H; injection H as <-; now left|].
  destruct (String.eqb ImageType.PROMOTION imageType);
    [intros H; injection H as <-; now right|].
  discriminate.
Qed.

(** The registry has an entry exactly for the valid image types. *)
Lemma isValidImageType_lookup imageType :
  isValidImageType imageType = true <->
  is_Some (lookup_config imageType ImageConfig).
Proof.
  unfold isValidImageType, ImageConfig.
  cbn [lookup_config map fst List.existsb].
  rewrite !(String.eqb_sym imageType).
  destruct (String.eqb ImageType.GAME imageType); [simpl; split; eauto|].
  destruct (String.eqb ImageType.PROMOTION imageType); simpl; split; eauto;
    try discriminate; intros [? [=]].
Qed.

(** ** The upload pipeline *)

Section Upload.

Variable pf : platform.
Variable sharp : Sharp.
Variable PORT : option Z.

(** A successful [generateVariations] read [filePath], resized it as the
    registry says and wrote the result to the variant path. *)
Lemma generateVariations_inr base src imageType fs out fs' :
  generateVariations pf sharp base src imageType fs = (inr out, fs') ->
  exists cfg input resized,
    lookup_config imageType ImageConfig = Some cfg
    /\ out = getOutputPath pf OUTPUT_DIR base (cfg_suffix cfg) DEFAULT_FORMAT
    /\ files fs !! src = Some input
    /\ resize sharp (cfg_width cfg) (cfg_height cfg)
         (if String.eqb imageType ImageType.PROMOTION then fill else inside)
         out input = inr resized
    /\ files fs' = <[out := resized]> (files fs)
    /\ dirs fs ⊆ dirs fs'.
Proof.
  unfold generateVariations.
  destruct (lookup_config imageType ImageConfig) as [cfg|]; [|discriminate].
  set (out0 := getOutputPath pf OUTPUT_DIR base (cfg_suffix cfg) DEFAULT_FORMAT).
  unfold bind.
  destruct (ensureDirectoryExists pf (Path.dirname pf out0) fs)
    as [[e|[]] fs1] eqn:Hd; [discriminate|].
  apply ensureDirectoryExists_spec in Hd as (Hf & Hsub & _).
  unfold SharpIO.input. rewrite Hf.
  destruct (files fs !! src) as [input|]; [|discriminate].
  unfold SharpIO.run.
  destruct (resize sharp _ _ _ out0 input) as [e|resized] eqn:Hr;
    [discriminate|].
  unfold ret, SharpIO.toFile.
  destruct (is_dir out0 fs1); [discriminate|].
  intros [= <- <-]. exists cfg, input, resized.
  repeat split; try assumption. simpl. now rewrite Hf.
Qed.

Lemma processImage_eq file imageType fs :
  processImage pf sharp PORT file imageType fs =
  let paths := getFilePaths pf file in
  if exists_path (filePath paths) fs then
    match processImage_try pf sharp PORT paths imageType fs with
    | (inl cause, fs') =>
        (inl (InternalServerErrorException
                ("Error processing image: " +:+ message cause)), fs')
    | (inr result, fs') => (inr result, fs')
    end
  else (inl (Error "File not found"), fs).
Proof.
  unfold processImage. cbv zeta.
  generalize (getFilePaths pf file). intros paths.
  unfold bind. rewrite ensureFileExists_eq.
  destruct (exists_path (filePath paths) fs); [|reflexivity].
  unfold try_catch, throw.
  destruct (processImage_try pf sharp PORT paths imageType fs)
    as [[e|r] fs']; reflexivity.
Qed.

Lemma processImage_try_invalid paths imageType fs :
  isValidImageType imageType = false ->
  processImage_try pf sharp PORT paths imageType fs =
  (inl (BadRequestException ("Invalid image type: " +:+ imageType)), fs).
Proof. intros H. unfold processImage_try, bind. now rewrite H. Qed.

End Upload.

Section UploadOutcome.

Variable pf : platform.
Variable sharp : Sharp.
Variable PORT : option Z.

(** A successful [processImage] went through every step. *)
Lemma processImage_inr file imageType fs result fs' :
  processImage pf sharp PORT file imageType fs = (inr result, fs') ->
  let paths := getFilePaths pf file in
  exists_path (filePath paths) fs = true
  /\ isValidImageType imageType = true
  /\ exists fs1 variation,
      convertToWebP sharp (filePath paths) (originalOutputPath paths) fs
      = (inr tt, fs1)
      /\ generateVariations pf sharp (fileBaseName paths)
           (originalOutputPath paths) imageType fs1 = (inr variation, fs')
      /\ result = mkProcessedImage
                    (server PORT +:+ "/" +:+ originalOutputPath paths)
                    (server PORT +:+ "/" +:+ variation).
Proof.
  rewrite processImage_eq. cbv zeta.
  generalize (getFilePaths pf file). intros paths.
  destruct (exists_path (filePath paths) fs); [|discriminate].
  unfold processImage_try, bind.
  destruct (isValidImageType imageType); [|discriminate].
  cbn [negb]. unfold ret at 1. cbv beta iota.
  intros H. split; [reflexivity|]. split; [reflexivity|].
  destruct (convertToWebP sharp (filePath paths) (originalOutputPath paths)
              fs) as [[e|[]] fs1] eqn:Hc; [discriminate|].
  destruct (generateVariations pf sharp (fileBaseName paths)
              (originalOutputPath paths) imageType fs1)
    as [[e|variation] fs3] eqn:Hg; [discriminate|].
  unfold ret in H. exists fs1, variation.
  split; [reflexivity|].
  assert (E1 : forall (A B : Type) (a a' : A) (b b' : B),
             (a, b) = (a', b') -> a = a' /\ b = b')
    by (intros; split; congruence).
  apply E1 in H as [Hr Hfs]. subst fs3.
  split; [exact Hg | congruence].
Qed.

End UploadOutcome.

(** C6.  With an image type outside the registry, [processImage] fails
    without side effects: the store is returned as it was (staged file
    still there, no canonical or variant file written), and when the staged
    file exists the reported failure is the invalid-type error, in the
    wrapping every failure of the [try] block gets. *)
Theorem processImage_invalid_type pf sharp PORT file imageType fs :
  isValidImageType imageType = false ->
  snd (processImage pf sharp PORT file imageType fs) = fs
  /\ (exists e, fst (processImage pf sharp PORT file imageType fs) = inl e)
  /\ (exists_path (filePath (getFilePaths pf file)) fs = true ->
      processImage pf sharp PORT file imageType fs =
      (inl (InternalServerErrorException
              ("Error processing image: "
                 +:+ message (BadRequestException
                                ("Invalid image type: " +:+ imageType)))),
       fs)).
Proof.
  intros Hinv. rewrite processImage_eq. cbv zeta.
  rewrite (processImage_try_invalid pf sharp PORT _ _ fs Hinv).
  destruct (exists_path _ fs); simpl; repeat split; eauto; discriminate.
Qed.

Lemma processImage_invalid_type_witness :
  processImage Posix ToySharp.toy None Example.photo "banner" Example.fs_upload
  = (inl (InternalServerErrorException
            "Error processing image: Invalid image type: banner"),
     Example.fs_upload).
Proof.
  pose proof (processImage_invalid_type Posix ToySharp.toy None Example.photo
                "banner" Example.fs_upload ltac:(vm_compute; reflexivity))
    as (_ & _ & H).
  exact (H ltac:(vm_compute; reflexivity)).
Defined.

(** C1, on the code: a validation failure is thrown as a
    [BadRequestException] inside the [try] block, whose [catch] turns every
    error into an [InternalServerErrorException].  An unregistered type, a
    negative crop origin and a crop beyond the image all end as server
    errors. *)
Theorem validation_failures_become_server_errors :
  processImage Posix ToySharp.toy None Example.photo "banner" Example.fs_upload
  = (inl (InternalServerErrorException
            "Error processing image: Invalid image type: banner"),
     Example.fs_upload)
  /\ cropImage Posix ToySharp.toy Example.photo Example.crop_negative
       Example.fs_upload
     = (inl (InternalServerErrorException
               ("Error cropping image: "
                  +:+ "Invalid crop dimensions (negative values are not allowed).")),
        Example.fs_upload)
  /\ cropImage Posix ToySharp.toy Example.photo Example.crop_outside
       Example.fs_upload
     = (inl (InternalServerErrorException
               ("Error cropping image: Crop area exceeds image dimensions. "
                  +:+ "Image dimensions: 500x400.")),
        Example.fs_upload)
  /\ (forall msg,
        http_status (InternalServerErrorException msg) = 500
        /\ is_client_error (InternalServerErrorException msg) = false).
Proof.
  split; [|split; [|split]]; try (vm_compute; reflexivity).
  intros msg. split; reflexivity.
Qed.

(** C7 as stated fails at step 1: with nothing staged, [processImage]
    throws the plain ['File not found'] error of [ensureFileExists], raised
    before the [try] block, not a wrapped processing failure. *)
Lemma processImage_missing_file_unwrapped :
  let r := fst (processImage Posix ToySharp.toy None Example.photo "game"
                  Example.fs_empty) in
  r = inl (Error "File not found")
  /\ ~ exists msg, r = inl (InternalServerErrorException msg).
Proof.
  split; [vm_compute; reflexivity|].
  intros [msg H]. vm_compute in H. discriminate H.
Qed.

(** ** Response URLs *)

(** C8 as stated fails on a win32 host: [path.join] answers with
    backslashes, and the URLs embed its result as it is. *)
Lemma processImage_win32_backslash_urls :
  let r := fst (processImage Win32 ToySharp.toy None Example.photo "game"
                  Example.fs_upload_win32) in
  r = inr (mkProcessedImage
             "http://localhost:3000/images\uploads\photo.webp"
             "http://localhost:3000/images\processed\photo-thumbnail.webp")
  /\ Str.existsb Str.is_backslash
       "http://localhost:3000/images\uploads\photo.webp" = true
  /\ Str.existsb Str.is_backslash
       "http://localhost:3000/images\processed\photo-thumbnail.webp" = true.
Proof. repeat split; vm_compute; reflexivity. Qed.

(** C8, amended.  The two URLs of a successful upload are
    [http://localhost:<port>/] followed by the path [path.join] built:
    [images<sep>uploads<sep><base>.webp] and
    [images<sep>processed<sep><base>-<suffix>.webp], where [<sep>] is the
    host's [path.sep] (a forward slash on POSIX), [<suffix>] is the
    registry's for the image type, and [<base>] holds no separator and no
    backslash that the staged name does not hold. *)
Theorem processImage_urls pf sharp PORT file imageType fs result fs' :
  processImage pf sharp PORT file imageType fs = (inr result, fs') ->
  exists cfg,
    let base := fileBaseName (getFilePaths pf file) in
    lookup_config imageType ImageConfig = Some cfg
    /\ original result =
       "http://localhost:" +:+ pretty (default 3000 PORT) +:+ "/"
         +:+ "images" +:+ Path.sep pf +:+ "uploads" +:+ Path.sep pf
         +:+ base +:+ ".webp"
    /\ variation result =
       "http://localhost:" +:+ pretty (default 3000 PORT) +:+ "/"
         +:+ "images" +:+ Path.sep pf +:+ "processed" +:+ Path.sep pf
         +:+ base +:+ "-" +:+ cfg_suffix cfg +:+ ".webp"
    /\ Str.existsb (Path.is_sep pf) base = false
    /\ (Str.existsb Str.is_backslash (filename file) = false ->
        Str.existsb Str.is_backslash base = false)
    /\ Path.sep Posix = "/".
Proof.
  intros H. apply processImage_inr in H as (_ & _ & fs1 & out & _ & Hg & ->).
  apply generateVariations_inr in Hg
    as (cfg & input & resized & Hcfg & -> & _).
  exists cfg. cbv zeta. split; [exact Hcfg|].
  pose proof (fileBaseName_sep_free pf file) as Hbase.
  split; [|split; [|split; [exact Hbase|split; [|reflexivity]]]].
  - cbn [original]. rewrite originalOutputPath_eq. unfold server.
    rewrite !append_assoc. destruct pf; reflexivity.
  - cbn [variation]. rewrite getOutputPath_eq; try exact Hbase.
    + unfold server. rewrite !append_assoc. destruct pf; reflexivity.
    + destruct (lookup_config_cases _ _ Hcfg) as [-> | ->];
        destruct pf; reflexivity.
    + destruct pf; reflexivity.
    + destruct (lookup_config_cases _ _ Hcfg) as [-> | ->]; simpl; lia.
  - intros Hbs. unfold getFilePaths, fileBaseName.
    rewrite existsb_forallb_negb in *. apply negb_false_iff in Hbs.
    apply negb_false_iff, forallb_replace, forallb_parse_name, Hbs.
Qed.

(** The upload of [photo.jpg] as a [game] image on a POSIX host. *)
Lemma processImage_urls_witness :
  exists result,
    fst (processImage Posix ToySharp.toy None Example.photo "game"
           Example.fs_upload) = inr result
    /\ original result =
       "http://localhost:" +:+ pretty (default 3000 None) +:+ "/"
         +:+ "images" +:+ Path.sep Posix +:+ "uploads" +:+ Path.sep Posix
         +:+ fileBaseName (getFilePaths Posix Example.photo) +:+ ".webp".
Proof.
  exists (mkProcessedImage
            "http://localhost:3000/images/uploads/photo.webp"
            "http://localhost:3000/images/processed/photo-thumbnail.webp").
  split; [vm_compute; reflexivity|].
  destruct (processImage_urls Posix ToySharp.toy None Example.photo "game"
              Example.fs_upload
              (mkProcessedImage
                 "http://localhost:3000/images/uploads/photo.webp"
                 "http://localhost:3000/images/processed/photo-thumbnail.webp")
              (snd (processImage Posix ToySharp.toy None Example.photo "game"
                      Example.fs_upload))
              ltac:(vm_compute; reflexivity)) as (cfg & _ & Ho & _).
  exact Ho.
Defined.

(** ** The crop pipeline *)

Section Crop.

Variable pf : platform.
Variable sharp : Sharp.

Lemma cropImage_eq file cropOptions fs :
  cropImage pf sharp file cropOptions fs =
  let paths := getFilePaths pf file in
  if exists_path (filePath paths) fs then
    match cropImage_try pf sharp paths (crop_x cropOptions)
            (crop_y cropOptions) (crop_width cropOptions)
            (crop_height cropOptions)
            (default DEFAULT_FORMAT (crop_outputFormat cropOptions)) fs with
    | (inl cause, fs') =>
        (inl (InternalServerErrorException
                ("Error cropping image: " +:+ message cause)), fs')
    | (inr croppedFilePath, fs') => (inr croppedFilePath, fs')
    end
  else (inl (Error "File not found"), fs).
Proof.
  unfold cropImage. cbv zeta.
  generalize (getFilePaths pf file). intros paths.
  unfold bind. rewrite ensureFileExists_eq.
  destruct (exists_path (filePath paths) fs); [|reflexivity].
  unfold try_catch, throw.
  destruct (cropImage_try pf sharp paths _ _ _ _ _ fs) as [[e|r] fs'];
    reflexivity.
Qed.

(** The two checks, once the staged file has been probed. *)
Lemma cropImage_try_eq paths x y width height outputFormat fs staged md :
  files fs !! filePath paths = Some staged ->
  metadata sharp staged = inr md ->
  cropImage_try pf sharp paths x y width height outputFormat fs =
  if (x <? 0) || (y <? 0) || (width <=? 0) || (height <=? 0) then
    (inl (BadRequestException
            "Invalid crop dimensions (negative values are not allowed)."),
     fs)
  else if exceeds (x + width) (md_width md)
          || exceeds (y + height) (md_height md) then
    (inl (BadRequestException
            ("Crop area exceeds image dimensions. Image dimensions: "
               +:+ show_dimension (md_width md) +:+ "x"
               +:+ show_dimension (md_height md) +:+ ".")), fs)
  else cropImage_extract pf sharp paths x y width height outputFormat fs.
Proof.
  intros Hs Hm. unfold cropImage_try, bind, SharpIO.input.
  rewrite Hs. unfold SharpIO.run at 1. rewrite Hm. unfold ret at 1.
  cbv beta iota.
  destruct ((x <? 0) || (y <? 0) || (width <=? 0) || (height <=? 0));
    [reflexivity|].
  destruct (exceeds (x + width) (md_width md)
            || exceeds (y + height) (md_height md)); reflexivity.
Qed.

End Crop.

(** What follows the two checks of [cropImage], step after step. *)
Lemma cropImage_extract_eq pf sharp paths x y width height outputFormat fs :
  cropImage_extract pf sharp paths x y width height outputFormat fs =
  let output :=
    getOutputPath pf OUTPUT_DIR (fileBaseName paths) "cropped" outputFormat in
  match convertToWebP sharp (filePath paths) (originalOutputPath paths) fs
  with
  | (inl cause, fs1) => (inl cause, fs1)
  | (inr _, fs1) =>
      match ensureDirectoryExists pf (Path.dirname pf output) fs1 with
      | (inl cause, fs2) => (inl cause, fs2)
      | (inr _, fs2) =>
          match files fs2 !! originalOutputPath paths with
          | None =>
              (inl (Error ("Input file is missing: "
                             +:+ originalOutputPath paths)), fs2)
          | Some kept =>
              match extract sharp x y width height outputFormat kept with
              | inl cause => (inl cause, fs2)
              | inr cropped =>
                  if is_dir output fs2
                  then (inl (Error ("EISDIR: illegal operation on a "
                                      +:+ "directory, open '"
                                      +:+ output +:+ "'")), fs2)
                  else (inr output, write_file output cropped fs2)
              end
          end
      end
  end.
Proof.
  cbv zeta. unfold cropImage_extract, bind.
  destruct (convertToWebP sharp (filePath paths) (originalOutputPath paths)
              fs) as [[e|[]] fs1]; [reflexivity|].
  set (out0 := getOutputPath pf OUTPUT_DIR (fileBaseName paths) "cropped"
                 outputFormat).
  destruct (ensureDirectoryExists pf (Path.dirname pf out0) fs1)
    as [[e|[]] fs2]; [reflexivity|].
  unfold SharpIO.input.
  destruct (files fs2 !! originalOutputPath paths) as [kept|];
    [|reflexivity].
  unfold SharpIO.run.
  destruct (extract sharp x y width height outputFormat kept)
    as [e|cropped]; [reflexivity|].
  unfold ret, SharpIO.toFile.
  destruct (is_dir out0 fs2); reflexivity.
Qed.

Lemma invalid_geometry_iff x y width height :
  (x <? 0) || (y <? 0) || (width <=? 0) || (height <=? 0) = true
  <-> (x < 0 \/ y < 0 \/ width <= 0 \/ height <= 0).
Proof.
  rewrite !orb_true_iff, !Z.ltb_lt, !Z.leb_le. tauto.
Qed.

Lemma out_of_bounds_iff x y width height W H :
  exceeds (x + width) (Some W) || exceeds (y + height) (Some H) = true
  <-> (x + width > W \/ y + height > H).
Proof.
  unfold exceeds. rewrite orb_true_iff, !Z.ltb_lt. lia.
Qed.

(** The two checks at integer coordinates.  Against a staged image probed
    as [W]x[H]: a rectangle with a negative origin or a non-positive
    extent fails with the invalid-geometry error; a well-formed rectangle
    reaching beyond [W] or [H] fails with the out-of-bounds error, which
    names the dimensions; both come back in the wrapping every failure of
    the [try] block gets.  In either case the store is exactly as before:
    nothing was converted, deleted or written. *)
Lemma cropImage_rejects_bad_rectangle pf sharp file cropOptions fs staged W H :
  let x := crop_x cropOptions in
  let y := crop_y cropOptions in
  let width := crop_width cropOptions in
  let height := crop_height cropOptions in
  files fs !! filePath (getFilePaths pf file) = Some staged ->
  metadata sharp staged = inr (mkMetadata (Some W) (Some H)) ->
  ((x < 0 \/ y < 0 \/ width <= 0 \/ height <= 0) ->
   cropImage pf sharp file cropOptions fs =
   (inl (InternalServerErrorException
           ("Error cropping image: "
              +:+ message (BadRequestException
                    "Invalid crop dimensions (negative values are not allowed)."))),
    fs))
  /\ (0 <= x -> 0 <= y -> 0 < width -> 0 < height ->
      (x + width > W \/ y + height > H) ->
      cropImage pf sharp file cropOptions fs =
      (inl (InternalServerErrorException
              ("Error cropping image: "
                 +:+ message (BadRequestException
                       ("Crop area exceeds image dimensions. Image dimensions: "
                          +:+ pretty W +:+ "x" +:+ pretty H +:+ ".")))),
       fs))
  /\ ((x < 0 \/ y < 0 \/ width <= 0 \/ height <= 0
       \/ x + width > W \/ y + height > H) ->
      exists msg,
        cropImage pf sharp file cropOptions fs =
        (inl (InternalServerErrorException msg), fs)).
Proof.
  intros x y width height Hs Hm.
  rewrite cropImage_eq. cbv zeta.
  rewrite (exists_path_file _ _ _ Hs).
  rewrite (cropImage_try_eq pf sharp _ _ _ _ _ _ fs staged _ Hs Hm).
  fold x y width height. cbn [md_width md_height show_dimension].
  destruct ((x <? 0) || (y <? 0) || (width <=? 0) || (height <=? 0)) eqn:Hinv.
  - split; [reflexivity|]. split; [|eauto].
    intros. apply invalid_geometry_iff in Hinv. lia.
  - assert (Hok : ~ (x < 0 \/ y < 0 \/ width <= 0 \/ height <= 0)).
    { intros Hc. apply invalid_geometry_iff in Hc. congruence. }
    destruct (exceeds (x + width) (Some W) || exceeds (y + height) (Some H))
      eqn:Hoob.
    + split; [tauto|]. split; [reflexivity | eauto].
    + assert (Hin : ~ (x + width > W \/ y + height > H)).
      { intros Hc. apply out_of_bounds_iff in Hc. congruence. }
      split; [tauto|]. split; [tauto|]. intros Hc. exfalso. tauto.
Qed.

(** ** Validation against the staged file, extraction from the canonical *)

Lemma toy_webp_preserves_dimensions : webp_preserves_dimensions ToySharp.toy.
Proof.
  intros content encoded. simpl. unfold ToySharp.toy_webp, ToySharp.toy_metadata.
  destruct content as [|t [|wh [|wl [|hh [|hl [|]]]]]]; try discriminate.
  now intros [= <-].
Qed.

(** A canonical file already there.  A 500x400 [photo.jpg] is staged
    while a 100x100 [photo.webp] from an earlier upload exists; the rectangle (10, 20, 200, 150) passes both
    checks against 500x400, conversion keeps the existing canonical file,
    and that file, the one extraction reads, is too small: the extraction
    is rejected. *)
Lemma cropImage_stale_canonical_out_of_bounds :
  let paths := getFilePaths Posix Example.photo in
  let fs := Example.fs_stale in
  let fs1 := snd (convertToWebP ToySharp.toy (filePath paths)
                    (originalOutputPath paths) fs) in
  webp_preserves_dimensions ToySharp.toy
  /\ files fs !! filePath paths = Some (ToySharp.image "jpeg" 500 400)
  /\ metadata ToySharp.toy (ToySharp.image "jpeg" 500 400)
     = inr (mkMetadata (Some 500) (Some 400))
  /\ cropImage_try Posix ToySharp.toy paths 10 20 200 150 "webp" fs
     = cropImage_extract Posix ToySharp.toy paths 10 20 200 150 "webp" fs
  /\ convertToWebP ToySharp.toy (filePath paths) (originalOutputPath paths) fs
     = (inr tt, fs1)
  /\ files fs1 !! originalOutputPath paths
     = Some (ToySharp.image "webp" 100 100)
  /\ ~ rectangle_within ToySharp.toy 10 20 200 150
         (ToySharp.image "webp" 100 100)
  /\ cropImage Posix ToySharp.toy Example.photo Example.crop_inside fs
     = (inl (InternalServerErrorException
               "Error cropping image: extract_area: bad extract area"), fs1).
Proof.
  intros paths fs fs1.
  split; [exact toy_webp_preserves_dimensions|].
  repeat (split; [vm_compute; reflexivity|]).
  split; [|vm_compute; reflexivity].
  intros (W & H & Hm & Hw & Hh). vm_compute in Hm.
  injection Hm as <- <-. lia.
Qed.

(** ** The footprint of a successful request *)

Section Footprint.

Variable pf : platform.
Variable sharp : Sharp.

(** Conversion, then one derived file written from the canonical one. *)
Lemma pipeline_touches_only derive staged canonical output fs fs1 fs'
    input derived :
  convertToWebP sharp staged canonical fs = (inr tt, fs1) ->
  files fs1 !! canonical = Some input ->
  derive input = inr derived ->
  files fs' = <[output := derived]> (files fs1) ->
  dirs fs1 ⊆ dirs fs' ->
  output <> staged -> output <> canonical ->
  touches_only sharp derive staged canonical output fs fs'.
Proof.
  intros Hc Hin Hd Hf Hdirs Hos Hoc.
  pose proof (convertToWebP_dirs sharp _ _ _ _ _ Hc) as Hdirs1.
  rewrite convertToWebP_eq in Hc.
  destruct (files fs !! staged) as [uploaded|] eqn:Hs; [|discriminate].
  assert (Hfs1 : files fs1 !! staged = None
                 /\ (forall q, q <> staged -> q <> canonical ->
                               files fs1 !! q = files fs !! q)
                 /\ match files fs !! canonical with
                    | Some previous => input = previous
                    | None => webp sharp uploaded = inr input
                    end).
  { destruct (exists_path canonical fs) eqn:Hex.
    - injection Hc as <-. cbn [files remove_file] in *.
      split; [apply lookup_delete_eq|].
      split; [intros q Hq _; now apply lookup_delete_ne|].
      destruct (decide (canonical = staged)) as [->|Hne].
      + rewrite lookup_delete_eq in Hin. discriminate.
      + rewrite lookup_delete_ne in Hin by congruence. now rewrite Hin.
    - destruct (webp sharp uploaded) as [e|encoded] eqn:Hw; [discriminate|].
      injection Hc as <-. cbn [files remove_file write_file] in *.
      apply exists_path_false in Hex as [Hnone _].
      assert (canonical <> staged) by congruence.
      split; [apply lookup_delete_eq|].
      split.
      + intros q Hq1 Hq2. rewrite lookup_delete_ne by congruence.
        now apply lookup_insert_ne.
      + rewrite Hnone. rewrite lookup_delete_ne, lookup_insert_eq in Hin
          by congruence.
        congruence. }
  destruct Hfs1 as (Hgone & Hframe & Hkept).
  unfold touches_only. rewrite Hf. split; [|split; [|split]].
  - intros q Hq1 Hq2 Hq3. rewrite lookup_insert_ne by congruence. auto.
  - now rewrite lookup_insert_ne.
  - exists uploaded, input, derived. rewrite Hs.
    split; [reflexivity|]. split; [now rewrite lookup_insert_ne|].
    split; [exact Hkept|]. split; [exact Hd | apply lookup_insert_eq].
  - now rewrite <- Hdirs1.
Qed.

Lemma cropImage_extract_inr paths x y width height outputFormat fs out fs' :
  cropImage_extract pf sharp paths x y width height outputFormat fs
  = (inr out, fs') ->
  exists fs1 input cropped,
    convertToWebP sharp (filePath paths) (originalOutputPath paths) fs
    = (inr tt, fs1)
    /\ out = getOutputPath pf OUTPUT_DIR (fileBaseName paths) "cropped"
               outputFormat
    /\ files fs1 !! originalOutputPath paths = Some input
    /\ extract sharp x y width height outputFormat input = inr cropped
    /\ files fs' = <[out := cropped]> (files fs1)
    /\ dirs fs1 ⊆ dirs fs'.
Proof.
  unfold cropImage_extract, bind.
  destruct (convertToWebP sharp (filePath paths) (originalOutputPath paths)
              fs) as [[e|[]] fs1] eqn:Hc; [discriminate|].
  set (out0 := getOutputPath pf OUTPUT_DIR (fileBaseName paths) "cropped"
                 outputFormat).
  destruct (ensureDirectoryExists pf (Path.dirname pf out0) fs1)
    as [[e|[]] fs2] eqn:Hd; [discriminate|].
  apply ensureDirectoryExists_spec in Hd as (Hf & Hsub & _).
  unfold SharpIO.input. rewrite Hf.
  destruct (files fs1 !! originalOutputPath paths) as [input|] eqn:Hin;
    [|discriminate].
  unfold SharpIO.run.
  destruct (extract sharp x y width height outputFormat input)
    as [e|cropped] eqn:He; [discriminate|].
  unfold ret, SharpIO.toFile.
  destruct (is_dir out0 fs2); [discriminate|].
  intros [= <- <-]. exists fs1, input, cropped.
  repeat split; try assumption. unfold write_file. simpl files.
  now rewrite Hf.
Qed.

Lemma cropImage_try_inr paths x y width height outputFormat fs out fs' :
  cropImage_try pf sharp paths x y width height outputFormat fs
  = (inr out, fs') ->
  cropImage_extract pf sharp paths x y width height outputFormat fs
  = (inr out, fs').
Proof.
  unfold cropImage_try, bind, SharpIO.input.
  destruct (files fs !! filePath paths) as [staged|]; [|discriminate].
  unfold SharpIO.run at 1.
  destruct (metadata sharp staged) as [e|md]; [discriminate|].
  unfold ret at 1. cbv beta iota.
  destruct ((x <? 0) || (y <? 0) || (width <=? 0) || (height <=? 0));
    [discriminate|].
  destruct (exceeds (x + width) (md_width md)
            || exceeds (y + height) (md_height md)); [discriminate|].
  trivial.
Qed.

Lemma cropImage_inr file cropOptions fs out fs' :
  cropImage pf sharp file cropOptions fs = (inr out, fs') ->
  cropImage_extract pf sharp (getFilePaths pf file) (crop_x cropOptions)
    (crop_y cropOptions) (crop_width cropOptions) (crop_height cropOptions)
    (default DEFAULT_FORMAT (crop_outputFormat cropOptions)) fs
  = (inr out, fs').
Proof.
  rewrite cropImage_eq. cbv zeta.
  generalize (getFilePaths pf file). intros paths.
  destruct (exists_path (filePath paths) fs); [|discriminate].
  destruct (cropImage_try pf sharp paths _ _ _ _ _ fs) as [[e|r] fs2] eqn:Ht;
    [discriminate|].
  intros H. apply cropImage_try_inr.
  rewrite Ht. exact H.
Qed.

End Footprint.



(** * Further properties *)

(** ** Names and extensions *)

Lemma last_index_some p s i j :
  Str.last_index p s i = Some j ->
  exists a c e,
    s = a +:+ String c e /\ p c = true /\ Str.existsb p e = false
    /\ j = (i + String.length a)%nat.
Proof.
  revert i. induction s as [|d s IH]; intros i H; [discriminate|].
  simpl in H. destruct (Str.last_index p s (S i)) as [k|] eqn:E.
  - injection H as <-. destruct (IH _ E) as (a & c & e & -> & Hc & He & ->).
    exists (String d a), c, e. repeat split; try assumption. simpl. lia.
  - destruct (p d) eqn:Hd; [|discriminate]. injection H as <-.
    exists "", d, s. repeat split; try assumption.
    + clear IH Hd. revert E. generalize (S i).
      induction s as [|x s IHs]; intros n E; [reflexivity|].
      simpl in E. destruct (Str.last_index p s (S n)) eqn:E2; [discriminate|].
      destruct (p x) eqn:Hx; [discriminate|]. simpl. rewrite Hx.
      now apply (IHs (S n)).
    + simpl. lia.
Qed.

Lemma last_index_none_inv p s i :
  Str.last_index p s i = None -> Str.existsb p s = false.
Proof.
  revert i. induction s as [|x s IHs]; intros n E; [reflexivity|].
  simpl in E. destruct (Str.last_index p s (S n)) eqn:E2; [discriminate|].
  destruct (p x) eqn:Hx; [discriminate|]. simpl. rewrite Hx.
  now apply (IHs (S n)).
Qed.

Lemma drop_append (a b : string) : Str.drop (String.length a) (a +:+ b) = b.
Proof. induction a; simpl; [destruct b; reflexivity | assumption]. Qed.

Lemma existsb_tail p s :
  Str.existsb p s = false -> Str.existsb p (Str.tail s) = false.
Proof.
  destruct s as [|c s]; [trivial|]. simpl. intros H.
  now apply orb_false_iff in H as [_ H].
Qed.

(** [path.parse] splits the last component: name, then extension. *)
Lemma name_ext_of_base b :
  Path.name_of_base b +:+ Path.ext_of_base b = b.
Proof.
  unfold Path.name_of_base, Path.ext_of_base.
  destruct (Str.last_index Path.is_dot b 0) as [[|i]|] eqn:E;
    try apply append_nil_r.
  destruct (String.eqb b ".."); [apply append_nil_r|].
  apply last_index_some in E as (a & c & e & -> & _ & _ & Hi).
  simpl in Hi. rewrite Hi. now rewrite take_append, drop_append.
Qed.

Lemma ext_of_base_is_extension pf b :
  Str.existsb (Path.is_sep pf) b = false ->
  Path.is_extension pf (Path.ext_of_base b) = true.
Proof.
  intros Hsep. unfold Path.ext_of_base.
  destruct (Str.last_index Path.is_dot b 0) as [[|i]|] eqn:E; try reflexivity.
  destruct (String.eqb b ".."); [reflexivity|].
  apply last_index_some in E as (a & c & e & -> & Hc & He & Hi).
  simpl in Hi. rewrite Hi, drop_append. simpl. rewrite Hc, He.
  rewrite existsb_append in Hsep. apply orb_false_iff in Hsep as [_ Hsep].
  simpl in Hsep. apply orb_false_iff in Hsep as [_ Hsep]. now rewrite Hsep.
Qed.

Lemma name_of_base_dots b :
  Path.ext_of_base b = "" -> b <> ".." ->
  Str.existsb Path.is_dot (Str.tail (Path.name_of_base b)) = false.
Proof.
  unfold Path.name_of_base, Path.ext_of_base. intros Hext Hb.
  destruct (Str.last_index Path.is_dot b 0) as [[|i]|] eqn:E.
  - apply last_index_some in E as (a & c & e & -> & _ & He & Hi).
    destruct a; [exact He | discriminate].
  - destruct (String.eqb_spec b "..") as [->|_]; [congruence|].
    apply last_index_some in E as (a & c & e & -> & _ & _ & Hi).
    simpl in Hi. rewrite Hi, drop_append in Hext. discriminate.
  - apply existsb_tail. now apply last_index_none_inv in E.
Qed.

Lemma base_component_sep_free pf s :
  Str.existsb (Path.is_sep pf) (Path.base_component pf s) = false.
Proof.
  unfold Path.base_component.
  destruct (last_component_cases (Path.segments pf (Path.after_root pf s)))
    as [E|Hin]; [now rewrite E|].
  pose proof (segments_sep_free pf (Path.after_root pf s)) as HF.
  rewrite Forall_forall in HF.
  exact (HF _ (proj2 (list_elem_of_In _ _) Hin)).
Qed.

(** The stem [path.parse] finds in a staged name. *)
Lemma parse_name_staged_name pf fileName uuid fileExt :
  TokenPattern.token uuid = true ->
  Str.existsb (Path.is_sep pf) fileName = false ->
  Path.is_extension pf fileExt = true ->
  (fileExt = "" -> Str.existsb Path.is_dot (Str.tail fileName) = false) ->
  Path.after_root pf (staged_name fileName uuid fileExt)
  = staged_name fileName uuid fileExt ->
  Path.parse_name pf (staged_name fileName uuid fileExt)
  = fileName +:+ "-" +:+ uuid.
Proof.
  intros Ht Hsep Hext Hdots Hroot.
  pose proof (token_class _ Ht) as Hcl.
  pose proof (existsb_false_of_forallb _ _ _ in_class_not_dot Hcl) as Hud.
  pose proof (existsb_false_of_forallb _ _ _ (in_class_not_sep pf) Hcl) as Hus.
  unfold Path.parse_name. destruct fileExt as [|c e].
  - unfold staged_name in *. rewrite append_nil_r in *.
    rewrite base_component_plain; [|exact Hroot|].
    + apply name_of_base_no_ext. specialize (Hdots eq_refl).
      destruct fileName as [|d f]; simpl; [exact Hud|].
      simpl in Hdots. rewrite existsb_append, Hdots. simpl. exact Hud.
    + rewrite !existsb_append, Hsep, Hus. destruct pf; reflexivity.
  - simpl in Hext. apply andb_true_iff in Hext as [Hext He2].
    apply andb_true_iff in Hext as [Hc He1].
    apply negb_true_iff in He1, He2.
    apply Ascii.eqb_eq in Hc. subst c.
    rewrite base_component_plain; [|exact Hroot|].
    + unfold staged_name.
      replace (fileName +:+ "-" +:+ uuid +:+ String "." e)
        with ((fileName +:+ "-" +:+ uuid) +:+ "." +:+ e)
        by (now rewrite !append_assoc).
      apply name_of_base_ext; [|exact He1].
      rewrite length_append. simpl. rewrite (token_length _ Ht). lia.
    + unfold staged_name. rewrite !existsb_append, Hsep, Hus.
      simpl. rewrite He2. destruct pf; reflexivity.
Qed.

(** ** Staged names, from the controller to the resolver *)

Lemma storage_filename_stem pf originalname uuid :
  TokenPattern.token uuid = true ->
  Path.base_component pf originalname <> ".." ->
  Path.after_root pf (Controller.storage_filename pf originalname uuid)
  = Controller.storage_filename pf originalname uuid ->
  Path.parse_name pf (Controller.storage_filename pf originalname uuid)
  = Path.parse_name pf originalname +:+ "-" +:+ uuid.
Proof.
  intros Ht Hb Hroot. unfold Controller.storage_filename in *.
  apply parse_name_staged_name; try assumption.
  - apply parse_name_sep_free.
  - apply ext_of_base_is_extension, base_component_sep_free.
  - intros Hext. now apply name_of_base_dots.
Qed.

(** X1.  What the controller's [filename] callback builds, the resolver
    undoes: for an upload named [originalname] (its last component not
    [..]) staged under [<name>-<uuid><ext>] with a [uuid] matching the
    token pattern, the base name is [path.parse(originalname).name] and the
    canonical path is [<name>.webp] in the upload directory.  On POSIX
    this holds for every such upload; on win32 it holds provided the
    staged name does not begin with a drive root (as the one built from
    [C:D:x.jpg] does).  Neither base name nor canonical path depends on
    the uuid or on the extension: two such uploads whose original names
    share their stem share the base name, the canonical path and every
    output path. *)
Theorem storage_filename_resolves_to_stem pf originalname uuid :
  let staged := mkMulterFile (Controller.storage_filename pf originalname uuid) in
  TokenPattern.token uuid = true ->
  Path.base_component pf originalname <> ".." ->
  (pf = Win32 -> Path.after_root pf (filename staged) = filename staged) ->
  fileBaseName (getFilePaths pf staged) = Path.parse_name pf originalname
  /\ originalOutputPath (getFilePaths pf staged)
     = Path.join pf UPLOAD_DIR (Path.parse_name pf originalname +:+ ".webp")
  /\ (forall originalname' uuid',
        let staged' :=
          mkMulterFile (Controller.storage_filename pf originalname' uuid') in
        TokenPattern.token uuid' = true ->
        Path.base_component pf originalname' <> ".." ->
        (pf = Win32 ->
         Path.after_root pf (filename staged') = filename staged') ->
        Path.parse_name pf originalname' = Path.parse_name pf originalname ->
        fileBaseName (getFilePaths pf staged')
        = fileBaseName (getFilePaths pf staged)
        /\ originalOutputPath (getFilePaths pf staged')
           = originalOutputPath (getFilePaths pf staged)
        /\ forall suffix format,
             getOutputPath pf OUTPUT_DIR (fileBaseName (getFilePaths pf staged'))
               suffix format
             = getOutputPath pf OUTPUT_DIR
                 (fileBaseName (getFilePaths pf staged)) suffix format).
Proof.
  intros staged Ht Hb Hroot.
  assert (Hbase : forall o u,
             TokenPattern.token u = true ->
             Path.base_component pf o <> ".." ->
             (pf = Win32 ->
              Path.after_root pf (Controller.storage_filename pf o u)
              = Controller.storage_filename pf o u) ->
             fileBaseName
               (getFilePaths pf (mkMulterFile (Controller.storage_filename pf o u)))
             = Path.parse_name pf o).
  { intros o u Hu Ho Hr. unfold getFilePaths, fileBaseName, filename.
    rewrite (storage_filename_stem pf o u Hu Ho).
    - now apply replace_suffix.
    - destruct pf; [reflexivity | now apply Hr]. }
  assert (Hcanon : forall f,
             originalOutputPath (getFilePaths pf f)
             = Path.join pf UPLOAD_DIR
                 (fileBaseName (getFilePaths pf f) +:+ ".webp"))
    by reflexivity.
  split; [now apply Hbase|]. split.
  - rewrite Hcanon. unfold staged. now rewrite Hbase.
  - intros o' u' staged' Hu' Ho' Hr' Hsame.
    assert (E : fileBaseName (getFilePaths pf staged')
                = fileBaseName (getFilePaths pf staged)).
    { unfold staged, staged'. rewrite !Hbase by assumption. exact Hsame. }
    split; [exact E|]. split.
    + now rewrite !Hcanon, E.
    + intros suffix format. now rewrite E.
Qed.

(** [Large Banner.png] and [Large Banner.jpg], staged under two uuids,
    on POSIX; and [Large Banner.png] on win32. *)
Lemma storage_filename_resolves_to_stem_witness :
  fileBaseName
    (getFilePaths Posix
       (mkMulterFile
          (Controller.storage_filename Posix "Large Banner.png" Example.token)))
  = "Large Banner"
  /\ originalOutputPath
       (getFilePaths Posix
          (mkMulterFile
             (Controller.storage_filename Posix "Large Banner.jpg"
                "0a1b2c3d-4e5f-4a6b-9c7d-8e9f0a1b2c3d")))
     = originalOutputPath
         (getFilePaths Posix
            (mkMulterFile
               (Controller.storage_filename Posix "Large Banner.png"
                  Example.token)))
  /\ fileBaseName
       (getFilePaths Win32
          (mkMulterFile
             (Controller.storage_filename Win32 "Large Banner.png"
                Example.token)))
     = "Large Banner".
Proof.
  pose proof (storage_filename_resolves_to_stem Posix "Large Banner.png"
                Example.token ltac:(vm_compute; reflexivity)
                ltac:(vm_compute; congruence) ltac:(discriminate))
    as (Hbase & _ & Hsame).
  split; [exact Hbase|]. split.
  - exact (proj1 (proj2 (Hsame "Large Banner.jpg"
                           "0a1b2c3d-4e5f-4a6b-9c7d-8e9f0a1b2c3d"
                           ltac:(vm_compute; reflexivity)
                           ltac:(vm_compute; congruence)
                           ltac:(discriminate)
                           ltac:(vm_compute; reflexivity)))).
  - exact (proj1 (storage_filename_resolves_to_stem Win32 "Large Banner.png"
                    Example.token ltac:(vm_compute; reflexivity)
                    ltac:(vm_compute; congruence)
                    ltac:(intros _; vm_compute; reflexivity))).
Defined.

(** ** Directories *)

Lemma join_segments pf s :
  Str.existsb (fun c => Path.is_sep pf c
                        && negb (String.eqb (String c "") (Path.sep pf))) s
  = false ->
  Str.join (Path.sep pf) (Path.segments pf s) = s.
Proof.
  induction s as [|c s IH]; intros H; [reflexivity|].
  cbn [Str.existsb] in H. apply orb_false_iff in H as [Hc Hs].
  specialize (IH Hs).
  rewrite segments_eq. destruct (Path.is_sep pf c) eqn:Hsep.
  - cbn [andb] in Hc. apply negb_false_iff, String.eqb_eq in Hc.
    destruct (Path.segments pf s) as [|seg rest] eqn:E;
      [now apply segments_nonempty in E|].
    change (Str.join (Path.sep pf) ("" :: seg :: rest))
      with ("" +:+ Path.sep pf +:+ Str.join (Path.sep pf) (seg :: rest)).
    rewrite IH, <- Hc. reflexivity.
  - destruct (Path.segments pf s) as [|seg rest] eqn:E;
      [now apply segments_nonempty in E|].
    destruct rest as [|seg' rest].
    + simpl in *. now rewrite IH.
    + change (Str.join (Path.sep pf) (String c seg :: seg' :: rest))
        with (String c (Str.join (Path.sep pf) (seg :: seg' :: rest))).
      now rewrite IH.
Qed.

(** [mkdirSync(dirPath, { recursive: true })] ends with [dirPath]
    itself. *)
Lemma mkdir_chain_self pf d :
  d <> "" ->
  Str.existsb (fun c => Path.is_sep pf c
                        && negb (String.eqb (String c "") (Path.sep pf))) d
  = false ->
  d ∈ mkdir_chain pf d.
Proof.
  intros Hd Hnative. unfold mkdir_chain.
  apply list_elem_of_filter. split.
  - apply Is_true_true, negb_true_iff. now apply String.eqb_neq.
  - apply list_elem_of_In, in_map_iff.
    exists (length (Path.segments pf d)). split.
    + rewrite firstn_all. apply join_segments, Hnative.
    + apply in_seq.
      pose proof (segments_nonempty pf d) as Hne.
      destruct (Path.segments pf d); [congruence | simpl; lia].
Qed.



(** ** Failures *)

Section Failures.

Variable pf : platform.
Variable sharp : Sharp.

(** Conversion only ever changes the staged and the canonical path. *)
Lemma convertToWebP_frame filePath originalOutputPath fs r fs' :
  convertToWebP sharp filePath originalOutputPath fs = (r, fs') ->
  forall q, q <> filePath -> q <> originalOutputPath ->
            files fs' !! q = files fs !! q.
Proof.
  rewrite convertToWebP_eq. intros H q Hq1 Hq2.
  destruct (files fs !! filePath) as [b|];
    [|now injection H as <- <-].
  destruct (exists_path originalOutputPath fs).
  - injection H as <- <-. cbn [files remove_file].
    now rewrite lookup_delete_ne.
  - destruct (webp sharp b); injection H as <- <-; [reflexivity|].
    cbn [files remove_file write_file].
    rewrite lookup_delete_ne by congruence. now rewrite lookup_insert_ne.
Qed.

Lemma convertToWebP_inl filePath originalOutputPath fs e fs' :
  convertToWebP sharp filePath originalOutputPath fs = (inl e, fs') ->
  fs' = fs.
Proof.
  rewrite convertToWebP_eq.
  destruct (files fs !! filePath) as [b|]; [|now intros [= <- <-]].
  destruct (exists_path originalOutputPath fs); [discriminate|].
  destruct (webp sharp b); [now intros [= <- <-] | discriminate].
Qed.

(** A failed [generateVariations] has written no file. *)
Lemma generateVariations_inl base src imageType fs e fs' :
  generateVariations pf sharp base src imageType fs = (inl e, fs') ->
  files fs' = files fs.
Proof.
  unfold generateVariations.
  destruct (lookup_config imageType ImageConfig) as [cfg|];
    [|now intros [= <- <-]].
  set (out0 := getOutputPath pf OUTPUT_DIR base (cfg_suffix cfg) DEFAULT_FORMAT).
  unfold bind.
  destruct (ensureDirectoryExists pf (Path.dirname pf out0) fs)
    as [[e0|[]] fs1] eqn:Hd.
  - apply ensureDirectoryExists_spec in Hd as (Hf & _). now intros [= <- <-].
  - apply ensureDirectoryExists_spec in Hd as (Hf & _).
    unfold SharpIO.input.
    destruct (files fs1 !! src) as [input|]; [|now intros [= <- <-]].
    unfold SharpIO.run.
    destruct (resize sharp _ _ _ out0 input) as [e1|resized];
      [now intros [= <- <-]|].
    unfold ret, SharpIO.toFile.
    destruct (is_dir out0 fs1); [now intros [= <- <-] | discriminate].
Qed.

Lemma cropImage_extract_inl paths x y width height outputFormat fs e fs' :
  cropImage_extract pf sharp paths x y width height outputFormat fs
  = (inl e, fs') ->
  files fs' = files fs
  \/ exists fs1,
       convertToWebP sharp (filePath paths) (originalOutputPath paths) fs
       = (inr tt, fs1)
       /\ files fs' = files fs1.
Proof.
  unfold cropImage_extract, bind.
  destruct (convertToWebP sharp (filePath paths) (originalOutputPath paths)
              fs) as [[e0|[]] fs1] eqn:Hc.
  - intros [= <- <-]. left. now rewrite (convertToWebP_inl _ _ _ _ _ Hc).
  - set (out0 := getOutputPath pf OUTPUT_DIR (fileBaseName paths) "cropped"
                   outputFormat).
    intros H. right. exists fs1. split; [reflexivity|]. revert H.
    destruct (ensureDirectoryExists pf (Path.dirname pf out0) fs1)
      as [[e0|[]] fs2] eqn:Hd;
      apply ensureDirectoryExists_spec in Hd as (Hf & _);
      [now intros [= <- <-]|].
    unfold SharpIO.input.
    destruct (files fs2 !! originalOutputPath paths) as [input|];
      [|now intros [= <- <-]].
    unfold SharpIO.run.
    destruct (extract sharp x y width height outputFormat input)
      as [e1|cropped]; [now intros [= <- <-]|].
    unfold ret, SharpIO.toFile.
    destruct (is_dir out0 fs2); [now intros [= <- <-] | discriminate].
Qed.

Lemma cropImage_try_inl paths x y width height outputFormat fs e fs' :
  cropImage_try pf sharp paths x y width height outputFormat fs
  = (inl e, fs') ->
  fs' = fs
  \/ cropImage_extract pf sharp paths x y width height outputFormat fs
     = (inl e, fs').
Proof.
  unfold cropImage_try, bind, SharpIO.input.
  destruct (files fs !! filePath paths) as [staged|];
    [|intros [= <- <-]; now left].
  unfold SharpIO.run at 1.
  destruct (metadata sharp staged) as [e0|md]; [intros [= <- <-]; now left|].
  unfold ret at 1. cbv beta iota.
  destruct ((x <? 0) || (y <? 0) || (width <=? 0) || (height <=? 0));
    [intros [= <- <-]; now left|].
  destruct (exceeds (x + width) (md_width md)
            || exceeds (y + height) (md_height md));
    [intros [= <- <-]; now left|].
  now right.
Qed.

End Failures.

(** X3.  [convertToWebP] fails only when the staged file cannot be read,
    or when nothing exists at the canonical path and the codec rejects the
    staged bytes (its error is passed on as it is); a failed conversion
    leaves the whole store as it was, the staged file included.  Whatever
    the outcome, only the staged and the canonical path can change. *)
Theorem convertToWebP_all_or_nothing sharp filePath originalOutputPath fs r fs' :
  convertToWebP sharp filePath originalOutputPath fs = (r, fs') ->
  (forall e, r = inl e ->
     fs' = fs
     /\ (files fs !! filePath = None
         \/ (exists_path originalOutputPath fs = false
             /\ exists imageBuffer,
                  files fs !! filePath = Some imageBuffer
                  /\ webp sharp imageBuffer = inl e)))
  /\ (forall q, q <> filePath -> q <> originalOutputPath ->
                files fs' !! q = files fs !! q).
Proof.
  intros H. split; [|exact (convertToWebP_frame sharp _ _ _ _ _ H)].
  intros e ->. split; [exact (convertToWebP_inl sharp _ _ _ _ _ H)|].
  rewrite convertToWebP_eq in H.
  destruct (files fs !! filePath) as [b|]; [|now left].
  destruct (exists_path originalOutputPath fs); [discriminate|].
  destruct (webp sharp b) as [e0|w] eqn:Hw; [|discriminate].
  injection H as <- _. right. eauto.
Qed.

(** A staged file the codec cannot decode: nothing changes. *)
Lemma convertToWebP_all_or_nothing_witness :
  let fs := mkFS {[ Example.staged_posix := [Byte.x00] ]} Example.image_dirs in
  snd (convertToWebP ToySharp.toy Example.staged_posix
         "images/uploads/photo.webp" fs) = fs.
Proof.
  intros fs.
  pose proof (convertToWebP_all_or_nothing ToySharp.toy Example.staged_posix
                "images/uploads/photo.webp" fs
                (inl ToySharp.unsupported)
                (snd (convertToWebP ToySharp.toy Example.staged_posix
                        "images/uploads/photo.webp" fs))
                ltac:(vm_compute; reflexivity)) as [H _].
  exact (proj1 (H ToySharp.unsupported eq_refl)).
Defined.

(** X4.  A request that fails has written no output: after a failed
    [processImage] or [cropImage] the files are either all as before, or
    as the successful conversion left them (staged file deleted, canonical
    file in place); in both cases every file other than the staged and the
    canonical one is untouched, so no variant or cropped file was created
    or replaced. *)
Theorem failed_request_writes_no_output pf sharp PORT file :
  let paths := getFilePaths pf file in
  (forall imageType fs e fs',
      processImage pf sharp PORT file imageType fs = (inl e, fs') ->
      (files fs' = files fs
       \/ exists fs1,
            convertToWebP sharp (filePath paths) (originalOutputPath paths) fs
            = (inr tt, fs1)
            /\ files fs' = files fs1)
      /\ (forall q, q <> filePath paths -> q <> originalOutputPath paths ->
                    files fs' !! q = files fs !! q))
  /\ (forall cropOptions fs e fs',
        cropImage pf sharp file cropOptions fs = (inl e, fs') ->
        (files fs' = files fs
         \/ exists fs1,
              convertToWebP sharp (filePath paths) (originalOutputPath paths)
                fs = (inr tt, fs1)
              /\ files fs' = files fs1)
        /\ (forall q, q <> filePath paths -> q <> originalOutputPath paths ->
                      files fs' !! q = files fs !! q)).
Proof.
  intros paths.
  assert (Hframe : forall fs fs',
             (files fs' = files fs
              \/ exists fs1,
                   convertToWebP sharp (filePath paths)
                     (originalOutputPath paths) fs = (inr tt, fs1)
                   /\ files fs' = files fs1) ->
             forall q, q <> filePath paths -> q <> originalOutputPath paths ->
                       files fs' !! q = files fs !! q).
  { intros fs fs' [-> | (fs1 & Hc & ->)] q Hq1 Hq2; [reflexivity|].
    exact (convertToWebP_frame sharp _ _ _ _ _ Hc q Hq1 Hq2). }
  split.
  - intros imageType fs e fs' H.
    assert (Hcases : files fs' = files fs
                     \/ exists fs1,
                          convertToWebP sharp (filePath paths)
                            (originalOutputPath paths) fs = (inr tt, fs1)
                          /\ files fs' = files fs1);
      [|split; [exact Hcases | exact (Hframe _ _ Hcases)]].
    rewrite processImage_eq in H. cbv zeta in H. fold paths in H.
    clearbody paths.
    destruct (exists_path (filePath paths) fs);
      [|injection H as _ <-; now left].
    unfold processImage_try, bind in H.
    destruct (isValidImageType imageType);
      [|cbn [negb] in H; unfold throw in H; injection H as _ <-; now left].
    cbn [negb] in H. unfold ret at 1 in H. cbv beta iota in H.
    destruct (convertToWebP sharp (filePath paths) (originalOutputPath paths)
                fs) as [[e0|[]] fs1] eqn:Hc.
    + injection H as _ <-. left.
      now rewrite (convertToWebP_inl sharp _ _ _ _ _ Hc).
    + destruct (generateVariations pf sharp (fileBaseName paths)
                  (originalOutputPath paths) imageType fs1)
        as [[e1|out] fs2] eqn:Hg; [|discriminate].
      injection H as _ <-. right. exists fs1. split; [reflexivity|].
      exact (generateVariations_inl pf sharp _ _ _ _ _ _ Hg).
  - intros cropOptions fs e fs' H.
    assert (Hcases : files fs' = files fs
                     \/ exists fs1,
                          convertToWebP sharp (filePath paths)
                            (originalOutputPath paths) fs = (inr tt, fs1)
                          /\ files fs' = files fs1);
      [|split; [exact Hcases | exact (Hframe _ _ Hcases)]].
    rewrite cropImage_eq in H. cbv zeta in H. fold paths in H.
    clearbody paths.
    destruct (exists_path (filePath paths) fs);
      [|injection H as _ <-; now left].
    destruct (cropImage_try pf sharp paths _ _ _ _ _ fs)
      as [[e0|out] fs2] eqn:Ht; [|discriminate].
    injection H as _ <-.
    apply cropImage_try_inl in Ht as [-> | Hx]; [now left|].
    exact (cropImage_extract_inl pf sharp _ _ _ _ _ _ _ _ _ Hx).
Qed.

(** An upload whose resize is rejected after the conversion went through:
    there is no variant file afterwards. *)
Lemma failed_request_writes_no_output_witness :
  let run := processImage Posix ToySharp.toy None Example.photo "game"
               Example.fs_no_dimensions in
  files (snd run) !! "images/processed/photo-thumbnail.webp" = None.
Proof.
  intros run.
  pose proof (failed_request_writes_no_output Posix ToySharp.toy None
                Example.photo) as [Hup _].
  destruct (Hup "game" Example.fs_no_dimensions
              (InternalServerErrorException
                 ("Error processing image: "
                    +:+ "Input buffer contains unsupported image format"))
              (snd run) ltac:(vm_compute; reflexivity)) as [_ Hframe].
  rewrite (Hframe "images/processed/photo-thumbnail.webp")
    by (vm_compute; congruence).
  vm_compute. reflexivity.
Defined.

(** ** Cropping *)

(** X6.  [cropImage] never succeeds on a rectangle it should have
    refused: whenever it returns a path, the staged file was probed, the
    rectangle has a non-negative origin and a positive extent, and it does
    not reach beyond any dimension the probe reported. *)
Theorem cropImage_success_was_validated pf sharp file cropOptions fs
    croppedFilePath fs' :
  cropImage pf sharp file cropOptions fs = (inr croppedFilePath, fs') ->
  exists staged md,
    files fs !! filePath (getFilePaths pf file) = Some staged
    /\ metadata sharp staged = inr md
    /\ 0 <= crop_x cropOptions /\ 0 <= crop_y cropOptions
    /\ 0 < crop_width cropOptions /\ 0 < crop_height cropOptions
    /\ (forall W, md_width md = Some W ->
                  crop_x cropOptions + crop_width cropOptions <= W)
    /\ (forall H, md_height md = Some H ->
                  crop_y cropOptions + crop_height cropOptions <= H).
Proof.
  rewrite cropImage_eq. cbv zeta.
  generalize (getFilePaths pf file). intros paths.
  destruct (exists_path (filePath paths) fs); [|discriminate].
  destruct (cropImage_try pf sharp paths _ _ _ _ _ fs)
    as [[e|out] fs2] eqn:Ht; [discriminate|].
  intros _. revert Ht.
  unfold cropImage_try, bind, SharpIO.input.
  destruct (files fs !! filePath paths) as [staged|]; [|discriminate].
  unfold SharpIO.run at 1.
  destruct (metadata sharp staged) as [e|md] eqn:Hm; [discriminate|].
  unfold ret at 1. cbv beta iota.
  destruct ((crop_x cropOptions <? 0) || (crop_y cropOptions <? 0)
            || (crop_width cropOptions <=? 0)
            || (crop_height cropOptions <=? 0)) eqn:Hinv; [discriminate|].
  destruct (exceeds (crop_x cropOptions + crop_width cropOptions)
              (md_width md)
            || exceeds (crop_y cropOptions + crop_height cropOptions)
                 (md_height md)) eqn:Hoob; [discriminate|].
  intros _. exists staged, md.
  apply orb_false_iff in Hoob as [HW HH].
  repeat (apply orb_false_iff in Hinv as [Hinv ?]).
  repeat match goal with
         | H : (_ <? _) = false |- _ => apply Z.ltb_ge in H
         | H : (_ <=? _) = false |- _ => apply Z.leb_gt in H
         end.
  split; [reflexivity|]. split; [exact Hm|].
  split; [lia|]. split; [lia|]. split; [lia|]. split; [lia|]. split.
  - intros W E. rewrite E in HW. simpl in HW. apply Z.ltb_ge in HW. lia.
  - intros Hh E. rewrite E in HH. simpl in HH. apply Z.ltb_ge in HH. lia.
Qed.

(** The 200x150 crop at (10, 20) of the 500x400 upload. *)
Lemma cropImage_success_was_validated_witness :
  exists staged md,
    files Example.fs_upload !! filePath (getFilePaths Posix Example.photo)
    = Some staged
    /\ metadata ToySharp.toy staged = inr md
    /\ (forall W, md_width md = Some W -> 10 + 200 <= W).
Proof.
  destruct (cropImage_success_was_validated Posix ToySharp.toy Example.photo
              Example.crop_inside Example.fs_upload
              "images/processed/photo-cropped.webp"
              (snd (cropImage Posix ToySharp.toy Example.photo
                      Example.crop_inside Example.fs_upload))
              ltac:(vm_compute; reflexivity))
    as (staged & md & Hs & Hm & _ & _ & _ & _ & HW & _).
  exists staged, md. repeat split; assumption.
Defined.

(** ** The upload handler *)

(** Every failure of [processImage] is a server error. *)
Lemma processImage_inl_status pf sharp PORT file imageType fs e fs' :
  processImage pf sharp PORT file imageType fs = (inl e, fs') ->
  is_client_error e = false.
Proof.
  rewrite processImage_eq. cbv zeta.
  generalize (getFilePaths pf file). intros paths.
  destruct (exists_path (filePath paths) fs); [|now intros [= <- _]].
  destruct (processImage_try pf sharp PORT paths imageType fs)
    as [[e0|r] fs2]; [now intros [= <- _] | discriminate].
Qed.

(** X7.  The [uploadImage] handler answers with a client error exactly
    when the file is missing or the image type is missing or empty: then
    it throws ['File and image type are required'] and the store is
    untouched.  With both present it is [processImage] on them, and every
    failure of that, an unregistered image type included, is a server
    error. *)
Theorem uploadImage_client_errors pf sharp PORT file imageType fs r fs' :
  Controller.uploadImage pf sharp PORT file imageType fs = (r, fs') ->
  (file = None \/ Controller.is_falsy imageType = true ->
   r = inl (BadRequestException "File and image type are required")
   /\ fs' = fs)
  /\ (forall f t, file = Some f -> imageType = Some t -> t <> "" ->
        processImage pf sharp PORT f t fs = (r, fs'))
  /\ (forall e, r = inl e ->
        (is_client_error e = true
         <-> (file = None \/ Controller.is_falsy imageType = true))).
Proof.
  unfold Controller.uploadImage.
  destruct file as [f|]; [destruct imageType as [t|]|].
  - cbn [Controller.is_falsy]. destruct (String.eqb_spec t "") as [->|Hne].
    + intros [= <- <-]. split; [auto|]. split; [congruence|].
      intros e [= <-]. split; [auto | reflexivity].
    + intros H. split; [|split].
      * intros [[=]|[=]].
      * now intros f' t' [= <-] [= <-] _.
      * intros e ->. rewrite (processImage_inl_status _ _ _ _ _ _ _ _ H).
        split; [discriminate | intros [[=]|[=]]].
  - intros [= <- <-]. split; [auto|]. split; [discriminate|].
    intros e [= <-]. split; [auto | reflexivity].
  - intros [= <- <-]. split; [auto|]. split; [discriminate|].
    intros e [= <-]. split; [auto | reflexivity].
Qed.

(** No image type, and an unregistered one. *)
Lemma uploadImage_client_errors_witness :
  Controller.uploadImage Posix ToySharp.toy None (Some Example.photo)
    (Some "") Example.fs_upload
  = (inl (BadRequestException "File and image type are required"),
     Example.fs_upload)
  /\ (is_client_error
        (InternalServerErrorException
           "Error processing image: Invalid image type: banner") = true
      <-> (Some Example.photo = None
           \/ Controller.is_falsy (Some "banner") = true)).
Proof.
  split.
  - pose proof (uploadImage_client_errors Posix ToySharp.toy None
                  (Some Example.photo) (Some "") Example.fs_upload
                  (fst (Controller.uploadImage Posix ToySharp.toy None
                          (Some Example.photo) (Some "") Example.fs_upload))
                  (snd (Controller.uploadImage Posix ToySharp.toy None
                          (Some Example.photo) (Some "") Example.fs_upload))
                  ltac:(vm_compute; reflexivity)) as [H _].
    destruct (H (or_intror eq_refl)) as [Hr Hfs].
    rewrite (surjective_pairing (Controller.uploadImage _ _ _ _ _ _)).
    now rewrite Hr, Hfs.
  - pose proof (uploadImage_client_errors Posix ToySharp.toy None
                  (Some Example.photo) (Some "banner") Example.fs_upload
                  (inl (InternalServerErrorException
                          "Error processing image: Invalid image type: banner"))
                  Example.fs_upload
                  ltac:(vm_compute; reflexivity)) as (_ & _ & H).
    exact (H _ eq_refl).
Defined.

(** ** The canonical file over time *)

Section Outcomes.

Variable pf : platform.
Variable sharp : Sharp.
Variable PORT : option Z.

Lemma processImage_inl_files file imageType fs e fs' :
  processImage pf sharp PORT file imageType fs = (inl e, fs') ->
  let paths := getFilePaths pf file in
  files fs' = files fs
  \/ exists fs1,
       convertToWebP sharp (filePath paths) (originalOutputPath paths) fs
       = (inr tt, fs1)
       /\ files fs' = files fs1.
Proof.
  rewrite processImage_eq. cbv zeta.
  generalize (getFilePaths pf file). intros paths H.
  destruct (exists_path (filePath paths) fs);
    [|injection H as _ <-; now left].
  unfold processImage_try, bind in H.
  destruct (isValidImageType imageType);
    [|cbn [negb] in H; unfold throw in H; injection H as _ <-; now left].
  cbn [negb] in H. unfold ret at 1 in H. cbv beta iota in H.
  destruct (convertToWebP sharp (filePath paths) (originalOutputPath paths)
              fs) as [[e0|[]] fs1] eqn:Hc.
  - injection H as _ <-. left.
    now rewrite (convertToWebP_inl sharp _ _ _ _ _ Hc).
  - destruct (generateVariations pf sharp (fileBaseName paths)
                (originalOutputPath paths) imageType fs1)
      as [[e1|out] fs2] eqn:Hg; [|discriminate].
    injection H as _ <-. right. exists fs1. split; [reflexivity|].
    exact (generateVariations_inl pf sharp _ _ _ _ _ _ Hg).
Qed.

Lemma cropImage_inl_files file cropOptions fs e fs' :
  cropImage pf sharp file cropOptions fs = (inl e, fs') ->
  let paths := getFilePaths pf file in
  files fs' = files fs
  \/ exists fs1,
       convertToWebP sharp (filePath paths) (originalOutputPath paths) fs
       = (inr tt, fs1)
       /\ files fs' = files fs1.
Proof.
  rewrite cropImage_eq. cbv zeta.
  generalize (getFilePaths pf file). intros paths H.
  destruct (exists_path (filePath paths) fs);
    [|injection H as _ <-; now left].
  destruct (cropImage_try pf sharp paths _ _ _ _ _ fs)
    as [[e0|out] fs2] eqn:Ht; [|discriminate].
  injection H as _ <-.
  apply cropImage_try_inl in Ht as [-> | Hx]; [now left|].
  exact (cropImage_extract_inl pf sharp _ _ _ _ _ _ _ _ _ Hx).
Qed.

(** A canonical file other than the staged one outlives conversion. *)
Lemma convertToWebP_keeps filePath originalOutputPath fs r fs' c :
  convertToWebP sharp filePath originalOutputPath fs = (r, fs') ->
  files fs !! originalOutputPath = Some c ->
  filePath <> originalOutputPath ->
  files fs' !! originalOutputPath = Some c.
Proof.
  rewrite convertToWebP_eq. intros H Hc Hne.
  rewrite (exists_path_file _ _ _ Hc) in H.
  destruct (files fs !! filePath); injection H as _ <-; [|exact Hc].
  cbn [files remove_file]. now rewrite lookup_delete_ne.
Qed.

End Outcomes.

Lemma storage_filename_is_file_name pf originalname uuid :
  TokenPattern.token uuid = true ->
  Path.is_file_name pf (Controller.storage_filename pf originalname uuid)
  = true.
Proof.
  intros Ht. unfold Controller.storage_filename, staged_name.
  pose proof (token_class _ Ht) as Hcl.
  pose proof (existsb_false_of_forallb _ _ _ (in_class_not_sep pf) Hcl) as Hus.
  pose proof (ext_of_base_is_extension pf _
                (base_component_sep_free pf originalname)) as Hext.
  apply is_file_name_intro.
  - rewrite !existsb_append, parse_name_sep_free, Hus.
    unfold Path.extname.
    destruct (Path.ext_of_base (Path.base_component pf originalname))
      as [|c e]; [destruct pf; reflexivity|].
    simpl in Hext. apply andb_true_iff in Hext as [Hext He].
    apply andb_true_iff in Hext as [Hc _]. apply negb_true_iff in He.
    apply Ascii.eqb_eq in Hc. subst c. simpl. rewrite He.
    destruct pf; reflexivity.
  - rewrite !length_append. rewrite (token_length _ Ht). simpl. lia.
Qed.

(** The staged file of an upload is never its canonical file. *)
Lemma storage_filename_not_canonical pf originalname uuid :
  TokenPattern.token uuid = true ->
  Path.base_component pf originalname <> ".." ->
  Path.after_root pf (Controller.storage_filename pf originalname uuid)
  = Controller.storage_filename pf originalname uuid ->
  let paths :=
    getFilePaths pf
      (mkMulterFile (Controller.storage_filename pf originalname uuid)) in
  filePath paths <> originalOutputPath paths.
Proof.
  intros Ht Hb Hroot paths. unfold paths.
  rewrite filePath_eq by (now apply storage_filename_is_file_name).
  rewrite originalOutputPath_eq.
  assert (Hbase : fileBaseName
                    (getFilePaths pf
                       (mkMulterFile
                          (Controller.storage_filename pf originalname uuid)))
                  = Path.parse_name pf originalname).
  { unfold getFilePaths, fileBaseName, filename.
    rewrite (storage_filename_stem pf _ _ Ht Hb Hroot).
    now apply replace_suffix. }
  rewrite Hbase. cbn [filename].
  unfold Controller.storage_filename, staged_name, DEFAULT_FORMAT.
  intros E.
  apply String.app_inj in E. apply String.app_inj in E.
  apply String.app_inj in E. discriminate E.
Qed.

(** X8.  For an upload staged under the name the controller gives it, a
    canonical file that is already there is never deleted or rewritten,
    whatever the outcome: after [processImage], success or failure, and
    after [cropImage] with an output format free of path separators, the
    canonical path holds the same bytes as before. *)
Theorem existing_canonical_survives pf sharp PORT originalname uuid :
  let file :=
    mkMulterFile (Controller.storage_filename pf originalname uuid) in
  let canonical := originalOutputPath (getFilePaths pf file) in
  TokenPattern.token uuid = true ->
  Path.base_component pf originalname <> ".." ->
  Path.after_root pf (filename file) = filename file ->
  (forall imageType fs r fs' c,
      files fs !! canonical = Some c ->
      processImage pf sharp PORT file imageType fs = (r, fs') ->
      files fs' !! canonical = Some c)
  /\ (forall cropOptions fs r fs' c,
        Str.existsb (Path.is_sep pf)
          (default DEFAULT_FORMAT (crop_outputFormat cropOptions)) = false ->
        files fs !! canonical = Some c ->
        cropImage pf sharp file cropOptions fs = (r, fs') ->
        files fs' !! canonical = Some c).
Proof.
  intros file canonical Ht Hb Hroot.
  pose proof (storage_filename_not_canonical pf originalname uuid Ht Hb Hroot)
    as Hne.
  cbv zeta in Hne. fold file in Hne.
  pose proof (originalOutputPath_eq pf file) as Hcanonical.
  pose proof (fileBaseName_sep_free pf file) as Hbase.
  fold canonical in Hne, Hcanonical.
  assert (Hout : forall n,
             Path.normalize pf OUTPUT_DIR +:+ Path.sep pf +:+ n <> canonical).
  { intros n E. rewrite Hcanonical in E. symmetry in E.
    now apply upload_ne_output in E. }
  split.
  - intros imageType fs r fs' c Hc H. destruct r as [e|result].
    + apply processImage_inl_files in H. cbv zeta in H.
      destruct H as [-> | (fs1 & Hconv & ->)]; [exact Hc|].
      exact (convertToWebP_keeps sharp _ _ _ _ _ _ Hconv Hc Hne).
    + apply processImage_inr in H as (_ & _ & fs1 & out & Hconv & Hg & _).
      apply generateVariations_inr in Hg
        as (cfg & input & resized & Hcfg & Eout & _ & _ & Hf & _).
      rewrite Hf. rewrite lookup_insert_ne.
      * exact (convertToWebP_keeps sharp _ _ _ _ _ _ Hconv Hc Hne).
      * rewrite Eout, getOutputPath_eq; try exact Hbase.
        -- apply Hout.
        -- destruct (lookup_config_cases _ _ Hcfg) as [-> | ->];
             destruct pf; reflexivity.
        -- destruct pf; reflexivity.
        -- destruct (lookup_config_cases _ _ Hcfg) as [-> | ->]; simpl; lia.
  - intros cropOptions fs r fs' c Hfmt Hc H. destruct r as [e|out].
    + apply cropImage_inl_files in H. cbv zeta in H.
      destruct H as [-> | (fs1 & Hconv & ->)]; [exact Hc|].
      exact (convertToWebP_keeps sharp _ _ _ _ _ _ Hconv Hc Hne).
    + apply cropImage_inr in H.
      apply cropImage_extract_inr in H
        as (fs1 & input & cropped & Hconv & Eout & _ & _ & Hf & _).
      rewrite Hf. rewrite lookup_insert_ne.
      * exact (convertToWebP_keeps sharp _ _ _ _ _ _ Hconv Hc Hne).
      * rewrite Eout, getOutputPath_eq; try assumption.
        -- apply Hout.
        -- destruct pf; reflexivity.
        -- simpl. lia.
Qed.

(** A second [photo.jpg], 500x400, uploaded while the 100x100 canonical
    file of the first is there. *)
Lemma existing_canonical_survives_witness :
  files (snd (processImage Posix ToySharp.toy None
                (mkMulterFile
                   (Controller.storage_filename Posix "photo.jpg"
                      Example.token))
                "game" Example.fs_stale))
  !! "images/uploads/photo.webp"
  = Some (ToySharp.image "webp" 100 100).
Proof.
  pose proof (existing_canonical_survives Posix ToySharp.toy None "photo.jpg"
                Example.token ltac:(vm_compute; reflexivity)
                ltac:(vm_compute; congruence) ltac:(vm_compute; reflexivity))
    as [H _].
  exact (H "game" Example.fs_stale _ _ (ToySharp.image "webp" 100 100)
           ltac:(vm_compute; reflexivity) (surjective_pairing _)).
Defined.

(** ** When requests succeed *)

Lemma dirname_end_plain pf n i :
  Str.existsb (Path.is_sep pf) n = false -> Path.dirname_end pf n i = None.
Proof.
  revert i. induction n as [|c n IH]; intros i H; [reflexivity|].
  simpl in H. apply orb_false_iff in H as [Hc Hn].
  simpl. now rewrite (IH _ Hn), Hc.
Qed.

Lemma has_non_sep_plain pf n :
  n <> "" -> Str.existsb (Path.is_sep pf) n = false ->
  Path.has_non_sep pf n = true.
Proof.
  destruct n as [|c n]; [congruence|]. intros _ H.
  simpl in H. apply orb_false_iff in H as [Hc _].
  unfold Path.has_non_sep. simpl. now rewrite Hc.
Qed.

Lemma dirname_end_append pf a c n i :
  Path.is_sep pf c = true -> n <> "" ->
  Str.existsb (Path.is_sep pf) n = false ->
  (1 <= i + String.length a)%nat ->
  Path.dirname_end pf (a +:+ String c n) i = Some (i + String.length a)%nat.
Proof.
  intros Hc Hn Hplain. revert i. induction a as [|d a IH]; intros i Hi.
  - simpl. rewrite (dirname_end_plain pf n _ Hplain), Hc.
    rewrite (has_non_sep_plain pf n Hn Hplain).
    simpl in Hi. destruct i; [lia|]. simpl. f_equal. lia.
  - simpl. rewrite IH by (simpl in Hi; lia). f_equal. simpl. lia.
Qed.

(** Variants and crops are written directly into the output directory. *)
Lemma dirname_output pf n :
  n <> "" -> Str.existsb (Path.is_sep pf) n = false ->
  Path.dirname pf (Path.normalize pf OUTPUT_DIR +:+ Path.sep pf +:+ n)
  = Path.normalize pf OUTPUT_DIR.
Proof.
  intros Hn Hplain.
  assert (E : exists a c, Path.normalize pf OUTPUT_DIR = a
                          /\ Path.sep pf = String c ""
                          /\ Path.is_sep pf c = true
                          /\ Path.starts_with_sep pf a = false
                          /\ (1 <= String.length a)%nat)
    by (destruct pf; eexists _, _; repeat split; simpl; lia).
  destruct E as (a & c & -> & -> & Hc & Hroot & Hlen).
  change (String c "" +:+ n) with (String c n).
  unfold Path.dirname.
  destruct (a +:+ String c n) eqn:E; [destruct a; discriminate|].
  rewrite <- E.
  assert (Hs : Path.starts_with_sep pf (a +:+ String c n) = false)
    by (destruct a; [simpl in Hlen; lia | exact Hroot]).
  rewrite Hs, (dirname_end_append pf a c n 0 Hc Hn Hplain) by (simpl; lia).
  simpl. apply take_append.
Qed.

Section Success.

Variable pf : platform.
Variable sharp : Sharp.

(** With the output directory in place, [ensureDirectoryExists] on the
    directory of an output path is a no-op. *)
Lemma ensure_output_directory base suffix fmt fs :
  Str.existsb (Path.is_sep pf) base = false ->
  Str.existsb (Path.is_sep pf) suffix = false ->
  Str.existsb (Path.is_sep pf) fmt = false ->
  (1 <= String.length suffix)%nat ->
  is_dir (Path.normalize pf OUTPUT_DIR) fs = true ->
  ensureDirectoryExists pf
    (Path.dirname pf (getOutputPath pf OUTPUT_DIR base suffix fmt)) fs
  = (inr tt, fs).
Proof.
  intros Hb Hs Hf Hl Hdir.
  rewrite getOutputPath_eq by assumption.
  rewrite dirname_output.
  - unfold ensureDirectoryExists, bind, Fs.existsSync, exists_path.
    rewrite Hdir, orb_true_r. reflexivity.
  - destruct base; [destruct suffix; [simpl in Hl; lia | discriminate]
                   | discriminate].
  - rewrite !existsb_append, Hb, Hs, Hf. destruct pf; reflexivity.
Qed.

(** Conversion when it goes through, in one formula for both branches. *)
Lemma convertToWebP_inr_eq filePath originalOutputPath fs uploaded kept :
  files fs !! filePath = Some uploaded ->
  filePath <> originalOutputPath ->
  match files fs !! originalOutputPath with
  | Some previous => kept = previous
  | None =>
      is_dir originalOutputPath fs = false /\ webp sharp uploaded = inr kept
  end ->
  convertToWebP sharp filePath originalOutputPath fs
  = (inr tt,
     mkFS (<[originalOutputPath := kept]> (delete filePath (files fs)))
          (dirs fs)).
Proof.
  intros Hs Hne Hk. rewrite convertToWebP_eq, Hs.
  unfold exists_path, is_file.
  destruct (files fs !! originalOutputPath) as [previous|] eqn:Hc.
  - subst kept. cbn [orb]. unfold remove_file. f_equal. f_equal.
    symmetry. apply insert_id. now rewrite lookup_delete_ne.
  - destruct Hk as [Hd Hw]. rewrite Hd, Hw. cbn [orb].
    unfold remove_file, write_file. cbn [files dirs]. f_equal. f_equal.
    now apply delete_insert_ne.
Qed.

End Success.





(** ** Edge cases *)

(** X11.  A staged file whose path is already the canonical path (a name
    without token that ends in [.webp]) is lost: [convertToWebP] finds the
    canonical path present, skips the encoding and deletes the staged
    file, which is that very file; [processImage] then fails for want of
    its input, as a server error, and the file is gone from the store. *)
Theorem processImage_staged_at_canonical_path pf sharp PORT file imageType
    fs uploaded :
  let paths := getFilePaths pf file in
  filePath paths = originalOutputPath paths ->
  files fs !! filePath paths = Some uploaded ->
  isValidImageType imageType = true ->
  convertToWebP sharp (filePath paths) (originalOutputPath paths) fs
  = (inr tt, remove_file (filePath paths) fs)
  /\ exists e fs',
       processImage pf sharp PORT file imageType fs = (inl e, fs')
       /\ is_client_error e = false
       /\ files fs' = delete (filePath paths) (files fs).
Proof.
  intros paths Heq Hs Hvalid.
  assert (Hconv : convertToWebP sharp (filePath paths)
                    (originalOutputPath paths) fs
                  = (inr tt, remove_file (filePath paths) fs)).
  { rewrite convertToWebP_eq, Hs, <- Heq.
    now rewrite (exists_path_file _ _ _ Hs). }
  split; [exact Hconv|].
  rewrite processImage_eq. cbv zeta. fold paths. clearbody paths.
  rewrite (exists_path_file _ _ _ Hs).
  unfold processImage_try, bind. rewrite Hvalid. cbn [negb].
  unfold ret at 1. cbv beta iota. rewrite Hconv.
  destruct (generateVariations pf sharp (fileBaseName paths)
              (originalOutputPath paths) imageType
              (remove_file (filePath paths) fs))
    as [[e|out] fs2] eqn:Hg.
  - eexists _, fs2. split; [reflexivity|]. split; [reflexivity|].
    now rewrite (generateVariations_inl pf sharp _ _ _ _ _ _ Hg).
  - apply generateVariations_inr in Hg as (_ & input & _ & _ & _ & Hin & _).
    cbn [files remove_file] in Hin. rewrite <- Heq in Hin.
    rewrite lookup_delete_eq in Hin. discriminate.
Qed.

(** A file staged as [photo.webp]. *)
Lemma processImage_staged_at_canonical_path_witness :
  let fs := mkFS {[ "images/uploads/photo.webp"
                    := ToySharp.image "webp" 500 400 ]} Example.image_dirs in
  exists e fs',
    processImage Posix ToySharp.toy None (mkMulterFile "photo.webp") "game" fs
    = (inl e, fs')
    /\ is_client_error e = false
    /\ files fs'
       = delete (filePath (getFilePaths Posix (mkMulterFile "photo.webp")))
           (files fs).
Proof.
  intros fs.
  exact (proj2 (processImage_staged_at_canonical_path Posix ToySharp.toy None
                  (mkMulterFile "photo.webp") "game" fs
                  (ToySharp.image "webp" 500 400)
                  ltac:(vm_compute; reflexivity)
                  ltac:(vm_compute; reflexivity)
                  ltac:(vm_compute; reflexivity))).
Defined.

(** * Requests, step by step *)

(** ** The upload pipeline *)

(** The [try] block of [processImage], step after step. *)
Lemma processImage_try_eq pf sharp PORT paths imageType fs :
  processImage_try pf sharp PORT paths imageType fs =
  if isValidImageType imageType then
    match convertToWebP sharp (filePath paths) (originalOutputPath paths) fs
    with
    | (inl cause, fs1) => (inl cause, fs1)
    | (inr _, fs1) =>
        match generateVariations pf sharp (fileBaseName paths)
                (originalOutputPath paths) imageType fs1 with
        | (inl cause, fs2) => (inl cause, fs2)
        | (inr variation, fs2) =>
            (inr (mkProcessedImage
                    (server PORT +:+ "/" +:+ originalOutputPath paths)
                    (server PORT +:+ "/" +:+ variation)), fs2)
        end
    end
  else (inl (BadRequestException ("Invalid image type: " +:+ imageType)), fs).
Proof.
  unfold processImage_try, bind.
  destruct (isValidImageType imageType); [|reflexivity].
  cbn [negb]. unfold ret at 1. cbv beta iota.
  destruct (convertToWebP sharp (filePath paths) (originalOutputPath paths) fs)
    as [[e|[]] fs1]; [reflexivity|].
  destruct (generateVariations pf sharp (fileBaseName paths)
              (originalOutputPath paths) imageType fs1)
    as [[e|variation] fs2]; reflexivity.
Qed.

(** C7, amended.  [processImage] step by step.  A missing staged file
    (step 1) is reported unwrapped, as ['File not found'], with the store
    untouched.  Once the staged file is found, the step that fails is the
    one reported, as one [InternalServerErrorException] carrying that
    step's own message: the type check (step 2) with its invalid-type
    message and the store untouched; the conversion (step 3) with the
    message of whatever made [convertToWebP] fail, for instance the
    codec's refusal of the staged bytes, and the store untouched; the
    variant generation (step 4) with the message of whatever made
    [generateVariations] fail, the store being as conversion left it but
    for directories.  A result is returned only when the conversion and
    the variant generation both succeeded, and then it holds both URLs;
    every failure is one of the two kinds of report. *)
Theorem processImage_failures_wrapped pf sharp PORT file imageType fs :
  let paths := getFilePaths pf file in
  let staged := filePath paths in
  let canonical := originalOutputPath paths in
  let run := processImage pf sharp PORT file imageType fs in
  let report := fun cause : exn =>
    InternalServerErrorException
      ("Error processing image: " +:+ message cause) in
  (exists_path staged fs = false ->
   run = (inl (Error "File not found"), fs))
  /\ (exists_path staged fs = true ->
      isValidImageType imageType = false ->
      run = (inl (report (BadRequestException
                            ("Invalid image type: " +:+ imageType))), fs))
  /\ (exists_path staged fs = true ->
      isValidImageType imageType = true ->
      forall cause fs1,
        convertToWebP sharp staged canonical fs = (inl cause, fs1) ->
        run = (inl (report cause), fs) /\ fs1 = fs)
  /\ (isValidImageType imageType = true ->
      forall uploaded cause,
        files fs !! staged = Some uploaded ->
        exists_path canonical fs = false ->
        webp sharp uploaded = inl cause ->
        run = (inl (report cause), fs))
  /\ (exists_path staged fs = true ->
      isValidImageType imageType = true ->
      forall fs1,
        convertToWebP sharp staged canonical fs = (inr tt, fs1) ->
        (forall cause fs2,
           generateVariations pf sharp (fileBaseName paths) canonical
             imageType fs1 = (inl cause, fs2) ->
           run = (inl (report cause), fs2) /\ files fs2 = files fs1)
        /\ (forall variation fs2,
              generateVariations pf sharp (fileBaseName paths) canonical
                imageType fs1 = (inr variation, fs2) ->
              run = (inr (mkProcessedImage
                            (server PORT +:+ "/" +:+ canonical)
                            (server PORT +:+ "/" +:+ variation)), fs2)))
  /\ (forall result fs',
        run = (inr result, fs') ->
        exists fs1 variation,
          exists_path staged fs = true
          /\ isValidImageType imageType = true
          /\ convertToWebP sharp staged canonical fs = (inr tt, fs1)
          /\ generateVariations pf sharp (fileBaseName paths) canonical
               imageType fs1 = (inr variation, fs')
          /\ result = mkProcessedImage
                        (server PORT +:+ "/" +:+ canonical)
                        (server PORT +:+ "/" +:+ variation))
  /\ (forall e fs',
        run = (inl e, fs') ->
        (e = Error "File not found" /\ exists_path staged fs = false)
        \/ (exists cause, e = report cause /\ exists_path staged fs = true)).
Proof.
  intros paths staged canonical run report.
  assert (Hrun : run =
            if exists_path staged fs then
              match processImage_try pf sharp PORT paths imageType fs with
              | (inl cause, fs') => (inl (report cause), fs')
              | (inr result, fs') => (inr result, fs')
              end
            else (inl (Error "File not found"), fs))
    by apply processImage_eq.
  rewrite processImage_try_eq in Hrun. fold staged canonical in Hrun.
  clearbody run paths. subst staged canonical.
  set (staged := filePath paths) in *.
  set (canonical := originalOutputPath paths) in *.
  split; [intros Hex; now rewrite Hex in Hrun|].
  split; [intros Hex Hv; now rewrite Hex, Hv in Hrun|].
  split.
  { intros Hex Hv cause fs1 Hc. rewrite Hex, Hv, Hc in Hrun.
    pose proof (convertToWebP_inl sharp _ _ _ _ _ Hc) as ->.
    split; [exact Hrun | reflexivity]. }
  split.
  { intros Hv uploaded cause Hs Hno Hw.
    rewrite (exists_path_file _ _ _ Hs), Hv in Hrun.
    rewrite convertToWebP_eq, Hs, Hno, Hw in Hrun. exact Hrun. }
  split.
  { intros Hex Hv fs1 Hc. rewrite Hex, Hv, Hc in Hrun. split.
    - intros cause fs2 Hg. rewrite Hg in Hrun. split; [exact Hrun|].
      exact (generateVariations_inl pf sharp _ _ _ _ _ _ Hg).
    - intros variation fs2 Hg. now rewrite Hg in Hrun. }
  split.
  { intros result fs' H. rewrite Hrun in H.
    destruct (exists_path staged fs); [|discriminate].
    destruct (isValidImageType imageType); [|discriminate].
    destruct (convertToWebP sharp staged canonical fs)
      as [[e|[]] fs1]; [discriminate|].
    destruct (generateVariations pf sharp (fileBaseName paths) canonical
                imageType fs1) as [[e|variation] fs2] eqn:Hg;
      [discriminate|].
    exists fs1, variation.
    assert (E1 : forall (A B : Type) (a a' : A) (b b' : B),
               (a, b) = (a', b') -> a = a' /\ b = b')
      by (intros; split; congruence).
    apply E1 in H as [Hr Hfs]. subst fs2.
    repeat (split; [reflexivity|]). split; [exact Hg | congruence]. }
  intros e fs' H. rewrite Hrun in H.
  destruct (exists_path staged fs);
    [right | left; injection H as <- <-; split; reflexivity].
  destruct (isValidImageType imageType);
    [|injection H as <- <-; eexists; split; reflexivity].
  destruct (convertToWebP sharp staged canonical fs)
    as [[e0|[]] fs1]; [injection H as <- <-; eexists; split; reflexivity|].
  destruct (generateVariations pf sharp (fileBaseName paths) canonical
              imageType fs1) as [[e0|variation] fs2];
    [injection H as <- <-; eexists; split; reflexivity | discriminate].
Qed.

(** A corrupt staged file: the codec's rejection in step 3 comes back
    wrapped, with its message. *)
Lemma processImage_failures_wrapped_witness :
  let fs := mkFS {[ Example.staged_posix := [Byte.x00] ]} Example.image_dirs in
  processImage Posix ToySharp.toy None Example.photo "game" fs
  = (inl (InternalServerErrorException
            ("Error processing image: "
               +:+ "Input buffer contains unsupported image format")), fs).
Proof.
  intros fs.
  pose proof (processImage_failures_wrapped Posix ToySharp.toy None
                Example.photo "game" fs) as (_ & _ & _ & H & _).
  exact (H ltac:(vm_compute; reflexivity) [Byte.x00]
           (Error "Input buffer contains unsupported image format")
           ltac:(vm_compute; reflexivity) ltac:(vm_compute; reflexivity)
           ltac:(vm_compute; reflexivity)).
Defined.

(** ** The crop pipeline *)



(** ** [cropImage] on numbers *)

Section CropOnNumbers.

Variable pf : platform.
Variable sharp : Sharp.
Variable extract_numbers :
  Js.number -> Js.number -> Js.number -> Js.number -> string -> bytes
  -> exn + bytes.

Lemma Js_cropImage_eq file request fs :
  Js.cropImage pf sharp extract_numbers file request fs =
  let paths := getFilePaths pf file in
  if exists_path (filePath paths) fs then
    match Js.cropImage_try pf sharp extract_numbers paths
            (Js.crop_x request) (Js.crop_y request) (Js.crop_width request)
            (Js.crop_height request)
            (default DEFAULT_FORMAT (Js.crop_outputFormat request)) fs with
    | (inl cause, fs') =>
        (inl (InternalServerErrorException
                ("Error cropping image: " +:+ message cause)), fs')
    | (inr croppedFilePath, fs') => (inr croppedFilePath, fs')
    end
  else (inl (Error "File not found"), fs).
Proof.
  unfold Js.cropImage. cbv zeta.
  generalize (getFilePaths pf file). intros paths.
  unfold bind. rewrite ensureFileExists_eq.
  destruct (exists_path (filePath paths) fs); [|reflexivity].
  unfold try_catch, throw.
  destruct (Js.cropImage_try pf sharp extract_numbers paths _ _ _ _ _ fs)
    as [[e|r] fs']; reflexivity.
Qed.

(** The two checks, once the staged file has been probed. *)
Lemma Js_cropImage_try_eq paths x y width height outputFormat fs staged md :
  files fs !! filePath paths = Some staged ->
  metadata sharp staged = inr md ->
  Js.cropImage_try pf sharp extract_numbers paths x y width height
    outputFormat fs =
  if ((x <? 0) || (y <? 0) || (width <=? 0) || (height <=? 0))%float then
    (inl (BadRequestException
            "Invalid crop dimensions (negative values are not allowed)."),
     fs)
  else if ((Js.of_dimension (md_width md) <? x + width)
           || (Js.of_dimension (md_height md) <? y + height))%float then
    (inl (BadRequestException
            ("Crop area exceeds image dimensions. Image dimensions: "
               +:+ show_dimension (md_width md) +:+ "x"
               +:+ show_dimension (md_height md) +:+ ".")), fs)
  else Js.cropImage_extract pf sharp extract_numbers paths x y width height
         outputFormat fs.
Proof.
  intros Hs Hm. unfold Js.cropImage_try, bind, SharpIO.input.
  rewrite Hs. unfold SharpIO.run at 1. rewrite Hm. unfold ret at 1.
  cbv beta iota.
  destruct ((x <? 0) || (y <? 0) || (width <=? 0) || (height <=? 0))%float;
    [reflexivity|].
  destruct ((Js.of_dimension (md_width md) <? x + width)
            || (Js.of_dimension (md_height md) <? y + height))%float;
    reflexivity.
Qed.

(** What follows the two checks, step after step. *)
Lemma Js_cropImage_extract_eq paths x y width height outputFormat fs :
  Js.cropImage_extract pf sharp extract_numbers paths x y width height
    outputFormat fs =
  let output :=
    getOutputPath pf OUTPUT_DIR (fileBaseName paths) "cropped" outputFormat in
  match convertToWebP sharp (filePath paths) (originalOutputPath paths) fs
  with
  | (inl cause, fs1) => (inl cause, fs1)
  | (inr _, fs1) =>
      match ensureDirectoryExists pf (Path.dirname pf output) fs1 with
      | (inl cause, fs2) => (inl cause, fs2)
      | (inr _, fs2) =>
          match files fs2 !! originalOutputPath paths with
          | None =>
              (inl (Error ("Input file is missing: "
                             +:+ originalOutputPath paths)), fs2)
          | Some kept =>
              match extract_numbers x y width height outputFormat kept with
              | inl cause => (inl cause, fs2)
              | inr cropped =>
                  if is_dir output fs2
                  then (inl (Error ("EISDIR: illegal operation on a "
                                      +:+ "directory, open '"
                                      +:+ output +:+ "'")), fs2)
                  else (inr output, write_file output cropped fs2)
              end
          end
      end
  end.
Proof.
  cbv zeta. unfold Js.cropImage_extract, bind.
  destruct (convertToWebP sharp (filePath paths) (originalOutputPath paths)
              fs) as [[e|[]] fs1]; [reflexivity|].
  set (out0 := getOutputPath pf OUTPUT_DIR (fileBaseName paths) "cropped"
                 outputFormat).
  destruct (ensureDirectoryExists pf (Path.dirname pf out0) fs1)
    as [[e|[]] fs2]; [reflexivity|].
  unfold SharpIO.input.
  destruct (files fs2 !! originalOutputPath paths) as [kept|];
    [|reflexivity].
  unfold SharpIO.run.
  destruct (extract_numbers x y width height outputFormat kept)
    as [e|cropped]; [reflexivity|].
  unfold ret, SharpIO.toFile.
  destruct (is_dir out0 fs2); reflexivity.
Qed.

End CropOnNumbers.

(** Every comparison with [NaN] is false. *)
Lemma nan_ltb (a : Js.number) : (nan <? a)%float = false.
Proof. rewrite ltb_spec. reflexivity. Qed.

(** A number that is at least zero is not below zero, and one above zero
    is not at most zero. *)
Lemma leb_zero_not_ltb (a : Js.number) :
  (0 <=? a)%float = true -> (a <? 0)%float = false.
Proof.
  rewrite leb_spec, ltb_spec. change (Prim2SF 0) with (S754_zero false).
  unfold SFleb, SFltb, SFcompare.
  destruct (Prim2SF a) as [s|s| |s m e]; try destruct s; simpl; congruence.
Qed.

Lemma ltb_zero_not_leb (a : Js.number) :
  (0 <? a)%float = true -> (a <=? 0)%float = false.
Proof.
  rewrite leb_spec, ltb_spec. change (Prim2SF 0) with (S754_zero false).
  unfold SFleb, SFltb, SFcompare.
  destruct (Prim2SF a) as [s|s| |s m e]; try destruct s; simpl; congruence.
Qed.

(** ** Integers as numbers

    Below [2^53] an integer is a double, and doubles that are integers
    compare and, below [2^52], add as those integers: on such requests
    the checks of [Js.cropImage] are the checks of [cropImage]. *)


Lemma digits2_pos_size p : digits2_pos p = Pos.size p.
Proof. induction p; simpl; congruence. Qed.

Lemma size_bounds p :
  2 ^ (Z.pos (Pos.size p) - 1) <= Z.pos p < 2 ^ Z.pos (Pos.size p).
Proof.
  induction p as [p IH|p IH|].
  - cbn [Pos.size]. rewrite Pos2Z.inj_succ.
    replace (Z.succ (Z.pos (Pos.size p)) - 1)
      with (Z.succ (Z.pos (Pos.size p) - 1)) by lia.
    rewrite !Z.pow_succ_r by lia. lia.
  - cbn [Pos.size]. rewrite Pos2Z.inj_succ.
    replace (Z.succ (Z.pos (Pos.size p)) - 1)
      with (Z.succ (Z.pos (Pos.size p) - 1)) by lia.
    rewrite !Z.pow_succ_r by lia. lia.
  - simpl. lia.
Qed.

Lemma iter_xO_value p k : Z.pos (Pos.iter xO p k) = Z.pos p * 2 ^ Z.pos k.
Proof.
  induction k as [|k IH] using Pos.peano_ind.
  - simpl. lia.
  - rewrite Pos.iter_succ, Pos2Z.inj_xO, IH, Pos2Z.inj_succ,
      Z.pow_succ_r by lia.
    lia.
Qed.

Lemma iter_xO_size p k :
  Pos.size (Pos.iter xO p k) = (Pos.size p + k)%positive.
Proof.
  induction k as [|k IH] using Pos.peano_ind.
  - simpl. lia.
  - rewrite Pos.iter_succ. cbn [Pos.size]. rewrite IH. lia.
Qed.

Lemma size_unique p d :
  2 ^ (d - 1) <= Z.pos p < 2 ^ d -> Z.pos (Pos.size p) = d.
Proof.
  intros [Hlo Hhi]. pose proof (size_bounds p) as [Slo Shi].
  assert (Hd : 0 < d).
  { destruct (Z.ltb_spec 0 d) as [|Hle]; [assumption|].
    assert (2 ^ d <= 2 ^ 0) by (apply Z.pow_le_mono_r; lia).
    simpl in *. lia. }
  destruct (Z.lt_trichotomy (Z.pos (Pos.size p)) d) as [Hlt | [Heq | Hgt]];
    [|assumption|].
  - assert (2 ^ Z.pos (Pos.size p) <= 2 ^ (d - 1))
      by (apply Z.pow_le_mono_r; lia).
    lia.
  - assert (2 ^ d <= 2 ^ (Z.pos (Pos.size p) - 1))
      by (apply Z.pow_le_mono_r; lia).
    lia.
Qed.

Lemma iter_pos_iter {A} (f : A -> A) k x :
  SpecFloat.iter_pos f k x = Pos.iter f x k.
Proof.
  revert x. induction k as [k IH|k IH|]; intros x; cbn [SpecFloat.iter_pos Pos.iter].
  - rewrite !IH. now rewrite <- !Pos.iter_swap.
  - now rewrite !IH.
  - reflexivity.
Qed.

(** Shifting out zero bits loses nothing. *)
Lemma shr_exact m k :
  SpecFloat.iter_pos shr_1 k
    {| shr_m := Z.pos (Pos.iter xO m k); shr_r := false; shr_s := false |}
  = {| shr_m := Z.pos m; shr_r := false; shr_s := false |}.
Proof.
  rewrite iter_pos_iter.
  induction k as [|k IH] using Pos.peano_ind.
  - reflexivity.
  - rewrite !Pos.iter_succ, <- Pos.iter_swap.
    cbn [shr_1 orb]. exact IH.
Qed.

Lemma fexp_normal d : -1021 <= d -> fexp prec emax d = d - 53.
Proof. intros H. unfold fexp, emin, prec, emax. lia. Qed.

(** A mantissa of 53 bits is kept as it is. *)
Lemma binary_round_aux_normal s m e :
  Z.pos (Pos.size m) = 53 -> -1074 <= e <= 971 ->
  binary_round_aux prec emax s (Z.pos m) e loc_Exact = S754_finite s m e.
Proof.
  intros Hm He. unfold binary_round_aux, shr_fexp.
  cbn [Zdigits2 shr_record_of_loc]. rewrite digits2_pos_size, Hm.
  rewrite fexp_normal by lia. replace (53 + e - 53 - e) with 0 by lia.
  cbn [shr shr_m loc_of_shr_record round_nearest_even Zdigits2
       shr_record_of_loc].
  rewrite digits2_pos_size, Hm. rewrite fexp_normal by lia.
  replace (53 + e - 53 - e) with 0 by lia. cbn [shr shr_m].
  replace (e <=? emax - prec) with true; [reflexivity|].
  symmetry. apply Z.leb_le. unfold emax, prec. lia.
Qed.

(** A longer mantissa whose extra bits are zero is shifted down to 53
    bits. *)
Lemma binary_round_aux_shift s m k e :
  Z.pos (Pos.size m) = 53 -> -1074 <= e + Z.pos k <= 971 ->
  binary_round_aux prec emax s (Z.pos (Pos.iter xO m k)) e loc_Exact
  = S754_finite s m (e + Z.pos k).
Proof.
  intros Hm He. unfold binary_round_aux, shr_fexp.
  cbn [Zdigits2 shr_record_of_loc].
  rewrite digits2_pos_size, iter_xO_size, Pos2Z.inj_add, Hm.
  rewrite fexp_normal by lia.
  replace (53 + Z.pos k + e - 53 - e) with (Z.pos k) by lia.
  cbn [shr]. rewrite shr_exact.
  cbn [shr_m loc_of_shr_record round_nearest_even Zdigits2
       shr_record_of_loc].
  rewrite digits2_pos_size, Hm. rewrite fexp_normal by lia.
  replace (53 + (e + Z.pos k) - 53 - (e + Z.pos k)) with 0 by lia.
  cbn [shr shr_m].
  replace (e + Z.pos k <=? emax - prec) with true; [reflexivity|].
  symmetry. apply Z.leb_le. unfold emax, prec. lia.
Qed.

Lemma size_range q : Z.pos q < 2 ^ 53 -> 1 <= Z.pos (Pos.size q) <= 53.
Proof.
  intros Hq. pose proof (size_bounds q) as [Hlo _]. split; [lia|].
  destruct (Z.ltb_spec 53 (Z.pos (Pos.size q))) as [Hgt|]; [|assumption].
  assert (2 ^ 53 <= 2 ^ (Z.pos (Pos.size q) - 1))
    by (apply Z.pow_le_mono_r; lia).
  lia.
Qed.

Lemma scaled_pos q K :
  0 <= K -> Z.pos (Z.to_pos (Z.pos q * 2 ^ K)) = Z.pos q * 2 ^ K.
Proof.
  intros HK. apply Z2Pos.id.
  assert (0 < 2 ^ K) by (apply Z.pow_pos_nonneg; lia). lia.
Qed.

Lemma scaled_size q K :
  0 <= K ->
  Z.pos (Pos.size (Z.to_pos (Z.pos q * 2 ^ K))) = Z.pos (Pos.size q) + K.
Proof.
  intros HK. apply size_unique. rewrite scaled_pos by assumption.
  pose proof (size_bounds q) as [Hlo Hhi].
  assert (0 < 2 ^ K) by (apply Z.pow_pos_nonneg; lia).
  replace (Z.pos (Pos.size q) + K - 1) with (Z.pos (Pos.size q) - 1 + K)
    by lia.
  rewrite !Z.pow_add_r by lia. split.
  - apply Z.mul_le_mono_nonneg_r; lia.
  - apply Z.mul_lt_mono_pos_r; lia.
Qed.

Lemma mantissa_value q :
  Z.pos q < 2 ^ 53 ->
  Z.pos (Js.mantissa q) = Z.pos q * 2 ^ (53 - Z.pos (Pos.size q)).
Proof.
  intros Hq. pose proof (size_range q Hq). unfold Js.mantissa.
  apply scaled_pos. lia.
Qed.

Lemma mantissa_size q :
  Z.pos q < 2 ^ 53 -> Z.pos (Pos.size (Js.mantissa q)) = 53.
Proof.
  intros Hq. pose proof (size_range q Hq). unfold Js.mantissa.
  rewrite scaled_size by lia. lia.
Qed.

(** Rounding a scaled integer below [2^53] is exact. *)
Lemma binary_round_scaled s q K :
  0 <= K <= 52 -> Z.pos q < 2 ^ 53 ->
  binary_round prec emax s (Z.to_pos (Z.pos q * 2 ^ K)) (- K)
  = S754_finite s (Js.mantissa q) (Z.pos (Pos.size q) - 53).
Proof.
  intros HK Hq. pose proof (size_range q Hq) as Hd.
  pose proof (mantissa_size q Hq) as Hms.
  pose proof (mantissa_value q Hq) as Hmv.
  unfold binary_round.
  rewrite digits2_pos_size, scaled_size by lia.
  replace (Z.pos (Pos.size q) + K + - K) with (Z.pos (Pos.size q)) by lia.
  rewrite fexp_normal by lia. unfold shl_align.
  destruct (Z.pos (Pos.size q) - 53 - - K) as [|t|t] eqn:Ht.
  - assert (E : Z.to_pos (Z.pos q * 2 ^ K) = Js.mantissa q).
    { unfold Js.mantissa. f_equal. f_equal. f_equal. lia. }
    rewrite E, binary_round_aux_normal by lia. f_equal. lia.
  - assert (E : Z.to_pos (Z.pos q * 2 ^ K) = Pos.iter xO (Js.mantissa q) t).
    { apply Pos2Z.inj. rewrite scaled_pos, iter_xO_value, Hmv by lia.
      rewrite <- Z.mul_assoc, <- Z.pow_add_r by lia. f_equal. f_equal. lia. }
    rewrite E, binary_round_aux_shift by lia. f_equal. lia.
  - assert (E : Pos.iter xO (Z.to_pos (Z.pos q * 2 ^ K)) t = Js.mantissa q).
    { apply Pos2Z.inj. rewrite iter_xO_value, scaled_pos, Hmv by lia.
      rewrite <- Z.mul_assoc, <- Z.pow_add_r by lia. f_equal. f_equal. lia. }
    rewrite E, binary_round_aux_normal by lia. reflexivity.
Qed.

Lemma normal_bounded q :
  Z.pos q < 2 ^ 53 ->
  bounded prec emax (Js.mantissa q) (Z.pos (Pos.size q) - 53) = true.
Proof.
  intros Hq. pose proof (size_range q Hq).
  pose proof (mantissa_size q Hq) as Hms.
  unfold bounded, canonical_mantissa.
  rewrite digits2_pos_size, Hms, fexp_normal by lia.
  apply andb_true_iff. split.
  - apply Z.eqb_eq. lia.
  - apply Z.leb_le. unfold emax, prec. lia.
Qed.

Lemma spec_of_Z_valid z :
  Z.abs z < 2 ^ 53 -> valid_binary (Js.spec_of_Z z) = true.
Proof.
  intros Hz. destruct z as [|q|q]; [reflexivity| |];
    cbn [Js.spec_of_Z SpecFloat.valid_binary]; apply normal_bounded; lia.
Qed.

(** Below [2^53], [Js.of_Z] is the integer itself. *)
Lemma Prim2SF_of_Z z :
  Z.abs z < 2 ^ 53 -> Prim2SF (Js.of_Z z) = Js.spec_of_Z z.
Proof.
  intros Hz. unfold Js.of_Z.
  assert (E : binary_normalize prec emax z 0 false = Js.spec_of_Z z).
  { assert (Hr : forall s q, Z.pos q < 2 ^ 53 ->
                binary_round prec emax s q 0
                = S754_finite s (Js.mantissa q) (Z.pos (Pos.size q) - 53)).
    { intros s q Hq. pose proof (binary_round_scaled s q 0) as Hr.
      change (2 ^ 0) with 1 in Hr. rewrite Z.mul_1_r in Hr.
      cbn [Z.to_pos Z.opp] in Hr. apply Hr; lia. }
    destruct z as [|q|q]; [reflexivity| |];
      cbn [binary_normalize Js.spec_of_Z]; apply Hr; lia. }
  rewrite E. apply Prim2SF_SF2Prim, spec_of_Z_valid, Hz.
Qed.

Lemma normal_compare p q :
  Z.pos p < 2 ^ 53 -> Z.pos q < 2 ^ 53 ->
  match Z.pos (Pos.size p) - 53 ?= Z.pos (Pos.size q) - 53 with
  | Eq => Pos.compare_cont Eq (Js.mantissa p) (Js.mantissa q)
  | Lt => Lt
  | Gt => Gt
  end = (p ?= q)%positive.
Proof.
  intros Hp Hq.
  pose proof (size_bounds p) as [Plo Phi].
  pose proof (size_bounds q) as [Qlo Qhi].
  pose proof (size_range p Hp). pose proof (size_range q Hq).
  destruct (Z.compare_spec (Z.pos (Pos.size p) - 53) (Z.pos (Pos.size q) - 53))
    as [E|L|G].
  - change (Pos.compare_cont Eq (Js.mantissa p) (Js.mantissa q))
      with (Z.pos (Js.mantissa p) ?= Z.pos (Js.mantissa q)).
    rewrite !mantissa_value by assumption.
    replace (Z.pos (Pos.size q)) with (Z.pos (Pos.size p)) by lia.
    assert (Hc : 0 < 2 ^ (53 - Z.pos (Pos.size p)))
      by (apply Z.pow_pos_nonneg; lia).
    change (p ?= q)%positive with (Z.pos p ?= Z.pos q).
    destruct (Z.compare_spec (Z.pos p) (Z.pos q)) as [E'|L'|G'].
    + apply Z.compare_eq_iff. now rewrite E'.
    + apply Z.compare_lt_iff. nia.
    + apply Z.compare_gt_iff. nia.
  - symmetry. apply Pos.compare_lt_iff.
    assert (2 ^ Z.pos (Pos.size p) <= 2 ^ (Z.pos (Pos.size q) - 1))
      by (apply Z.pow_le_mono_r; lia).
    lia.
  - symmetry. apply Pos.compare_gt_iff.
    assert (2 ^ Z.pos (Pos.size q) <= 2 ^ (Z.pos (Pos.size p) - 1))
      by (apply Z.pow_le_mono_r; lia).
    lia.
Qed.

(** Below [2^53], numbers compare as the integers they are. *)
Lemma SFcompare_spec_of_Z u v :
  Z.abs u < 2 ^ 53 -> Z.abs v < 2 ^ 53 ->
  SFcompare (Js.spec_of_Z u) (Js.spec_of_Z v) = Some (u ?= v).
Proof.
  intros Hu Hv.
  destruct u as [|p|p], v as [|q|q]; try reflexivity;
    cbn [Js.spec_of_Z SFcompare Z.compare]; f_equal.
  - apply normal_compare; lia.
  - pose proof (normal_compare p q ltac:(lia) ltac:(lia)) as H.
    destruct (Z.pos (Pos.size p) - 53 ?= Z.pos (Pos.size q) - 53);
      rewrite <- H; reflexivity.
Qed.

Lemma shl_align_value m e e' :
  e' <= e -> Z.pos (fst (shl_align m e e')) = Z.pos m * 2 ^ (e - e').
Proof.
  intros He. unfold shl_align. destruct (e' - e) as [|d|d] eqn:Hd.
  - cbn [fst]. replace (e - e') with 0 by lia. simpl. lia.
  - lia.
  - cbn [fst]. rewrite iter_xO_value. f_equal. f_equal. lia.
Qed.

Lemma binary_normalize_scaled z K :
  0 <= K <= 52 -> Z.abs z < 2 ^ 53 ->
  binary_normalize prec emax (z * 2 ^ K) (- K) false = Js.spec_of_Z z.
Proof.
  intros HK Hz. destruct z as [|q|q].
  - reflexivity.
  - rewrite <- scaled_pos by lia. cbn [binary_normalize Js.spec_of_Z].
    apply binary_round_scaled; lia.
  - replace (Z.neg q * 2 ^ K) with (Z.neg (Z.to_pos (Z.pos q * 2 ^ K))).
    + cbn [binary_normalize Js.spec_of_Z]. apply binary_round_scaled; lia.
    + rewrite <- Pos2Z.opp_pos, scaled_pos by lia. lia.
Qed.

(** Below [2^52], numbers add as the integers they are. *)
Lemma SFadd_spec_of_Z a b :
  Z.abs a < 2 ^ 52 -> Z.abs b < 2 ^ 52 ->
  SF64add (Js.spec_of_Z a) (Js.spec_of_Z b) = Js.spec_of_Z (a + b).
Proof.
  intros Ha Hb.
  assert (Hfin : forall sa sb p q,
            Z.pos p < 2 ^ 52 -> Z.pos q < 2 ^ 52 ->
            SFadd prec emax
              (S754_finite sa (Js.mantissa p) (Z.pos (Pos.size p) - 53))
              (S754_finite sb (Js.mantissa q) (Z.pos (Pos.size q) - 53))
            = Js.spec_of_Z (cond_Zopp sa (Z.pos p) + cond_Zopp sb (Z.pos q))).
  { intros sa sb p q Hp Hq. cbn [SFadd].
    pose proof (size_range p ltac:(lia)). pose proof (size_range q ltac:(lia)).
    set (ez := Z.min (Z.pos (Pos.size p) - 53) (Z.pos (Pos.size q) - 53)).
    assert (Hez : -52 <= ez <= 0) by (unfold ez; lia).
    rewrite !shl_align_value by (unfold ez; lia).
    rewrite !mantissa_value by lia.
    rewrite <- !Z.mul_assoc, <- !Z.pow_add_r by lia.
    replace (53 - Z.pos (Pos.size p) + (Z.pos (Pos.size p) - 53 - ez))
      with (- ez) by lia.
    replace (53 - Z.pos (Pos.size q) + (Z.pos (Pos.size q) - 53 - ez))
      with (- ez) by lia.
    replace (cond_Zopp sa (Z.pos p * 2 ^ (- ez))
             + cond_Zopp sb (Z.pos q * 2 ^ (- ez)))
      with ((cond_Zopp sa (Z.pos p) + cond_Zopp sb (Z.pos q)) * 2 ^ (- ez))
      by (destruct sa, sb; unfold cond_Zopp; lia).
    replace ez with (- - ez) at 2 by lia.
    apply binary_normalize_scaled; [lia|].
    destruct sa, sb; unfold cond_Zopp; lia. }
  destruct a as [|p|p], b as [|q|q]; try reflexivity.
  - apply (Hfin false false); lia.
  - apply (Hfin false true); lia.
  - apply (Hfin true false); lia.
  - apply (Hfin true true); lia.
Qed.

(** The comparisons and the sum of the two checks, on integers. *)
Lemma of_Z_ltb_zero a :
  Z.abs a < 2 ^ 53 -> (Js.of_Z a <? 0)%float = (a <? 0).
Proof.
  intros Ha. rewrite ltb_spec, Prim2SF_of_Z by assumption.
  change (Prim2SF 0) with (Js.spec_of_Z 0). unfold SFltb.
  rewrite SFcompare_spec_of_Z by (simpl; lia). reflexivity.
Qed.

Lemma of_Z_leb_zero a :
  Z.abs a < 2 ^ 53 -> (Js.of_Z a <=? 0)%float = (a <=? 0).
Proof.
  intros Ha. rewrite leb_spec, Prim2SF_of_Z by assumption.
  change (Prim2SF 0) with (Js.spec_of_Z 0). unfold SFleb.
  rewrite SFcompare_spec_of_Z by (simpl; lia).
  unfold Z.leb. destruct (a ?= 0); reflexivity.
Qed.

Lemma of_Z_sum_exceeds d a b :
  Z.abs d < 2 ^ 53 -> Z.abs a < 2 ^ 52 -> Z.abs b < 2 ^ 52 ->
  (Js.of_Z d <? Js.of_Z a + Js.of_Z b)%float = (d <? a + b).
Proof.
  intros Hd Ha Hb.
  rewrite ltb_spec, add_spec, !Prim2SF_of_Z by lia.
  rewrite SFadd_spec_of_Z by assumption. unfold SFltb.
  rewrite SFcompare_spec_of_Z by lia. reflexivity.
Qed.

(** On requests whose coordinates are integers below [2^52] in magnitude,
    against probed dimensions below [2^53], the two checks decide in
    double precision what they decide on the integers: with a codec whose
    [extract] takes those numbers for the integers they are, [cropImage]
    on the numbers is [cropImage] on the integers. *)
Lemma cropImage_on_safe_integers pf sharp extract_numbers file cropOptions fs :
  let x := crop_x cropOptions in
  let y := crop_y cropOptions in
  let width := crop_width cropOptions in
  let height := crop_height cropOptions in
  Z.abs x < 2 ^ 52 -> Z.abs y < 2 ^ 52 ->
  Z.abs width < 2 ^ 52 -> Z.abs height < 2 ^ 52 ->
  (forall staged md,
     files fs !! filePath (getFilePaths pf file) = Some staged ->
     metadata sharp staged = inr md ->
     (forall W, md_width md = Some W -> Z.abs W < 2 ^ 53)
     /\ (forall H, md_height md = Some H -> Z.abs H < 2 ^ 53)) ->
  (forall outputFormat input,
     extract_numbers (Js.of_Z x) (Js.of_Z y) (Js.of_Z width) (Js.of_Z height)
       outputFormat input
     = extract sharp x y width height outputFormat input) ->
  Js.cropImage pf sharp extract_numbers file (as_numbers cropOptions) fs
  = cropImage pf sharp file cropOptions fs.
Proof.
  intros x y width height Hx Hy Hw Hh Hdims Hcodec.
  rewrite Js_cropImage_eq, cropImage_eq. cbv zeta.
  cbn [as_numbers Js.crop_x Js.crop_y Js.crop_width Js.crop_height
       Js.crop_outputFormat].
  fold x y width height.
  revert Hdims. generalize (getFilePaths pf file). intros paths Hdims.
  destruct (exists_path (filePath paths) fs); [|reflexivity].
  assert (Htry :
            Js.cropImage_try pf sharp extract_numbers paths (Js.of_Z x)
              (Js.of_Z y) (Js.of_Z width) (Js.of_Z height)
              (default DEFAULT_FORMAT (crop_outputFormat cropOptions)) fs
            = cropImage_try pf sharp paths x y width height
                (default DEFAULT_FORMAT (crop_outputFormat cropOptions)) fs).
  { destruct (files fs !! filePath paths) as [staged|] eqn:Hs.
    2:{ unfold Js.cropImage_try, cropImage_try, bind, SharpIO.input.
        now rewrite Hs. }
    destruct (metadata sharp staged) as [e|md] eqn:Hm.
    { unfold Js.cropImage_try, cropImage_try, bind, SharpIO.input.
      rewrite Hs. unfold SharpIO.run. now rewrite Hm. }
    rewrite (Js_cropImage_try_eq pf sharp extract_numbers _ _ _ _ _ _ fs
               staged md Hs Hm).
    rewrite (cropImage_try_eq pf sharp _ _ _ _ _ _ fs staged md Hs Hm).
    clear Hs.
    rewrite !of_Z_ltb_zero, !of_Z_leb_zero by lia.
    destruct ((x <? 0) || (y <? 0) || (width <=? 0) || (height <=? 0));
      [reflexivity|].
    destruct (Hdims staged md eq_refl Hm) as [HW HH].
    assert (Ew : (Js.of_dimension (md_width md)
                  <? Js.of_Z x + Js.of_Z width)%float
                 = exceeds (x + width) (md_width md)).
    { destruct (md_width md) as [W|]; cbn [Js.of_dimension exceeds].
      - apply of_Z_sum_exceeds; auto.
      - apply nan_ltb. }
    assert (Eh : (Js.of_dimension (md_height md)
                  <? Js.of_Z y + Js.of_Z height)%float
                 = exceeds (y + height) (md_height md)).
    { destruct (md_height md) as [H|]; cbn [Js.of_dimension exceeds].
      - apply of_Z_sum_exceeds; auto.
      - apply nan_ltb. }
    rewrite Ew, Eh.
    destruct (exceeds (x + width) (md_width md)
              || exceeds (y + height) (md_height md)); [reflexivity|].
    rewrite Js_cropImage_extract_eq, cropImage_extract_eq. cbv zeta.
    destruct (convertToWebP sharp (filePath paths) (originalOutputPath paths)
                fs) as [[e|[]] fs1]; [reflexivity|].
    destruct (ensureDirectoryExists pf _ fs1) as [[e|[]] fs2];
      [reflexivity|].
    destruct (files fs2 !! originalOutputPath paths) as [kept|];
      [|reflexivity].
    now rewrite Hcodec. }
  now rewrite Htry.
Qed.

(** An integer below [2^53] given as a number is read back as itself. *)
Lemma to_Z_of_Z z : Z.abs z < 2 ^ 53 -> Js.to_Z (Js.of_Z z) = Some z.
Proof.
  intros Hz. unfold Js.to_Z. rewrite Prim2SF_of_Z by assumption.
  destruct z as [|q|q]; [reflexivity| |]; cbn [Js.spec_of_Z];
    assert (Hq : Z.pos q < 2 ^ 53) by lia;
    pose proof (size_range q Hq) as Hd;
    pose proof (mantissa_value q Hq) as Hmv;
    assert (Hc : 0 < 2 ^ (53 - Z.pos (Pos.size q)))
      by (apply Z.pow_pos_nonneg; lia);
    (destruct (Z.leb_spec 0 (Z.pos (Pos.size q) - 53)) as [Hge|Hlt];
     [ assert (E : Z.pos (Pos.size q) = 53) by lia; rewrite E in *;
       change (53 - 53) with 0 in *; change (2 ^ 0) with 1 in *;
       f_equal; lia
     | replace (- (Z.pos (Pos.size q) - 53)) with (53 - Z.pos (Pos.size q))
         by lia;
       rewrite Hmv, Z.mod_mul by lia; cbn [Z.eqb]; f_equal ]).
  - apply Z.div_mul. lia.
  - rewrite <- Pos2Z.opp_pos, Hmv, <- Z.mul_opp_l.
    rewrite Z.div_mul by lia. reflexivity.
Qed.

(** The small codec takes integers given as numbers for what they are. *)
Lemma toy_extract_on_integers x y width height outputFormat input :
  Z.abs x < 2 ^ 53 -> Z.abs y < 2 ^ 53 ->
  Z.abs width < 2 ^ 53 -> Z.abs height < 2 ^ 53 ->
  Js.toy_extract (Js.of_Z x) (Js.of_Z y) (Js.of_Z width) (Js.of_Z height)
    outputFormat input
  = ToySharp.toy_extract x y width height outputFormat input.
Proof.
  intros Hx Hy Hw Hh. unfold Js.toy_extract.
  now rewrite !to_Z_of_Z by assumption.
Qed.

(** What the small codec probes is below [2^16]. *)
Lemma toy_dimension_small hi lo n :
  ToySharp.dimension hi lo = Some n -> Z.abs n < 2 ^ 53.
Proof.
  unfold ToySharp.dimension, ToySharp.u16.
  destruct (_ =? 0); [discriminate|]. intros [= <-].
  pose proof (Byte.to_N_bounded hi). pose proof (Byte.to_N_bounded lo).
  change (2 ^ 53) with 9007199254740992. lia.
Qed.

(** With the small codec, on every store: a request with integer
    coordinates below [2^52] runs on numbers as it runs on integers. *)
Lemma toy_cropImage_on_safe_integers pf file cropOptions fs :
  Z.abs (crop_x cropOptions) < 2 ^ 52 ->
  Z.abs (crop_y cropOptions) < 2 ^ 52 ->
  Z.abs (crop_width cropOptions) < 2 ^ 52 ->
  Z.abs (crop_height cropOptions) < 2 ^ 52 ->
  Js.cropImage pf ToySharp.toy Js.toy_extract file (as_numbers cropOptions) fs
  = cropImage pf ToySharp.toy file cropOptions fs.
Proof.
  intros Hx Hy Hw Hh. apply cropImage_on_safe_integers; try assumption.
  - intros staged md _. cbn [metadata ToySharp.toy].
    unfold ToySharp.toy_metadata, ToySharp.decode.
    destruct staged as [|t [|wh [|wl [|hh [|hl [|]]]]]]; try discriminate.
    intros [= <-]. cbn [md_width md_height]. split; intros n Hn.
    + exact (toy_dimension_small _ _ _ Hn).
    + exact (toy_dimension_small _ _ _ Hn).
  - intros outputFormat input. cbn [extract ToySharp.toy].
    apply toy_extract_on_integers; lia.
Qed.

(** ** The two checks on any numbers *)

(** C4, amended.  Against a staged image probed as [W]x[H], on every
    request: when [x < 0 || y < 0 || width <= 0 || height <= 0] holds,
    [cropImage] fails with the invalid-geometry error; otherwise, when
    the sum [x + width] as [cropImage] computes it, in double precision,
    exceeds [W], or [y + height] so computed exceeds [H], it fails with
    the out-of-bounds error, which names the dimensions.  For integer
    coordinates below [2^52] in magnitude the sums are exact: a
    well-formed rectangle fails with the out-of-bounds error as soon as
    [x + width > W] or [y + height > H], which is also what the method
    written on integers does.  Both errors come back in the wrapping
    every failure of the [try] block gets, and in either case the store
    is exactly as before: nothing was converted, deleted or written. *)
Theorem cropImage_rejects_bad_request
    pf sharp extract_numbers file fs staged W H :
  let invalid :=
    InternalServerErrorException
      ("Error cropping image: "
         +:+ "Invalid crop dimensions (negative values are not allowed).") in
  let out_of_bounds :=
    InternalServerErrorException
      ("Error cropping image: "
         +:+ "Crop area exceeds image dimensions. Image dimensions: "
         +:+ pretty W +:+ "x" +:+ pretty H +:+ ".") in
  files fs !! filePath (getFilePaths pf file) = Some staged ->
  metadata sharp staged = inr (mkMetadata (Some W) (Some H)) ->
  (forall request : Js.CropOption,
     let x := Js.crop_x request in
     let y := Js.crop_y request in
     let width := Js.crop_width request in
     let height := Js.crop_height request in
     let run := Js.cropImage pf sharp extract_numbers file request fs in
     (((x <? 0) || (y <? 0) || (width <=? 0) || (height <=? 0))%float = true ->
      run = (inl invalid, fs))
     /\ (((x <? 0) || (y <? 0) || (width <=? 0) || (height <=? 0))%float
         = false ->
         ((Js.of_Z W <? x + width) || (Js.of_Z H <? y + height))%float
         = true ->
         run = (inl out_of_bounds, fs)))
  /\ (forall cropOptions : CropOption,
        let x := crop_x cropOptions in
        let y := crop_y cropOptions in
        let width := crop_width cropOptions in
        let height := crop_height cropOptions in
        let run :=
          Js.cropImage pf sharp extract_numbers file (as_numbers cropOptions)
            fs in
        Z.abs x < 2 ^ 52 -> Z.abs y < 2 ^ 52 ->
        Z.abs width < 2 ^ 52 -> Z.abs height < 2 ^ 52 ->
        Z.abs W < 2 ^ 53 -> Z.abs H < 2 ^ 53 ->
        ((x < 0 \/ y < 0 \/ width <= 0 \/ height <= 0) ->
         run = (inl invalid, fs))
        /\ (0 <= x -> 0 <= y -> 0 < width -> 0 < height ->
            (x + width > W \/ y + height > H) ->
            run = (inl out_of_bounds, fs)))
  /\ (forall cropOptions : CropOption,
        let x := crop_x cropOptions in
        let y := crop_y cropOptions in
        let width := crop_width cropOptions in
        let height := crop_height cropOptions in
        let run := cropImage pf sharp file cropOptions fs in
        ((x < 0 \/ y < 0 \/ width <= 0 \/ height <= 0) ->
         run = (inl invalid, fs))
        /\ (0 <= x -> 0 <= y -> 0 < width -> 0 < height ->
            (x + width > W \/ y + height > H) ->
            run = (inl out_of_bounds, fs))).
Proof.
  intros invalid out_of_bounds Hs Hm.
  assert (Hnum : forall request : Js.CropOption,
            let x := Js.crop_x request in
            let y := Js.crop_y request in
            let width := Js.crop_width request in
            let height := Js.crop_height request in
            let run := Js.cropImage pf sharp extract_numbers file request fs in
            (((x <? 0) || (y <? 0) || (width <=? 0) || (height <=? 0))%float
             = true ->
             run = (inl invalid, fs))
            /\ (((x <? 0) || (y <? 0) || (width <=? 0) || (height <=? 0))%float
                = false ->
                ((Js.of_Z W <? x + width) || (Js.of_Z H <? y + height))%float
                = true ->
                run = (inl out_of_bounds, fs))).
  { intros request x y width height run. unfold run.
    rewrite Js_cropImage_eq. cbv zeta.
    rewrite (exists_path_file _ _ _ Hs).
    rewrite (Js_cropImage_try_eq pf sharp extract_numbers _ _ _ _ _ _ fs
               staged _ Hs Hm).
    fold x y width height.
    cbn [md_width md_height show_dimension Js.of_dimension].
    split.
    + intros ->. reflexivity.
    + intros -> ->. reflexivity. }
  split; [exact Hnum|]. split.
  - intros cropOptions x y width height run Hx Hy Hw Hh HW HH.
    destruct (Hnum (as_numbers cropOptions)) as [Hbad Hout].
    cbn [as_numbers Js.crop_x Js.crop_y Js.crop_width Js.crop_height]
      in Hbad, Hout.
    fold x y width height run in Hbad, Hout.
    rewrite !of_Z_ltb_zero, !of_Z_leb_zero in Hbad, Hout by lia.
    rewrite !of_Z_sum_exceeds in Hout by lia.
    split.
    + intros Hc. apply Hbad, invalid_geometry_iff, Hc.
    + intros Hx0 Hy0 Hw0 Hh0 Hc. apply Hout.
      * destruct ((x <? 0) || (y <? 0) || (width <=? 0) || (height <=? 0))
          eqn:E; [|reflexivity].
        apply invalid_geometry_iff in E. lia.
      * exact (proj2 (out_of_bounds_iff x y width height W H) Hc).
  - intros cropOptions x y width height run.
    destruct (cropImage_rejects_bad_rectangle pf sharp file cropOptions fs
                staged W H Hs Hm) as (Hbad & Hout & _).
    split; [exact Hbad | exact Hout].
Qed.

(** The 500x400 upload.  With non-integer numbers: a rectangle starting
    half a pixel in and 500 wide is out of bounds.  With integers: a
    negative origin, and a rectangle reaching 100 pixels beyond the right
    edge, on the numbers and on the integers. *)
Lemma cropImage_rejects_bad_request_witness :
  Js.cropImage Posix ToySharp.toy Js.toy_extract Example.photo
    Example.crop_half_pixel Example.fs_upload
  = (inl (InternalServerErrorException
            ("Error cropping image: "
               +:+ "Crop area exceeds image dimensions. Image dimensions: "
               +:+ pretty 500 +:+ "x" +:+ pretty 400 +:+ ".")),
     Example.fs_upload)
  /\ cropImage Posix ToySharp.toy Example.photo Example.crop_negative
       Example.fs_upload
     = (inl (InternalServerErrorException
               ("Error cropping image: "
                  +:+ "Invalid crop dimensions "
                  +:+ "(negative values are not allowed).")),
        Example.fs_upload)
  /\ cropImage Posix ToySharp.toy Example.photo Example.crop_outside
       Example.fs_upload
     = (inl (InternalServerErrorException
               ("Error cropping image: "
                  +:+ "Crop area exceeds image dimensions. Image dimensions: "
                  +:+ pretty 500 +:+ "x" +:+ pretty 400 +:+ ".")),
        Example.fs_upload)
  /\ Js.cropImage Posix ToySharp.toy Js.toy_extract Example.photo
       (as_numbers Example.crop_outside) Example.fs_upload
     = (inl (InternalServerErrorException
               ("Error cropping image: "
                  +:+ "Crop area exceeds image dimensions. Image dimensions: "
                  +:+ pretty 500 +:+ "x" +:+ pretty 400 +:+ ".")),
        Example.fs_upload).
Proof.
  pose proof (cropImage_rejects_bad_request Posix ToySharp.toy Js.toy_extract
                Example.photo Example.fs_upload
                (ToySharp.image "jpeg" 500 400) 500 400
                ltac:(vm_compute; reflexivity)
                ltac:(vm_compute; reflexivity)) as (Hnum & Hsafe & Hint).
  split; [|split; [|split]].
  - destruct (Hnum Example.crop_half_pixel) as [_ Hout].
    exact (Hout ltac:(vm_compute; reflexivity) ltac:(vm_compute; reflexivity)).
  - destruct (Hint Example.crop_negative) as [Hbad _].
    exact (Hbad ltac:(left; vm_compute; reflexivity)).
  - destruct (Hint Example.crop_outside) as [_ Hout].
    exact (Hout ltac:(vm_compute; congruence) ltac:(vm_compute; congruence)
             ltac:(vm_compute; reflexivity) ltac:(vm_compute; reflexivity)
             ltac:(left; vm_compute; reflexivity)).
  - destruct (Hsafe Example.crop_outside
                ltac:(vm_compute; reflexivity) ltac:(vm_compute; reflexivity)
                ltac:(vm_compute; reflexivity) ltac:(vm_compute; reflexivity)
                ltac:(vm_compute; reflexivity) ltac:(vm_compute; reflexivity))
      as [_ Hout].
    exact (Hout ltac:(vm_compute; congruence) ltac:(vm_compute; congruence)
             ltac:(vm_compute; reflexivity) ltac:(vm_compute; reflexivity)
             ltac:(left; vm_compute; reflexivity)).
Defined.

(** ** Undefined dimensions *)

(** C9 as stated fails when only one dimension is undefined: the probe
    reports no width and a height of 400, the rectangle is well-formed and
    100 rows too tall, and the out-of-bounds check fires, naming the
    dimensions as [undefinedx400]. *)
Lemma cropImage_one_undefined_dimension_checked :
  files Example.fs_no_width !! filePath (getFilePaths Posix Example.photo)
  = Some (ToySharp.image "jpeg" 0 400)
  /\ metadata ToySharp.toy (ToySharp.image "jpeg" 0 400)
     = inr (mkMetadata None (Some 400))
  /\ (0 <= crop_x Example.crop_tall /\ 0 <= crop_y Example.crop_tall
      /\ 0 < crop_width Example.crop_tall
      /\ 0 < crop_height Example.crop_tall)
  /\ cropImage Posix ToySharp.toy Example.photo Example.crop_tall
       Example.fs_no_width
     = (inl (InternalServerErrorException
               ("Error cropping image: Crop area exceeds image dimensions. "
                  +:+ "Image dimensions: undefinedx400.")),
        Example.fs_no_width).
Proof.
  split; [vm_compute; reflexivity|]. split; [vm_compute; reflexivity|].
  split; [vm_compute; intuition congruence|]. vm_compute. reflexivity.
Qed.

(** C9, amended.  A comparison against an undefined dimension is false
    whatever the rectangle, so an undefined dimension is not checked.
    With one dimension undefined the other still is: a well-formed
    rectangle reaching beyond the reported dimension is refused with the
    out-of-bounds error, which prints the missing one as [undefined].
    With both undefined the check never fires, and every well-formed
    rectangle, whatever its size, goes on to the conversion and to the
    extraction: a failed conversion is what [cropImage] reports; after a
    successful one the codec's [extract] is called on the canonical file
    with the rectangle as given, its refusal is what [cropImage] reports,
    and its result is what [cropImage] writes to the output path it
    returns.  This holds at integer coordinates, in exact arithmetic, and
    on any numbers, as JavaScript compares them. *)
Theorem cropImage_undefined_dimensions
    pf sharp extract_numbers file fs staged md :
  let paths := getFilePaths pf file in
  let canonical := originalOutputPath paths in
  let report := fun cause : exn =>
    InternalServerErrorException
      ("Error cropping image: " +:+ message cause) in
  let out_of_bounds :=
    BadRequestException
      ("Crop area exceeds image dimensions. Image dimensions: "
         +:+ show_dimension (md_width md) +:+ "x"
         +:+ show_dimension (md_height md) +:+ ".") in
  files fs !! filePath paths = Some staged ->
  metadata sharp staged = inr md ->
  (forall cropOptions : CropOption,
     let x := crop_x cropOptions in
     let y := crop_y cropOptions in
     let width := crop_width cropOptions in
     let height := crop_height cropOptions in
     let outputFormat :=
       default DEFAULT_FORMAT (crop_outputFormat cropOptions) in
     let output :=
       getOutputPath pf OUTPUT_DIR (fileBaseName paths) "cropped"
         outputFormat in
     let run := cropImage pf sharp file cropOptions fs in
     0 <= x -> 0 <= y -> 0 < width -> 0 < height ->
     (md_width md = None -> exceeds (x + width) (md_width md) = false)
     /\ (md_height md = None -> exceeds (y + height) (md_height md) = false)
     /\ (forall H,
           md_width md = None -> md_height md = Some H ->
           (exceeds (x + width) (md_width md)
            || exceeds (y + height) (md_height md) = true
            <-> y + height > H)
           /\ (y + height > H ->
               show_dimension (md_width md) = "undefined"
               /\ run = (inl (report out_of_bounds), fs)))
     /\ (forall W,
           md_width md = Some W -> md_height md = None ->
           (exceeds (x + width) (md_width md)
            || exceeds (y + height) (md_height md) = true
            <-> x + width > W)
           /\ (x + width > W ->
               show_dimension (md_height md) = "undefined"
               /\ run = (inl (report out_of_bounds), fs)))
     /\ (md_width md = None -> md_height md = None ->
         exceeds (x + width) (md_width md)
         || exceeds (y + height) (md_height md) = false
         /\ (forall cause fs1,
               convertToWebP sharp (filePath paths) canonical fs
               = (inl cause, fs1) ->
               run = (inl (report cause), fs))
         /\ (forall fs1 fs2 kept,
               convertToWebP sharp (filePath paths) canonical fs
               = (inr tt, fs1) ->
               ensureDirectoryExists pf (Path.dirname pf output) fs1
               = (inr tt, fs2) ->
               files fs2 !! canonical = Some kept ->
               (forall cause,
                  extract sharp x y width height outputFormat kept
                  = inl cause ->
                  run = (inl (report cause), fs2))
               /\ (forall cropped,
                     extract sharp x y width height outputFormat kept
                     = inr cropped ->
                     is_dir output fs2 = false ->
                     run = (inr output, write_file output cropped fs2)))))
  /\ (forall request : Js.CropOption,
        let x := Js.crop_x request in
        let y := Js.crop_y request in
        let width := Js.crop_width request in
        let height := Js.crop_height request in
        let outputFormat :=
          default DEFAULT_FORMAT (Js.crop_outputFormat request) in
        let output :=
          getOutputPath pf OUTPUT_DIR (fileBaseName paths) "cropped"
            outputFormat in
        let run := Js.cropImage pf sharp extract_numbers file request fs in
        (0 <=? x)%float = true -> (0 <=? y)%float = true ->
        (0 <? width)%float = true -> (0 <? height)%float = true ->
        (md_width md = None ->
         (Js.of_dimension (md_width md) <? x + width)%float = false)
        /\ (md_height md = None ->
            (Js.of_dimension (md_height md) <? y + height)%float = false)
        /\ (md_width md = None ->
            (Js.of_dimension (md_height md) <? y + height)%float = true ->
            run = (inl (report out_of_bounds), fs))
        /\ (md_height md = None ->
            (Js.of_dimension (md_width md) <? x + width)%float = true ->
            run = (inl (report out_of_bounds), fs))
        /\ (md_width md = None -> md_height md = None ->
            ((Js.of_dimension (md_width md) <? x + width)
             || (Js.of_dimension (md_height md) <? y + height))%float = false
            /\ (forall cause fs1,
                  convertToWebP sharp (filePath paths) canonical fs
                  = (inl cause, fs1) ->
                  run = (inl (report cause), fs))
            /\ (forall fs1 fs2 kept,
                  convertToWebP sharp (filePath paths) canonical fs
                  = (inr tt, fs1) ->
                  ensureDirectoryExists pf (Path.dirname pf output) fs1
                  = (inr tt, fs2) ->
                  files fs2 !! canonical = Some kept ->
                  (forall cause,
                     extract_numbers x y width height outputFormat kept
                     = inl cause ->
                     run = (inl (report cause), fs2))
                  /\ (forall cropped,
                        extract_numbers x y width height outputFormat kept
                        = inr cropped ->
                        is_dir output fs2 = false ->
                        run = (inr output, write_file output cropped fs2))))).
Proof.
  intros paths canonical report out_of_bounds Hs Hm. split.
  - intros cropOptions x y width height outputFormat output run Hx Hy Hw Hh.
    assert (Hin : (x <? 0) || (y <? 0) || (width <=? 0) || (height <=? 0)
                  = false).
    { destruct ((x <? 0) || (y <? 0) || (width <=? 0) || (height <=? 0))
        eqn:E; [|reflexivity].
      apply invalid_geometry_iff in E. lia. }
    assert (Hrun : run =
              if exceeds (x + width) (md_width md)
                 || exceeds (y + height) (md_height md)
              then (inl (report out_of_bounds), fs)
              else match cropImage_extract pf sharp paths x y width height
                           outputFormat fs with
                   | (inl cause, fs') => (inl (report cause), fs')
                   | (inr out, fs') => (inr out, fs')
                   end).
    { unfold run. rewrite cropImage_eq. cbv zeta.
      fold paths x y width height outputFormat.
      rewrite (exists_path_file _ _ _ Hs).
      rewrite (cropImage_try_eq pf sharp _ _ _ _ _ _ fs staged md Hs Hm).
      rewrite Hin.
      destruct (exceeds (x + width) (md_width md)
                || exceeds (y + height) (md_height md)); reflexivity. }
    clearbody run.
    split; [now intros ->|]. split; [now intros ->|].
    split.
    { intros H HW HH.
      assert (Hiff : exceeds (x + width) (md_width md)
                     || exceeds (y + height) (md_height md) = true
                     <-> y + height > H).
      { rewrite HW, HH. unfold exceeds. cbn [orb]. rewrite Z.ltb_lt. lia. }
      split; [exact Hiff|]. intros Hgt.
      split; [now rewrite HW|].
      apply Hiff in Hgt. now rewrite Hgt in Hrun. }
    split.
    { intros W HW HH.
      assert (Hiff : exceeds (x + width) (md_width md)
                     || exceeds (y + height) (md_height md) = true
                     <-> x + width > W).
      { rewrite HW, HH. unfold exceeds. rewrite orb_false_r, Z.ltb_lt. lia. }
      split; [exact Hiff|]. intros Hgt.
      split; [now rewrite HH|].
      apply Hiff in Hgt. now rewrite Hgt in Hrun. }
    intros HW HH.
    assert (Hoob : exceeds (x + width) (md_width md)
                   || exceeds (y + height) (md_height md) = false)
      by now rewrite HW, HH.
    rewrite Hoob, cropImage_extract_eq in Hrun. cbv zeta in Hrun.
    fold canonical output in Hrun. clearbody paths.
    split; [exact Hoob|]. split.
    + intros cause fs1 Hc. rewrite Hc in Hrun.
      now rewrite (convertToWebP_inl sharp _ _ _ _ _ Hc) in Hrun.
    + intros fs1 fs2 kept Hc Hd Hk. rewrite Hc, Hd, Hk in Hrun. split.
      * intros cause He. now rewrite He in Hrun.
      * intros cropped He Hdir. now rewrite He, Hdir in Hrun.
  - intros request x y width height outputFormat output run Hx Hy Hw Hh.
    assert (Hin : ((x <? 0) || (y <? 0) || (width <=? 0) || (height <=? 0))%float
                  = false).
    { now rewrite (leb_zero_not_ltb _ Hx), (leb_zero_not_ltb _ Hy),
        (ltb_zero_not_leb _ Hw), (ltb_zero_not_leb _ Hh). }
    assert (Hrun : run =
              if ((Js.of_dimension (md_width md) <? x + width)
                  || (Js.of_dimension (md_height md) <? y + height))%float
              then (inl (report out_of_bounds), fs)
              else match Js.cropImage_extract pf sharp extract_numbers paths
                           x y width height outputFormat fs with
                   | (inl cause, fs') => (inl (report cause), fs')
                   | (inr out, fs') => (inr out, fs')
                   end).
    { unfold run. rewrite Js_cropImage_eq. cbv zeta.
      fold paths x y width height outputFormat.
      rewrite (exists_path_file _ _ _ Hs).
      rewrite (Js_cropImage_try_eq pf sharp extract_numbers _ _ _ _ _ _ fs
                 staged md Hs Hm).
      rewrite Hin.
      destruct ((Js.of_dimension (md_width md) <? x + width)
                || (Js.of_dimension (md_height md) <? y + height))%float;
        reflexivity. }
    clearbody run.
    split; [intros ->; apply nan_ltb|]. split; [intros ->; apply nan_ltb|].
    split.
    { intros _ Hgt. now rewrite Hgt, orb_true_r in Hrun. }
    split.
    { intros _ Hgt. now rewrite Hgt in Hrun. }
    intros HW HH.
    assert (Hoob : ((Js.of_dimension (md_width md) <? x + width)
                    || (Js.of_dimension (md_height md) <? y + height))%float
                   = false).
    { rewrite HW, HH. cbn [Js.of_dimension]. now rewrite !nan_ltb. }
    rewrite Hoob, Js_cropImage_extract_eq in Hrun. cbv zeta in Hrun.
    fold canonical output in Hrun. clearbody paths.
    split; [exact Hoob|]. split.
    + intros cause fs1 Hc. rewrite Hc in Hrun.
      now rewrite (convertToWebP_inl sharp _ _ _ _ _ Hc) in Hrun.
    + intros fs1 fs2 kept Hc Hd Hk. rewrite Hc, Hd, Hk in Hrun. split.
      * intros cause He. now rewrite He in Hrun.
      * intros cropped He Hdir. now rewrite He, Hdir in Hrun.
Qed.

(** A staged file without probed dimensions and a 100000x100000
    rectangle: the conversion runs (the canonical file is written, the
    staged file deleted), the codec is asked for the rectangle, and its
    refusal is what comes back. *)
Lemma cropImage_undefined_dimensions_witness :
  let run := cropImage Posix ToySharp.toy Example.photo Example.crop_huge
               Example.fs_no_dimensions in
  exists cause,
    extract ToySharp.toy 0 0 100000 100000 "webp" (ToySharp.image "webp" 0 0)
    = inl cause
    /\ fst run = inl (InternalServerErrorException
                        ("Error cropping image: " +:+ message cause))
    /\ files (snd run) !! "images/uploads/photo.webp"
       = Some (ToySharp.image "webp" 0 0)
    /\ files (snd run) !! Example.staged_posix = None.
Proof.
  intros run.
  pose proof (cropImage_undefined_dimensions Posix ToySharp.toy Js.toy_extract
                Example.photo Example.fs_no_dimensions
                (ToySharp.image "jpeg" 0 0) (mkMetadata None None)
                ltac:(vm_compute; reflexivity) ltac:(vm_compute; reflexivity))
    as (Hint & _).
  pose proof (Hint Example.crop_huge
                ltac:(vm_compute; congruence) ltac:(vm_compute; congruence)
                ltac:(vm_compute; reflexivity) ltac:(vm_compute; reflexivity))
    as (_ & _ & _ & _ & Hgo).
  destruct (Hgo eq_refl eq_refl) as (_ & _ & Hext).
  set (fs1 := snd (convertToWebP ToySharp.toy
                     (filePath (getFilePaths Posix Example.photo))
                     (originalOutputPath (getFilePaths Posix Example.photo))
                     Example.fs_no_dimensions)).
  destruct (Hext fs1 fs1 (ToySharp.image "webp" 0 0)
              ltac:(vm_compute; reflexivity) ltac:(vm_compute; reflexivity)
              ltac:(vm_compute; reflexivity)) as (Hrefused & _).
  exists (ToySharp.unsupported).
  assert (He : extract ToySharp.toy 0 0 100000 100000 "webp"
                 (ToySharp.image "webp" 0 0) = inl ToySharp.unsupported)
    by (vm_compute; reflexivity).
  split; [exact He|].
  pose proof (Hrefused ToySharp.unsupported He) as Hrun.
  fold run in Hrun. rewrite Hrun.
  split; [reflexivity|]. split; vm_compute; reflexivity.
Defined.

(** ** Requests whose numbers are no integers *)

(** C4 as stated fails on a request whose numbers are not all integers.
    The request [{ x: 1e-20, y: 0, width: 500, height: 400 }] against the
    500x400 upload has [x + width > 500], but the sum the check compares
    with the width is computed in double precision, where it is 500: the
    out-of-bounds check does not fire, the conversion runs (the canonical
    file is written, the staged file deleted), and the request only fails
    when the codec refuses the rectangle. *)
Lemma cropImage_rounded_sum_passes_bounds_check :
  let request := Example.crop_tiny_offset in
  let run := Js.cropImage Posix ToySharp.toy Js.toy_extract Example.photo
               request Example.fs_upload in
  files Example.fs_upload !! filePath (getFilePaths Posix Example.photo)
  = Some (ToySharp.image "jpeg" 500 400)
  /\ metadata ToySharp.toy (ToySharp.image "jpeg" 500 400)
     = inr (mkMetadata (Some 500) (Some 400))
  /\ Js.sum_exceeds (Js.crop_x request) (Js.crop_width request) 500
  /\ (Js.crop_x request + Js.crop_width request)%float = Js.of_Z 500
  /\ (exists cause,
        Js.toy_extract (Js.crop_x request) (Js.crop_y request)
          (Js.crop_width request) (Js.crop_height request) "webp"
          (ToySharp.image "webp" 500 400) = inl cause
        /\ fst run = inl (InternalServerErrorException
                            ("Error cropping image: " +:+ message cause)))
  /\ fst run
     <> inl (InternalServerErrorException
               ("Error cropping image: Crop area exceeds image dimensions. "
                  +:+ "Image dimensions: 500x400."))
  /\ files (snd run) !! Example.staged_posix = None
  /\ files (snd run) !! "images/uploads/photo.webp"
     = Some (ToySharp.image "webp" 500 400).
Proof.
  intros request run.
  split; [vm_compute; reflexivity|]. split; [vm_compute; reflexivity|].
  split; [vm_compute; reflexivity|]. split; [vm_compute; reflexivity|].
  split.
  { eexists. split; vm_compute; reflexivity. }
  split; [vm_compute; discriminate|].
  split; vm_compute; reflexivity.
Qed.

(** C5 as stated fails in two ways.  First when the canonical file is
    already there: a 500x400 [photo.jpg] is staged while a 100x100
    [photo.webp] from an earlier upload exists; the rectangle
    (10, 20, 200, 150) passes both checks against 500x400, conversion
    keeps the existing canonical file, and that file, the one extraction
    reads, is too small: the extraction is rejected.  Second on a request
    whose numbers are not all integers: with [x] being [NaN] and no
    canonical file in the way, both checks pass, every comparison with
    [NaN] being false, the staged file is converted, and the rectangle
    handed to the codec lies within nothing: [x + width <= 500] is false
    as well, and the codec refuses. *)
Lemma cropImage_validation_does_not_bound_extraction :
  (let paths := getFilePaths Posix Example.photo in
   let fs := Example.fs_stale in
   let fs1 := snd (convertToWebP ToySharp.toy (filePath paths)
                     (originalOutputPath paths) fs) in
   webp_preserves_dimensions ToySharp.toy
   /\ files fs !! filePath paths = Some (ToySharp.image "jpeg" 500 400)
   /\ metadata ToySharp.toy (ToySharp.image "jpeg" 500 400)
      = inr (mkMetadata (Some 500) (Some 400))
   /\ cropImage_try Posix ToySharp.toy paths 10 20 200 150 "webp" fs
      = cropImage_extract Posix ToySharp.toy paths 10 20 200 150 "webp" fs
   /\ convertToWebP ToySharp.toy (filePath paths) (originalOutputPath paths) fs
      = (inr tt, fs1)
   /\ files fs1 !! originalOutputPath paths
      = Some (ToySharp.image "webp" 100 100)
   /\ ~ rectangle_within ToySharp.toy 10 20 200 150
          (ToySharp.image "webp" 100 100)
   /\ cropImage Posix ToySharp.toy Example.photo Example.crop_inside fs
      = (inl (InternalServerErrorException
                "Error cropping image: extract_area: bad extract area"), fs1))
  /\ (let request := Example.crop_nan in
      let run := Js.cropImage Posix ToySharp.toy Js.toy_extract Example.photo
                   request Example.fs_upload in
      exists_path "images/uploads/photo.webp" Example.fs_upload = false
      /\ metadata ToySharp.toy (ToySharp.image "jpeg" 500 400)
         = inr (mkMetadata (Some 500) (Some 400))
      /\ ((Js.crop_x request <? 0) || (Js.crop_y request <? 0)
          || (Js.crop_width request <=? 0)
          || (Js.crop_height request <=? 0))%float = false
      /\ ((Js.of_Z 500 <? Js.crop_x request + Js.crop_width request)
          || (Js.of_Z 400 <? Js.crop_y request + Js.crop_height request))%float
         = false
      /\ (Js.crop_x request + Js.crop_width request <=? Js.of_Z 500)%float
         = false
      /\ files (snd run) !! Example.staged_posix = None
      /\ files (snd run) !! "images/uploads/photo.webp"
         = Some (ToySharp.image "webp" 500 400)
      /\ exists cause,
           Js.toy_extract (Js.crop_x request) (Js.crop_y request)
             (Js.crop_width request) (Js.crop_height request) "webp"
             (ToySharp.image "webp" 500 400) = inl cause
           /\ fst run = inl (InternalServerErrorException
                               ("Error cropping image: " +:+ message cause))).
Proof.
  split; [exact cropImage_stale_canonical_out_of_bounds|].
  intros request run.
  do 7 (split; [vm_compute; reflexivity|]).
  eexists. split; vm_compute; reflexivity.
Qed.

(** C5, amended.  When nothing exists at the canonical path before the
    request and re-encoding preserves the probed dimensions, a rectangle
    with integer coordinates that passes both checks against the staged
    file ([0 <= x], [0 <= y], [0 < width], [0 < height],
    [x + width <= W], [y + height <= H]) lies within the
    canonical file extraction reads: the checks let the request through,
    and whenever the codec re-encodes the staged bytes, conversion succeeds
    and leaves exactly those bytes at the canonical path, the rectangle
    within their dimensions; and it is on those bytes that [cropImage]
    calls the codec's [extract] with the rectangle, reporting its refusal
    or writing its result to the output path.  With dimensions below
    [2^52] all of this is the run of the method on the numbers the
    request holds. *)
Theorem cropImage_extraction_within_fresh_canonical
    pf sharp file cropOptions fs staged W H :
  let paths := getFilePaths pf file in
  let x := crop_x cropOptions in
  let y := crop_y cropOptions in
  let width := crop_width cropOptions in
  let height := crop_height cropOptions in
  let outputFormat := default DEFAULT_FORMAT (crop_outputFormat cropOptions) in
  webp_preserves_dimensions sharp ->
  files fs !! filePath paths = Some staged ->
  metadata sharp staged = inr (mkMetadata (Some W) (Some H)) ->
  0 <= x -> 0 <= y -> 0 < width -> 0 < height ->
  x + width <= W -> y + height <= H ->
  exists_path (originalOutputPath paths) fs = false ->
  cropImage_try pf sharp paths x y width height outputFormat fs
  = cropImage_extract pf sharp paths x y width height outputFormat fs
  /\ (forall encoded,
        webp sharp staged = inr encoded ->
        exists fs1,
          convertToWebP sharp (filePath paths) (originalOutputPath paths) fs
          = (inr tt, fs1)
          /\ files fs1 !! originalOutputPath paths = Some encoded
          /\ rectangle_within sharp x y width height encoded)
  /\ (forall fs1 canonical,
        convertToWebP sharp (filePath paths) (originalOutputPath paths) fs
        = (inr tt, fs1) ->
        files fs1 !! originalOutputPath paths = Some canonical ->
        rectangle_within sharp x y width height canonical)
  /\ (forall fs1 fs2 canonical,
        convertToWebP sharp (filePath paths) (originalOutputPath paths) fs
        = (inr tt, fs1) ->
        files fs1 !! originalOutputPath paths = Some canonical ->
        ensureDirectoryExists pf
          (Path.dirname pf
             (getOutputPath pf OUTPUT_DIR (fileBaseName paths) "cropped"
                outputFormat)) fs1 = (inr tt, fs2) ->
        rectangle_within sharp x y width height canonical
        /\ (forall cause,
              extract sharp x y width height outputFormat canonical
              = inl cause ->
              cropImage pf sharp file cropOptions fs
              = (inl (InternalServerErrorException
                        ("Error cropping image: " +:+ message cause)), fs2))
        /\ (forall cropped,
              extract sharp x y width height outputFormat canonical
              = inr cropped ->
              is_dir (getOutputPath pf OUTPUT_DIR (fileBaseName paths)
                        "cropped" outputFormat) fs2 = false ->
              cropImage pf sharp file cropOptions fs
              = (inr (getOutputPath pf OUTPUT_DIR (fileBaseName paths)
                        "cropped" outputFormat),
                 write_file
                   (getOutputPath pf OUTPUT_DIR (fileBaseName paths)
                      "cropped" outputFormat) cropped fs2)))
  /\ (forall extract_numbers,
        W < 2 ^ 52 -> H < 2 ^ 52 ->
        (forall format input,
           extract_numbers (Js.of_Z x) (Js.of_Z y) (Js.of_Z width)
             (Js.of_Z height) format input
           = extract sharp x y width height format input) ->
        Js.cropImage pf sharp extract_numbers file (as_numbers cropOptions) fs
        = cropImage pf sharp file cropOptions fs).
Proof.
  intros paths x y width height outputFormat Hcodec Hs Hm Hx Hy Hw Hh HW HH Hex.
  assert (Hnumbers : forall extract_numbers,
            W < 2 ^ 52 -> H < 2 ^ 52 ->
            (forall format input,
               extract_numbers (Js.of_Z x) (Js.of_Z y) (Js.of_Z width)
                 (Js.of_Z height) format input
               = extract sharp x y width height format input) ->
            Js.cropImage pf sharp extract_numbers file
              (as_numbers cropOptions) fs
            = cropImage pf sharp file cropOptions fs).
  { intros extract_numbers HWs HHs Hext.
    apply cropImage_on_safe_integers; fold x y width height; try lia.
    - intros staged' md'. fold paths. rewrite Hs. intros [= <-].
      rewrite Hm. intros [= <-]. cbn [md_width md_height].
      split; intros n [= <-]; lia.
    - exact Hext. }
  assert (Hchecks :
            cropImage_try pf sharp paths x y width height outputFormat fs
            = cropImage_extract pf sharp paths x y width height outputFormat
                fs).
  { rewrite (cropImage_try_eq pf sharp _ _ _ _ _ _ fs staged _ Hs Hm).
    destruct ((x <? 0) || (y <? 0) || (width <=? 0) || (height <=? 0)) eqn:E1.
    { apply invalid_geometry_iff in E1. lia. }
    cbn [md_width md_height].
    destruct (exceeds (x + width) (Some W) || exceeds (y + height) (Some H))
      eqn:E2; [|reflexivity].
    apply out_of_bounds_iff in E2. lia. }
  assert (Hrun : cropImage pf sharp file cropOptions fs =
            match cropImage_extract pf sharp paths x y width height
                    outputFormat fs with
            | (inl cause, fs') =>
                (inl (InternalServerErrorException
                        ("Error cropping image: " +:+ message cause)), fs')
            | (inr out, fs') => (inr out, fs')
            end).
  { rewrite cropImage_eq. cbv zeta.
    fold paths x y width height outputFormat.
    now rewrite (exists_path_file _ _ _ Hs), Hchecks. }
  clearbody paths.
  assert (Hwithin : forall encoded, webp sharp staged = inr encoded ->
                      rectangle_within sharp x y width height encoded).
  { intros encoded He. exists W, H.
    rewrite (Hcodec _ _ He). auto. }
  assert (Hfresh : forall fs1 canonical,
             convertToWebP sharp (filePath paths) (originalOutputPath paths) fs
             = (inr tt, fs1) ->
             files fs1 !! originalOutputPath paths = Some canonical ->
             rectangle_within sharp x y width height canonical).
  { intros fs1 canonical. rewrite convertToWebP_eq, Hs, Hex.
    destruct (webp sharp staged) as [e|encoded] eqn:He; [discriminate|].
    intros [= <-]. cbn [files remove_file write_file].
    apply exists_path_false in Hex as [Hnone _].
    rewrite lookup_delete_ne by congruence. rewrite lookup_insert_eq.
    intros [= <-]. now apply Hwithin. }
  split; [exact Hchecks|]. split.
  { intros encoded He. rewrite convertToWebP_eq, Hs, Hex, He.
    eexists. split; [reflexivity|]. split; [|now apply Hwithin].
    apply exists_path_false in Hex as [Hnone _].
    cbn [files remove_file write_file].
    rewrite lookup_delete_ne by congruence. apply lookup_insert_eq. }
  split; [exact Hfresh|]. split; [|exact Hnumbers].
  intros fs1 fs2 canonical Hc Hk Hd.
  split; [exact (Hfresh fs1 canonical Hc Hk)|].
  rewrite cropImage_extract_eq in Hrun. cbv zeta in Hrun.
  rewrite Hc, Hd in Hrun.
  apply ensureDirectoryExists_spec in Hd as (Hf & _).
  rewrite Hf, Hk in Hrun. split.
  - intros cause He. now rewrite He in Hrun.
  - intros cropped He Hdir. now rewrite He, Hdir in Hrun.
Qed.

(** The same request with no canonical file in the way. *)
Lemma cropImage_extraction_within_fresh_canonical_witness :
  let paths := getFilePaths Posix Example.photo in
  exists fs1,
    convertToWebP ToySharp.toy (filePath paths) (originalOutputPath paths)
      Example.fs_upload = (inr tt, fs1)
    /\ files fs1 !! originalOutputPath paths
       = Some (ToySharp.image "webp" 500 400)
    /\ rectangle_within ToySharp.toy 10 20 200 150
         (ToySharp.image "webp" 500 400).
Proof.
  intros paths.
  pose proof (cropImage_extraction_within_fresh_canonical Posix ToySharp.toy
                Example.photo Example.crop_inside Example.fs_upload
                (ToySharp.image "jpeg" 500 400) 500 400
                toy_webp_preserves_dimensions
                ltac:(vm_compute; reflexivity) ltac:(vm_compute; reflexivity)
                ltac:(vm_compute; congruence) ltac:(vm_compute; congruence)
                ltac:(vm_compute; reflexivity) ltac:(vm_compute; reflexivity)
                ltac:(vm_compute; congruence) ltac:(vm_compute; congruence)
                ltac:(vm_compute; reflexivity)) as (_ & Hconv & _).
  exact (Hconv (ToySharp.image "webp" 500 400) ltac:(vm_compute; reflexivity)).
Defined.
